(** * b2beast research-api: the two durable workflows

    A shallow embedding of the orchestration code of
    [src/workflows/pdf-parser.ts] (class [PdfParserWorkflow]) and
    [src/workflows/legal-compliance.ts] (class [LegalComplianceWorkflow]),
    with the client of the hallucination-risk service
    ([src/utils/antihal.ts]).

    Conventions.
    - A JavaScript number that holds an index, a count or a percentage is a
      [Z]; every such value of the workflows is far below 2^53, where the
      double arithmetic of the source is exact.
    - A JavaScript string is a [string]; its [length] is its number of code
      units.
    - [async] code is written in two small monads.  A [Task] is the body of
      a helper method: it may call external services (each call is logged)
      and may throw.  A [W] computation is workflow code: it threads the
      job record of the database, the history of the writes made to it and
      the names of the [step.do] steps that were run.
    - The external services (the inference capability, the R2 bucket, the
      risk service) are the fields of a [World]; what they answer is not
      constrained. *)

From Stdlib Require Import ZArith QArith List Lia Bool String Ascii.
From Stdlib Require Import DecimalString DecimalZ DecimalPos Permutation Sorted.
Import ListNotations.

Open Scope string_scope.
Open Scope list_scope.
Open Scope Z_scope.

(** String concatenation, written apart from the concatenation of lists. *)
Infix "+++" := String.append (right associativity, at level 60).

(** ** JavaScript arithmetic and arrays *)

(** [Math.ceil(a / b)] on integers. *)
Definition Math_ceil_div (a b : Z) : Z := - ((- a) / b).

(** [Math.round(a / b)] on integers with [0 < b]: [Math.round] rounds to
    the nearest integer, halves upwards, that is [floor (a/b + 1/2)]. *)
Definition Math_round_div (a b : Z) : Z := (2 * a + b) / (2 * b).

(** [array.length] as a number. *)
Definition len {T} (array : list T) : Z := Z.of_nat (List.length array).

(** [array.slice(start, end)]: negative arguments count from the end of the
    array, both are clamped to [0 .. length]. *)
Definition slice {T} (array : list T) (start end_ : Z) : list T :=
  let k := if start <? 0 then Z.max (len array + start) 0
           else Z.min start (len array) in
  let final := if end_ <? 0 then Z.max (len array + end_) 0
               else Z.min end_ (len array) in
  firstn (Z.to_nat (final - k)) (skipn (Z.to_nat k) array).

(** [array[i]]: [undefined] outside the array. *)
Definition at_index {T} (array : list T) (i : Z) : option T :=
  if i <? 0 then None else nth_error array (Z.to_nat i).

(** [`${n}`] for an integer [n]. *)
Definition string_of_Z (n : Z) : string := NilZero.string_of_int (Z.to_int n).

(** ** chunkArray

    Both workflow classes carry the same private method:
<<
    private chunkArray<T>(array: T[], size: number): T[][] {
      const chunks: T[][] = [];
      for (let i = 0; i < array.length; i += size) {
        chunks.push(array.slice(i, i + size));
      }
      return chunks;
    }
>>
    The loop is run on fuel; [None] says that the fuel ran out.  The fuel
    given by [chunkArray] is the length of the array, which is enough
    whenever the loop ends at all (see [chunkArray_diverges]). *)
Fixpoint chunkArray_loop {T} (fuel : nat) (array : list T) (size i : Z)
    (chunks : list (list T)) : option (list (list T)) :=
  match fuel with
  | O => if i <? len array then None else Some chunks
  | S fuel' =>
      if i <? len array
      then chunkArray_loop fuel' array size (i + size)
             (chunks ++ [slice array i (i + size)])
      else Some chunks
  end.

Definition chunkArray {T} (array : list T) (size : Z) : option (list (list T)) :=
  chunkArray_loop (List.length array) array size 0 [].

(** The chunks of a call with a positive size, as a total function. *)
Definition chunks_of {T} (array : list T) (size : Z) : list (list T) :=
  match chunkArray array size with
  | Some chunks => chunks
  | None => []
  end.


(** ** JavaScript strings *)

(** [!s] for an optional string: [undefined], [null] and the empty string
    are falsy. *)
Definition falsy (s : option string) : bool :=
  match s with
  | Some (String _ _) => false
  | _ => true
  end.

(** [s || d] for an optional string. *)
Definition or_else (s : option string) (d : string) : string :=
  match s with
  | Some (String c r) => String c r
  | _ => d
  end.

(** [parts.join(sep)]. *)
Fixpoint join (sep : string) (parts : list string) : string :=
  match parts with
  | [] => ""
  | [p] => p
  | p :: rest => p +++ sep +++ join sep rest
  end.

(** The line feed of a template literal. *)
Definition LF : string := String (ascii_of_nat 10) "".

(** The double quote. *)
Definition QUOTE : string := String (ascii_of_nat 34) "".

(** [s.includes(c)] for one character. *)
Fixpoint includes_char (c : ascii) (s : string) : bool :=
  match s with
  | "" => false
  | String d r => Ascii.eqb d c || includes_char c r
  end.

(** [s.replace(/<[^>]*>/g, " ")]: a match starts at a [<] that has a [>]
    somewhere after it and runs to the first such [>]; the scan goes on
    after the match.  [inTag] says that the scan is inside a match. *)
Fixpoint replaceTags_from (inTag : bool) (s : string) : string :=
  match s with
  | "" => ""
  | String c r =>
      if inTag then
        if Ascii.eqb c ">" then replaceTags_from false r
        else replaceTags_from true r
      else if Ascii.eqb c "<" && includes_char ">" r
           then String " " (replaceTags_from true r)
           else String c (replaceTags_from false r)
  end.

Definition replaceTags (s : string) : string := replaceTags_from false s.

(** White space of [String.prototype.trim] among the code units below 256:
    TAB, LF, VT, FF, CR, SP and NBSP. *)
Definition isWhiteSpace (c : ascii) : bool :=
  let n := N_of_ascii c in
  ((9 <=? n) && (n <=? 13) || (n =? 32) || (n =? 160))%N.

Fixpoint trimStart (s : string) : string :=
  match s with
  | "" => ""
  | String c r => if isWhiteSpace c then trimStart r else s
  end.

Fixpoint trimEnd (s : string) : string :=
  match s with
  | "" => ""
  | String c r =>
      match trimEnd r with
      | "" => if isWhiteSpace c then "" else String c ""
      | r' => String c r'
      end
  end.

(** [s.trim()]. *)
Definition trim (s : string) : string := trimEnd (trimStart s).

(** [s.endsWith("/")], [s.slice(0, -1)]. *)
Fixpoint endsWith_char (c : ascii) (s : string) : bool :=
  match s with
  | "" => false
  | String d "" => Ascii.eqb d c
  | String _ r => endsWith_char c r
  end.

Fixpoint dropLast (s : string) : string :=
  match s with
  | "" => ""
  | String _ "" => ""
  | String d r => String d (dropLast r)
  end.

(** [s.includes(t)] for a text [t]. *)
Fixpoint includes (t s : string) : bool :=
  String.prefix t s ||
  match s with
  | "" => false
  | String _ r => includes t r
  end.

(** [btoa(s)] on a string of bytes: the Base64 text of RFC 4648, three
    bytes to four characters, the last group padded with [=]. *)
Definition base64_alphabet : string :=
  "ABCDEFGHIJKLMNOPQRSTUVWXYZabcdefghijklmnopqrstuvwxyz0123456789+/".

Definition base64_char (n : N) : string :=
  match String.get (N.to_nat n) base64_alphabet with
  | Some c => String c ""
  | None => "="
  end.

Fixpoint btoa (s : string) : string :=
  match s with
  | "" => ""
  | String a "" =>
      let x := N_of_ascii a in
      base64_char (x / 4) +++ base64_char ((x mod 4) * 16) +++ "=="
  | String a (String b "") =>
      let x := N_of_ascii a in
      let y := N_of_ascii b in
      base64_char (x / 4) +++ base64_char ((x mod 4) * 16 + y / 16)
      +++ base64_char ((y mod 16) * 4) +++ "="
  | String a (String b (String c r)) =>
      let x := N_of_ascii a in
      let y := N_of_ascii b in
      let z := N_of_ascii c in
      (base64_char (x / 4) +++ base64_char ((x mod 4) * 16 + y / 16)
       +++ base64_char ((y mod 16) * 4 + z / 64) +++ base64_char (z mod 64))%N
      +++ btoa r
  end%N.

(** ** Thrown values and results *)

(** What a [throw] carries: an [Error] object with its message, or any
    other value. *)
Inductive Thrown : Type :=
| ErrorObj (message : string)
| OtherValue.

(** [error instanceof Error ? error.message : dflt]. *)
Definition message_or (dflt : string) (error : Thrown) : string :=
  match error with
  | ErrorObj m => m
  | OtherValue => dflt
  end.

Inductive Result (A : Type) : Type :=
| Ok (a : A)
| Throw (error : Thrown).
Arguments Ok {A} a.
Arguments Throw {A} error.

(** ** Tasks: helper methods that call external services *)

Inductive Call : Type :=
| CallGenerateText (model : string)
| CallGenerateObject (model : string)
| CallBucketGet (key : string)
| CallFetch (endpoint : string) (timeoutMs : Z).

(** A task ran: the external calls it made, in order, and how it ended. *)
Definition Task (A : Type) : Type := (list Call * Result A)%type.

Definition task_ret {A} (a : A) : Task A := ([], Ok a).
Definition task_throw {A} (error : Thrown) : Task A := ([], Throw error).

Definition task_bind {A B} (t : Task A) (k : A -> Task B) : Task B :=
  match t with
  | (cs, Ok a) => let (cs', r) := k a in (cs ++ cs', r)
  | (cs, Throw e) => (cs, Throw e)
  end.

(** An [await]ed call of an external service, with the answer it gave. *)
Definition task_call {A} (c : Call) (answer : Result A) : Task A := ([c], answer).

(** [try { t } catch (error) { handler error }]. *)
Definition task_catch {A} (t : Task A) (handler : Thrown -> Task A) : Task A :=
  match t with
  | (cs, Ok a) => (cs, Ok a)
  | (cs, Throw e) => let (cs', r) := handler e in (cs ++ cs', r)
  end.

Declare Scope task_scope.
Delimit Scope task_scope with task.
Notation "x <- t ;; k" := (task_bind t (fun x => k))
  (at level 100, t at next level, right associativity) : task_scope.
Notation "' pat <- t ;; k" := (task_bind t (fun x => match x with pat => k end))
  (at level 100, pat pattern, t at next level, right associativity) : task_scope.

(** [Promise.all] over helper calls made inside one step; as in
    [Promise_all] below, the calls are run in array order up to the first
    rejection, where the program starts them all. *)
Fixpoint task_all {A} (tasks : list (Task A)) : Task (list A) :=
  match tasks with
  | [] => task_ret []
  | t :: rest => (a <- t ;; r <- task_all rest ;; task_ret (a :: r))%task
  end.

(** ** Workflow code: the job record, its write history, the steps *)

Record St (J : Type) : Type := mkSt {
  job : J;               (* the row of the job in the database *)
  writes : list J;       (* the row after each [db.update], oldest first *)
  steps : list string;   (* the names of the [step.do] steps started *)
  calls : list Call      (* the external calls made inside the steps *)
}.
Arguments mkSt {J} _ _ _ _.
Arguments job {J} _.
Arguments writes {J} _.
Arguments steps {J} _.
Arguments calls {J} _.

Definition W (J A : Type) : Type := St J -> Result A * St J.

Definition ret {J A} (a : A) : W J A := fun s => (Ok a, s).
Definition throw {J A} (error : Thrown) : W J A := fun s => (Throw error, s).

Definition bind {J A B} (m : W J A) (k : A -> W J B) : W J B :=
  fun s => match m s with
           | (Ok a, s') => k a s'
           | (Throw e, s') => (Throw e, s')
           end.

(** [await db.update(table).set(fields).where(eq(table.id, id))]: [set]
    is the change of the row.  The write itself is taken to succeed;
    [db_update_on] is the write on a database that may reject it. *)
Definition db_update {J} (set : J -> J) : W J unit :=
  fun s => (Ok tt, mkSt (set (job s)) (writes s ++ [set (job s)]) (steps s) (calls s)).

(** A helper method awaited inside a step. *)
Definition run_task {J A} (t : Task A) : W J A :=
  fun s => (snd t, mkSt (job s) (writes s) (steps s) (calls s ++ fst t)).

(** [await step.do(name, body)], on a first execution: the step is started
    and its body run.  Retries and replays of the step runtime are not
    modelled. *)
Definition step_do {J A} (name : string) (body : W J A) : W J A :=
  fun s => body (mkSt (job s) (writes s) (steps s ++ [name]) (calls s)).

(** [try { body } catch (error) { handler error }]. *)
Definition try_catch {J A} (body : W J A) (handler : Thrown -> W J A) : W J A :=
  fun s => match body s with
           | (Ok a, s') => (Ok a, s')
           | (Throw e, s') => handler e s'
           end.

(** [await Promise.all(promises)]: the results come in the order of the
    array of promises.  The promises of a wave share no state; the wave is
    run in array order and ends at the first rejection.  The program starts
    every promise of the wave before it awaits: for a wave that rejects,
    the steps and calls logged here are a prefix of those the program
    starts, and the rejection is that of the first promise in array order
    where the program sees the one that rejects first in time. *)
Fixpoint Promise_all {J A} (promises : list (W J A)) : W J (list A) :=
  match promises with
  | [] => ret []
  | p :: rest =>
      bind p (fun a => bind (Promise_all rest) (fun r => ret (a :: r)))
  end.

(** [for (let i = start; ...; i++) { acc = body i items[i] acc }] over the
    items of an array. *)
Fixpoint for_indexed {J X S} (items : list X) (i : Z) (acc : S)
    (body : Z -> X -> S -> W J S) : W J S :=
  match items with
  | [] => ret acc
  | x :: rest => bind (body i x acc) (fun acc' => for_indexed rest (i + 1) acc' body)
  end.

(** [array.map((x, idx) => f x idx)]. *)
Fixpoint map_indexed_from {X Y} (i : Z) (f : X -> Z -> Y) (l : list X) : list Y :=
  match l with
  | [] => []
  | x :: rest => f x i :: map_indexed_from (i + 1) f rest
  end.

Definition map_indexed {X Y} (f : X -> Z -> Y) (l : list X) : list Y :=
  map_indexed_from 0 f l.

Declare Scope wf_scope.
Delimit Scope wf_scope with wf.
Notation "x <- m ;; k" := (bind m (fun x => k))
  (at level 100, m at next level, right associativity) : wf_scope.
Notation "m ;;; k" := (bind m (fun _ => k))
  (at level 100, right associativity) : wf_scope.

(** [getLanguageName], the same private method in both classes, on a
    locale that names no member of [Object.prototype]: for one that does
    (['constructor'], ['toString']) [languageMap[locale]] finds the inherited
    member and the method returns it instead of a language name. *)
Definition getLanguageName (locale : string) : string :=
  let languageMap := [("en", "English"); ("ru", "Russian")] in
  match find (fun kv => String.eqb (fst kv) locale) languageMap with
  | Some kv => snd kv
  | None => "English"
  end.

(** ** The database of the jobs *)

(** The database the workflows write the row of their job to.  [DB] says
    whether the binding [env.DB] is there; [db_write history row] is the
    outcome of the awaited [db.update] that stores [row] after the accepted
    writes [history]: the write is accepted, or the call rejects with the
    value thrown. *)
Record Database (J : Type) : Type := {
  DB : bool;
  db_write : list J -> J -> Result unit
}.
Arguments DB {J} _.
Arguments db_write {J} _ _ _.

(** A database that accepts every write. *)
Definition reliable {J} : Database J :=
  {| DB := true; db_write := fun _ _ => Ok tt |}.

(** [getDb(env)]:
<<
    if (!env.DB) { throw new Error('DB not found'); }
    return drizzle(env.DB, { schema });
>> *)
Definition getDb {J} (db : Database J) : W J unit :=
  if DB db then ret tt else throw (ErrorObj "DB not found").

(** [await db.update(table).set(fields).where(eq(table.id, id))] on the
    database [db]: a rejected write leaves the row as it was. *)
Definition db_update_on {J} (db : Database J) (set : J -> J) : W J unit :=
  fun s => match db_write db (writes s) (set (job s)) with
           | Ok _ => db_update set s
           | Throw e => (Throw e, s)
           end.

(** An error with a message to record: any thrown value but an [Error]
    with an empty message. *)
Definition named (e : Thrown) : Prop := e <> ErrorObj "".

(** A database that rejects every write, and an environment without the
    binding. *)
Definition rejecting {J} : Database J :=
  {| DB := true; db_write := fun _ _ => Throw (ErrorObj "D1_ERROR: database is locked") |}.

Definition unbound {J} : Database J :=
  {| DB := false; db_write := fun _ _ => Ok tt |}.

(** ** Vocabulary of the statements about workflow code *)

(** The outcome and the final state of [m] from [s] satisfy [Q]. *)
Definition wp {J A} (m : W J A) (Q : Result A -> St J -> Prop) (s : St J) : Prop :=
  Q (fst (m s)) (snd (m s)).

(** A helper that throws only values that satisfy [E]. *)
Definition task_fails {A} (E : Thrown -> Prop) (t : Task A) : Prop :=
  match snd t with
  | Throw e => E e
  | Ok _ => True
  end.

(** Workflow code that does not write to the job, and throws only values
    that satisfy [E]. *)
Definition quiet {J A} (E : Thrown -> Prop) (m : W J A) : Prop :=
  forall s,
    job (snd (m s)) = job s /\ writes (snd (m s)) = writes s /\
    match fst (m s) with
    | Throw e => E e
    | Ok _ => True
    end.

(** Workflow code that throws only values that satisfy [E]. *)
Definition throws_only {J A} (E : Thrown -> Prop) (m : W J A) : Prop :=
  forall s, match fst (m s) with
            | Throw e => E e
            | Ok _ => True
            end.

(** An [Error] with a message that is not empty. *)
Definition has_message (e : Thrown) : Prop :=
  match e with
  | ErrorObj m => m <> ""
  | OtherValue => False
  end.

(** The write history of a job: the progress values never decrease, none
    is above the one of the current row, and every written row satisfies
    [snap]. *)
Definition hist_ok {J} (progress : J -> Z) (snap : J -> Prop) (s : St J) : Prop :=
  StronglySorted (fun a b => progress a <= progress b) (writes s) /\
  Forall (fun j => progress j <= progress (job s)) (writes s) /\
  Forall snap (writes s).

(** The state of a job before its workflow starts. *)
Definition initial {J} (j : J) : St J := mkSt j [] [] [].

(** [array.sort(compare)]: the sort of ECMAScript is stable, so with a
    consistent comparator its result is that of a stable insertion sort. *)
Fixpoint sort_insert {X} (compare : X -> X -> Z) (x : X) (sorted : list X) : list X :=
  match sorted with
  | [] => [x]
  | y :: rest =>
      if compare x y <=? 0 then x :: y :: rest
      else y :: sort_insert compare x rest
  end.

Fixpoint sort_by {X} (compare : X -> X -> Z) (array : list X) : list X :=
  match array with
  | [] => []
  | x :: rest => sort_insert compare x (sort_by compare rest)
  end.

(** [s.substring(start, end)]: both ends are clamped to [0 .. length] and
    swapped when out of order. *)
Definition substring (s : string) (start end_ : Z) : string :=
  let n := Z.of_nat (String.length s) in
  let a := Z.max 0 (Z.min start n) in
  let b := Z.max 0 (Z.min end_ n) in
  String.substring (Z.to_nat (Z.min a b)) (Z.to_nat (Z.max a b - Z.min a b)) s.

(** * The PDF parser workflow ([src/workflows/pdf-parser.ts]) *)

Module PdfParserWorkflow.

Record PdfParserParams : Type := {
  contractKey : string;
  totalPages : Z;
  researchId : string;
  locale : option string
}.

Record ContractBlock : Type := {
  paragraph : string;
  content : string;
  pageNumber : Z;
  anchorId : option string
}.

Inductive Severity : Type := safe | medium | elevated | high.

Definition Severity_eqb (a b : Severity) : bool :=
  match a, b with
  | safe, safe | medium, medium | elevated, elevated | high, high => true
  | _, _ => false
  end.

Record ContractBlockReview : Type := {
  blockIndex : Z;
  severity : Severity;
  start : Z;
  end_ : Z;
  comment : string
}.

(** The objects the inference capability returns, already validated
    against the schema of the call. *)
Record Paragraph : Type := { p_paragraph : string; p_content : string }.

Record ReviewObject : Type := {
  o_severity : Severity;
  o_start : Z;
  o_end : Z;
  o_comment : string
}.

Record KeyIssue : Type := { shortSummary : string; issueIndex : Z }.

Record SummaryObject : Type := {
  o_title : string;
  o_overallEvaluation : string;
  o_summary : string;
  keyIssues : list KeyIssue
}.

Record TopConcern : Type := {
  tc_shortSummary : string;
  tc_anchorId : string;
  tc_severity : Severity
}.

(** The document summary.  The source passes it around as the JSON text of
    this object ([JSON.stringify] in [generateDocumentSummary],
    [JSON.parse] in the last step); the record stands for that text. *)
Record DocumentSummary : Type := {
  s_title : string;
  s_overallEvaluation : string;
  s_summary : string;
  topConcerns : list TopConcern
}.

Record Results : Type := {
  r_totalPages : Z;
  totalBlocks : Z;
  blocks : list ContractBlock;
  reviews : list ContractBlockReview
}.

(** The row of the [research] table, without its identity and time
    stamps. *)
Record Research : Type := {
  status : string;
  currentStage : option string;
  progress : Z;
  results : option Results;
  summary : option DocumentSummary;
  title : option string;
  errorMessage : option string
}.

(** A row as the schema creates it: status ['pending'], progress 0. *)
Definition pendingResearch : Research :=
  {| status := "pending"; currentStage := None; progress := 0;
     results := None; summary := None; title := None; errorMessage := None |}.

(** An object of the bucket: its bytes. Reading them may fail. *)
Record R2Object : Type := { arrayBuffer : Result (list ascii) }.

(** What the workflow finds outside: its environment and the services it
    calls.  Every call may answer or throw. *)
Record World : Type := {
  OPENROUTER_API_KEY : option string;
  research_assets_get : string -> Result (option R2Object);
  generateObject_paragraphs : string -> Z -> string -> Result (list Paragraph);
  generateObject_review : ContractBlock -> string -> Result ReviewObject;
  generateObject_summary : Z -> Z * Z * Z * Z -> string -> string -> Result SummaryObject
}.

Inductive RunResult : Type :=
| RunCompleted (researchId : string) (results : Results)
| RunFailed (researchId : string) (error : string).

(** [String.fromCharCode(...chunk)]. *)
Definition fromCharCode (chunk : list ascii) : string := string_of_list_ascii chunk.

(** The conversion loop of [getObject]:
<<
    for (let i = 0; i < uint8Array.length; i += chunkSize) {
      const chunk = uint8Array.subarray(i, i + chunkSize);
      binaryString += String.fromCharCode(...chunk);
    }
>>
    [subarray] selects as [slice] does. *)
Fixpoint binaryString_loop (fuel : nat) (uint8Array : list ascii) (chunkSize i : Z)
    (binaryString : string) : option string :=
  match fuel with
  | O => if i <? len uint8Array then None else Some binaryString
  | S fuel' =>
      if i <? len uint8Array
      then binaryString_loop fuel' uint8Array chunkSize (i + chunkSize)
             (binaryString +++ fromCharCode (slice uint8Array i (i + chunkSize)))
      else Some binaryString
  end.

Definition binaryString_of (uint8Array : list ascii) : string :=
  match binaryString_loop (List.length uint8Array) uint8Array 8192 0 "" with
  | Some binaryString => binaryString
  | None => ""
  end.

Definition getObject (w : World) (key : string) : Task string :=
  task_catch
    (object <- task_call (CallBucketGet key) (research_assets_get w key) ;;
     match object with
     | None => task_throw (ErrorObj ("Object not found in R2 with key: " +++ key))
     | Some object =>
         uint8Array <- ([], arrayBuffer object) ;;
         task_ret (btoa (binaryString_of uint8Array))
     end)%task
    (fun error =>
       task_throw (ErrorObj ("Failed to fetch object from R2: "
                             +++ message_or "Unknown error" error))).

(** The page number and the anchor id added to each block of a page:
<<
    result.object.paragraphs.map((block, index) => ({
      paragraph: block.paragraph, content: block.content, pageNumber,
      anchorId: `p${pageNumber}-${index}` }))
>> *)
Definition tagBlocks (pageNumber : Z) (paragraphs : list Paragraph)
  : list ContractBlock :=
  map_indexed
    (fun block index =>
       {| paragraph := p_paragraph block;
          content := p_content block;
          pageNumber := pageNumber;
          anchorId := Some ("p" +++ string_of_Z pageNumber +++ "-"
                            +++ string_of_Z index) |})
    paragraphs.

Definition parsePdfPage (w : World) (pdfBase64 : string) (pageNumber : Z)
    (language : string) : Task (list ContractBlock) :=
  if falsy (OPENROUTER_API_KEY w)
  then task_throw (ErrorObj "OPENROUTER_API_KEY not configured")
  else
    task_catch
      (result <- task_call (CallGenerateObject "google/gemini-2.5-flash")
                   (generateObject_paragraphs w pdfBase64 pageNumber language) ;;
       task_ret (tagBlocks pageNumber result))%task
      (fun error =>
         task_throw (ErrorObj ("Failed to parse page " +++ string_of_Z pageNumber
                               +++ ": " +++ message_or "Unknown error" error))).

(** The positions of the highlight of [reviewBlock], from the positions
    the inference capability gave. *)
Definition highlight (contentLength : Z) (object : ReviewObject) : Z * Z :=
  let start := Z.max 0 (Z.min (o_start object) contentLength) in
  let end_ := Z.max 0 (Z.min (o_end object) contentLength) in
  let '(start, end_) := if start >? end_ then (end_, start) else (start, end_) in
  let '(start, end_) :=
    if Severity_eqb (o_severity object) safe
    then if (start =? end_) || (end_ =? 0) then (0, contentLength)
         else (start, end_)
    else (start, end_) in
  let end_ := Z.min end_ contentLength in
  (start, end_).

Definition reviewBlock (w : World) (block : ContractBlock) (blockIndex : Z)
    (language : string) : Task ContractBlockReview :=
  if falsy (OPENROUTER_API_KEY w)
  then task_throw (ErrorObj "OPENROUTER_API_KEY not configured")
  else
    task_catch
      (object <- task_call (CallGenerateObject "google/gemini-2.5-flash")
                   (generateObject_review w block language) ;;
       let contentLength := Z.of_nat (String.length (content block)) in
       let '(start, end_) := highlight contentLength object in
       task_ret {| blockIndex := blockIndex;
                   severity := o_severity object;
                   start := start;
                   end_ := end_;
                   comment := o_comment object |})%task
      (fun error =>
         task_throw (ErrorObj ("Failed to review block " +++ string_of_Z blockIndex
                               +++ ": " +++ message_or "Unknown error" error))).

Definition severityName (s : Severity) : string :=
  match s with
  | safe => "safe" | medium => "medium" | elevated => "elevated" | high => "high"
  end.

Definition severityOrder (s : Severity) : Z :=
  match s with
  | high => 3 | elevated => 2 | medium => 1 | safe => 0
  end.

Definition count_severity (s : Severity) (reviews : list ContractBlockReview) : Z :=
  len (filter (fun r => Severity_eqb (severity r) s) reviews).

(** The top 3 most severe issues. *)
Definition highSeverityIssues (reviews : list ContractBlockReview)
  : list ContractBlockReview :=
  slice
    (sort_by (fun a b => severityOrder (severity b) - severityOrder (severity a))
       (filter (fun r => Severity_eqb (severity r) high
                         || Severity_eqb (severity r) elevated) reviews))
    0 3.

Definition issuesContext (issues : list ContractBlockReview)
    (blocks : list ContractBlock) : string :=
  join LF
    (map_indexed
       (fun review idx =>
          let block := at_index blocks (blockIndex review) in
          LF +++ "Issue " +++ string_of_Z (idx + 1) +++ " (Severity: "
          +++ severityName (severity review) +++ "):" +++ LF
          +++ "Section: " +++ or_else (option_map paragraph block) "Unknown" +++ LF
          +++ "Problem: " +++ comment review +++ LF
          +++ "Affected Text: " +++ QUOTE
          +++ or_else (option_map (fun b => substring (content b) (start review)
                                              (end_ review)) block) "N/A"
          +++ QUOTE +++ LF)
       issues).

Definition topConcerns_of (keyIssues : list KeyIssue)
    (issues : list ContractBlockReview) (blocks : list ContractBlock)
  : list TopConcern :=
  map (fun issue =>
         let matchedIssue := at_index issues (issueIndex issue) in
         let block := match matchedIssue with
                      | Some m => at_index blocks (blockIndex m)
                      | None => None
                      end in
         {| tc_shortSummary := shortSummary issue;
            tc_anchorId := or_else (match block with
                                    | Some b => anchorId b
                                    | None => None
                                    end) "";
            tc_severity := match matchedIssue with
                           | Some m => severity m
                           | None => medium
                           end |})
      keyIssues.

Definition generateDocumentSummary (w : World) (reviews : list ContractBlockReview)
    (blocks : list ContractBlock) (language : string) : Task DocumentSummary :=
  if falsy (OPENROUTER_API_KEY w)
  then task_throw (ErrorObj "OPENROUTER_API_KEY not configured")
  else
    task_catch
      (let severityCounts :=
         (count_severity safe reviews, count_severity medium reviews,
          count_severity elevated reviews, count_severity high reviews) in
       let issues := highSeverityIssues reviews in
       object <- task_call (CallGenerateObject "openai/gpt-5-mini")
                   (generateObject_summary w (len reviews) severityCounts
                      (issuesContext issues blocks) language) ;;
       task_ret {| s_title := o_title object;
                   s_overallEvaluation := o_overallEvaluation object;
                   s_summary := o_summary object;
                   topConcerns := topConcerns_of (keyIssues object) issues blocks |})%task
      (fun error =>
         task_throw (ErrorObj ("Failed to generate document summary: "
                               +++ message_or "Unknown error" error))).

(** The fields a [db.update(research).set({...})] may change. *)
Definition with_status (v : string) (j : Research) : Research :=
  {| status := v; currentStage := currentStage j; progress := progress j;
     results := results j; summary := summary j; title := title j;
     errorMessage := errorMessage j |}.

Definition with_currentStage (v : string) (j : Research) : Research :=
  {| status := status j; currentStage := Some v; progress := progress j;
     results := results j; summary := summary j; title := title j;
     errorMessage := errorMessage j |}.

Definition with_progress (v : Z) (j : Research) : Research :=
  {| status := status j; currentStage := currentStage j; progress := v;
     results := results j; summary := summary j; title := title j;
     errorMessage := errorMessage j |}.

Definition with_results (v : Results) (j : Research) : Research :=
  {| status := status j; currentStage := currentStage j; progress := progress j;
     results := Some v; summary := summary j; title := title j;
     errorMessage := errorMessage j |}.

Definition with_summary (v : option DocumentSummary) (j : Research) : Research :=
  {| status := status j; currentStage := currentStage j; progress := progress j;
     results := results j; summary := v; title := title j;
     errorMessage := errorMessage j |}.

Definition with_title (v : option string) (j : Research) : Research :=
  {| status := status j; currentStage := currentStage j; progress := progress j;
     results := results j; summary := summary j; title := v;
     errorMessage := errorMessage j |}.

Definition with_errorMessage (v : string) (j : Research) : Research :=
  {| status := status j; currentStage := currentStage j; progress := progress j;
     results := results j; summary := summary j; title := title j;
     errorMessage := Some v |}.

Record PageResult : Type := {
  pr_pageNumber : Z;
  pr_blocks : list ContractBlock
}.

Definition PAGES_PER_BATCH : Z := 5.

(** [Array.from({ length: totalPages }, (_, i) => i + 1)]. *)
Definition pages_of (totalPages : Z) : list Z :=
  map (fun i => Z.of_nat i + 1) (seq 0 (Z.to_nat totalPages)).

(** One parsed page, the body of the step [parse-page-N]. *)
Definition parsePageStep (w : World) (contractKey : string) (pageNumber : Z)
    (language : string) : Task PageResult :=
  (pdfBase64 <- getObject w contractKey ;;
   blocks <- parsePdfPage w pdfBase64 pageNumber language ;;
   task_ret {| pr_pageNumber := pageNumber; pr_blocks := blocks |})%task.

(** The end of a parsing wave:
<<
    batchResults.sort((a, b) => a.pageNumber - b.pageNumber);
    for (const result of batchResults) { allBlocks.push(...result.blocks); }
>> *)
Definition addBatchResults (allBlocks : list ContractBlock)
    (batchResults : list PageResult) : list ContractBlock :=
  allBlocks ++
  flat_map pr_blocks
    (sort_by (fun a b => pr_pageNumber a - pr_pageNumber b) batchResults).

Definition parseStage (w : World) (params : PdfParserParams) (language : string)
  : W Research (list ContractBlock) :=
  let pageBatches := chunks_of (pages_of (totalPages params)) PAGES_PER_BATCH in
  for_indexed pageBatches 0 []
    (fun batchIndex pageBatch allBlocks =>
       batchResults <-
         Promise_all
           (map (fun pageNumber =>
                   step_do ("parse-page-" +++ string_of_Z pageNumber)
                     (run_task (parsePageStep w (contractKey params) pageNumber language)))
              pageBatch) ;;
       let allBlocks := addBatchResults allBlocks batchResults in
       step_do ("update-progress-parsing-batch-" +++ string_of_Z batchIndex)
         (let parsingProgress :=
            Math_round_div (50 * (batchIndex + 1)) (len pageBatches) in
          db_update (fun j => with_progress parsingProgress
                                (with_currentStage "parsing" j))) ;;;
       ret allBlocks)%wf.

Definition reviewStage (w : World) (allBlocks : list ContractBlock) (language : string)
  : W Research (list ContractBlockReview) :=
  if 0 <? len allBlocks then
    let batches := chunks_of allBlocks 30 in
    for_indexed batches 0 []
      (fun batchIndex batch allReviews =>
         batchReviews <-
           step_do ("review-batch-" +++ string_of_Z batchIndex)
             (run_task
                (task_all
                   (map_indexed
                      (fun block idx =>
                         let globalIndex := batchIndex * 30 + idx in
                         reviewBlock w block globalIndex language)
                      batch))) ;;
         let allReviews := allReviews ++ batchReviews in
         step_do ("update-progress-batch-" +++ string_of_Z batchIndex)
           (let reviewProgress :=
              50 + Math_round_div (50 * (batchIndex + 1)) (len batches) in
            db_update (fun j => with_progress reviewProgress
                                  (with_currentStage "reviewing" j))) ;;;
         ret allReviews)%wf
  else ret [].

Definition summaryStage (w : World) (allReviews : list ContractBlockReview)
    (allBlocks : list ContractBlock) (language : string)
  : W Research (option DocumentSummary) :=
  if 0 <? len allReviews then
    (step_do "update-status-summarizing"
       (db_update (with_currentStage "summarizing")) ;;;
     documentSummary <-
       step_do "generate-summary"
         (run_task (generateDocumentSummary w allReviews allBlocks language)) ;;
     ret (Some documentSummary))%wf
  else ret None.

(** [summaryObj.title || null] on the parsed summary. *)
Definition extractedTitle (documentSummary : option DocumentSummary) : option string :=
  match documentSummary with
  | Some summaryObj =>
      match s_title summaryObj with
      | "" => None
      | t => Some t
      end
  | None => None
  end.

Definition finalizeResults (params : PdfParserParams)
    (allBlocks : list ContractBlock) (allReviews : list ContractBlockReview)
    (documentSummary : option DocumentSummary) : W Research RunResult :=
  step_do "finalize-results"
    (let results := {| r_totalPages := totalPages params;
                       totalBlocks := len allBlocks;
                       blocks := allBlocks;
                       reviews := allReviews |} in
     db_update (fun j =>
                  with_title (extractedTitle documentSummary)
                    (with_summary documentSummary
                       (with_results results
                          (with_progress 100
                             (with_currentStage "completed"
                                (with_status "completed" j)))))) ;;;
     ret (RunCompleted (researchId params) results))%wf.

(** The body of the [try] of [run]. *)
Definition runStages (w : World) (params : PdfParserParams) (language : string)
  : W Research RunResult :=
  (step_do "update-status-parsing"
     (db_update (fun j => with_progress 0
                            (with_currentStage "parsing"
                               (with_status "in_progress" j)))) ;;;
   allBlocks <- parseStage w params language ;;
   step_do "update-status-reviewing"
     (db_update (fun j => with_progress 50 (with_currentStage "reviewing" j))) ;;;
   allReviews <- reviewStage w allBlocks language ;;
   documentSummary <- summaryStage w allReviews allBlocks language ;;
   finalizeResults params allBlocks allReviews documentSummary)%wf.

(** The [catch] of [run]. *)
Definition markWorkflowFailed (params : PdfParserParams) (error : Thrown)
  : W Research RunResult :=
  step_do "mark-workflow-failed"
    (let errorMessage := message_or "Unknown error occurred" error in
     db_update (fun j => with_errorMessage errorMessage
                           (with_currentStage "error"
                              (with_status "failed" j))) ;;;
     ret (RunFailed (researchId params) errorMessage))%wf.

Definition run (w : World) (params : PdfParserParams) : W Research RunResult :=
  let language := getLanguageName (match locale params with
                                   | Some l => l
                                   | None => "en"
                                   end) in
  try_catch (runStages w params language) (markWorkflowFailed params).

(** The blocks of the Parse stage when the results of the waves reach the
    end of their wave in the orders [waves] gives. *)
Definition aggregateWaves (waves : list (list PageResult)) : list ContractBlock :=
  fold_left addBatchResults waves [].

(** The result of a page whose extraction gave [paragraphs]. *)
Definition pageResult (extracted : Z -> list Paragraph) (pageNumber : Z) : PageResult :=
  {| pr_pageNumber := pageNumber;
     pr_blocks := tagBlocks pageNumber (extracted pageNumber) |}.

(** What holds of every row the workflow writes: the progress is a
    percentage, and a completed row has progress 100. *)
Definition snapshot_ok (j : Research) : Prop :=
  0 <= progress j <= 100 /\ (status j = "completed" -> progress j = 100).

(** A job in progress with its progress at most [bound]. *)
Definition in_progress_upto (bound : Z) (s : St Research) : Prop :=
  hist_ok progress snapshot_ok s /\ status (job s) = "in_progress" /\
  0 <= progress (job s) <= bound.

(** Sample worlds and inputs for the examples. *)
Definition sampleParams : PdfParserParams :=
  {| contractKey := "contracts/sample.pdf"; totalPages := 1;
     researchId := "research-1"; locale := None |}.

Definition sampleBlock : ContractBlock :=
  {| paragraph := "Section 1"; content := "Payment is due within 30 days.";
     pageNumber := 1; anchorId := Some "p1-0" |}.

(** Every service answers: one paragraph a page, a [medium] review. *)
Definition sampleWorld : World :=
  {| OPENROUTER_API_KEY := Some "sk-or-v1-sample";
     research_assets_get :=
       fun _ => Ok (Some {| arrayBuffer := Ok (list_ascii_of_string "%PDF-1.7") |});
     generateObject_paragraphs :=
       fun _ page _ =>
         Ok [ {| p_paragraph := "Section " +++ string_of_Z page;
                 p_content := "Payment is due within 30 days." |} ];
     generateObject_review :=
       fun _ _ => Ok {| o_severity := medium; o_start := 0; o_end := 7;
                        o_comment := "The payment term is short." |};
     generateObject_summary :=
       fun _ _ _ _ => Ok {| o_title := "Service Agreement";
                            o_overallEvaluation := "medium";
                            o_summary := "One minor concern.";
                            keyIssues := [] |} |}.

(** The same world, with a structured output pass of the review that
    fails. *)
Definition failingReviewWorld : World :=
  {| OPENROUTER_API_KEY := OPENROUTER_API_KEY sampleWorld;
     research_assets_get := research_assets_get sampleWorld;
     generateObject_paragraphs := generateObject_paragraphs sampleWorld;
     generateObject_review := fun _ _ => Throw (ErrorObj "No object generated");
     generateObject_summary := generateObject_summary sampleWorld |}.

(** The sample world, with a bucket that holds no object. *)
Definition emptyBucketWorld : World :=
  {| OPENROUTER_API_KEY := OPENROUTER_API_KEY sampleWorld;
     research_assets_get := fun _ => Ok None;
     generateObject_paragraphs := generateObject_paragraphs sampleWorld;
     generateObject_review := generateObject_review sampleWorld;
     generateObject_summary := generateObject_summary sampleWorld |}.

(** What the extraction gives for a page in the world [w]; no paragraph
    when the document or the page cannot be read. *)
Definition extractedBy (w : World) (contractKey language : string) (pageNumber : Z)
  : list Paragraph :=
  match snd (getObject w contractKey) with
  | Ok pdfBase64 =>
      match generateObject_paragraphs w pdfBase64 pageNumber language with
      | Ok paragraphs => paragraphs
      | Throw _ => []
      end
  | Throw _ => []
  end.

(** The same world, with no API key of the model in the environment. *)
Definition noKeyWorld : World :=
  {| OPENROUTER_API_KEY := None;
     research_assets_get := research_assets_get sampleWorld;
     generateObject_paragraphs := generateObject_paragraphs sampleWorld;
     generateObject_review := generateObject_review sampleWorld;
     generateObject_summary := generateObject_summary sampleWorld |}.

(** ** The workflow on a database that may reject

    The definitions above take every [db.update] to succeed.  The ones
    below are the same code on a database [db] whose writes may reject and
    whose binding may be missing: [getDb] runs before the [try], and every
    [db.update], also the one in the [catch], is awaited unguarded.  On
    [reliable] they are the definitions above. *)

Definition parseStageOn (db : Database Research)
    (w : World) (params : PdfParserParams) (language : string)
  : W Research (list ContractBlock) :=
  let pageBatches := chunks_of (pages_of (totalPages params)) PAGES_PER_BATCH in
  for_indexed pageBatches 0 []
    (fun batchIndex pageBatch allBlocks =>
       batchResults <-
         Promise_all
           (map (fun pageNumber =>
                   step_do ("parse-page-" +++ string_of_Z pageNumber)
                     (run_task (parsePageStep w (contractKey params) pageNumber language)))
              pageBatch) ;;
       let allBlocks := addBatchResults allBlocks batchResults in
       step_do ("update-progress-parsing-batch-" +++ string_of_Z batchIndex)
         (let parsingProgress :=
            Math_round_div (50 * (batchIndex + 1)) (len pageBatches) in
          db_update_on db (fun j => with_progress parsingProgress
                                (with_currentStage "parsing" j))) ;;;
       ret allBlocks)%wf.

Definition reviewStageOn (db : Database Research)
    (w : World) (allBlocks : list ContractBlock) (language : string)
  : W Research (list ContractBlockReview) :=
  if 0 <? len allBlocks then
    let batches := chunks_of allBlocks 30 in
    for_indexed batches 0 []
      (fun batchIndex batch allReviews =>
         batchReviews <-
           step_do ("review-batch-" +++ string_of_Z batchIndex)
             (run_task
                (task_all
                   (map_indexed
                      (fun block idx =>
                         let globalIndex := batchIndex * 30 + idx in
                         reviewBlock w block globalIndex language)
                      batch))) ;;
         let allReviews := allReviews ++ batchReviews in
         step_do ("update-progress-batch-" +++ string_of_Z batchIndex)
           (let reviewProgress :=
              50 + Math_round_div (50 * (batchIndex + 1)) (len batches) in
            db_update_on db (fun j => with_progress reviewProgress
                                  (with_currentStage "reviewing" j))) ;;;
         ret allReviews)%wf
  else ret [].

Definition summaryStageOn (db : Database Research)
    (w : World) (allReviews : list ContractBlockReview)
    (allBlocks : list ContractBlock) (language : string)
  : W Research (option DocumentSummary) :=
  if 0 <? len allReviews then
    (step_do "update-status-summarizing"
       (db_update_on db (with_currentStage "summarizing")) ;;;
     documentSummary <-
       step_do "generate-summary"
         (run_task (generateDocumentSummary w allReviews allBlocks language)) ;;
     ret (Some documentSummary))%wf
  else ret None.

Definition finalizeResultsOn (db : Database Research)
    (params : PdfParserParams)
    (allBlocks : list ContractBlock) (allReviews : list ContractBlockReview)
    (documentSummary : option DocumentSummary) : W Research RunResult :=
  step_do "finalize-results"
    (let results := {| r_totalPages := totalPages params;
                       totalBlocks := len allBlocks;
                       blocks := allBlocks;
                       reviews := allReviews |} in
     db_update_on db (fun j =>
                  with_title (extractedTitle documentSummary)
                    (with_summary documentSummary
                       (with_results results
                          (with_progress 100
                             (with_currentStage "completed"
                                (with_status "completed" j)))))) ;;;
     ret (RunCompleted (researchId params) results))%wf.

Definition runStagesOn (db : Database Research)
    (w : World) (params : PdfParserParams) (language : string)
  : W Research RunResult :=
  (step_do "update-status-parsing"
     (db_update_on db (fun j => with_progress 0
                            (with_currentStage "parsing"
                               (with_status "in_progress" j)))) ;;;
   allBlocks <- parseStageOn db w params language ;;
   step_do "update-status-reviewing"
     (db_update_on db (fun j => with_progress 50 (with_currentStage "reviewing" j))) ;;;
   allReviews <- reviewStageOn db w allBlocks language ;;
   documentSummary <- summaryStageOn db w allReviews allBlocks language ;;
   finalizeResultsOn db params allBlocks allReviews documentSummary)%wf.

Definition markWorkflowFailedOn (db : Database Research)
    (params : PdfParserParams) (error : Thrown)
  : W Research RunResult :=
  step_do "mark-workflow-failed"
    (let errorMessage := message_or "Unknown error occurred" error in
     db_update_on db (fun j => with_errorMessage errorMessage
                           (with_currentStage "error"
                              (with_status "failed" j))) ;;;
     ret (RunFailed (researchId params) errorMessage))%wf.

Definition runOn (db : Database Research)
    (w : World) (params : PdfParserParams) : W Research RunResult :=
  let language := getLanguageName (match locale params with
                                   | Some l => l
                                   | None => "en"
                                   end) in
  (getDb db ;;;
   try_catch (runStagesOn db w params language) (markWorkflowFailedOn db params))%wf.

End PdfParserWorkflow.

(** * The legal compliance workflow ([src/workflows/legal-compliance.ts]) *)

Module LegalComplianceWorkflow.

Record ContractBlock : Type := {
  paragraph : string;
  content : string;
  anchorId : string
}.

Record LegalComplianceParams : Type := {
  contractBlocks : list ContractBlock;
  complianceId : string;
  researchId : string;
  locale : option string
}.

Inductive Source : Type := BGB | HGB.

Definition Source_eqb (a b : Source) : bool :=
  match a, b with
  | BGB, BGB | HGB, HGB => true
  | _, _ => false
  end.

Definition sourceName (s : Source) : string :=
  match s with BGB => "BGB" | HGB => "HGB" end.

Record LegalArticle : Type := {
  type_ : string;
  id_ : string;
  name : string;
  title : option string;
  body : option string;
  source : Source
}.

Record RelevantArticle : Type := {
  articleName : string;
  articleTitle : string;
  ra_source : Source;
  reason : string
}.

(** One element of [ArticleIdentificationResult["blockResults"]]. *)
Record BlockResult : Type := {
  contractBlockIndex : Z;
  hasViolation : bool;
  relevantArticles : list RelevantArticle;
  needsDeepReview : bool
}.

Inductive Severity : Type := safe | minor | moderate | critical.

Definition Severity_eqb (a b : Severity) : bool :=
  match a, b with
  | safe, safe | minor, minor | moderate, moderate | critical, critical => true
  | _, _ => false
  end.

Record DeepAnalysisResult : Type := {
  da_contractBlockIndex : Z;
  da_articleName : string;
  da_articleTitle : string;
  da_source : Source;
  severity : Severity;
  violationDetails : string;
  recommendation : string
}.

(** The object of the structuring pass of Phase 2. *)
Record AnalysisObject : Type := {
  o_severity : Severity;
  o_violationDetails : string;
  o_recommendation : string
}.

(** The two switches of the legal code sources.  The source fixes them as
    module constants ([sourceConfig]); they are a parameter here so that
    the other settings can be stated. *)
Record Config : Type := {
  ENABLE_BGB : bool;
  ENABLE_HGB : bool
}.

Definition sourceConfig : Config := {| ENABLE_BGB := false; ENABLE_HGB := true |}.

Definition TOKEN_LIMIT : Z := 200000.
Definition PHASE1_CONTRACT_TOKENS : Z := 40000.
Definition PHASE1_LEGAL_TOKENS : Z := 160000.
Definition MAX_PARALLEL_PHASE1 : Z := 50.
Definition MAX_PARALLEL_PHASE2 : Z := 50.
Definition CONTRACT_BLOCKS_PER_BATCH : Z := 5.

Record Summary : Type := {
  totalBlocks : Z;
  blocksWithViolations : Z;
  criticalViolations : Z;
  moderateViolations : Z;
  minorViolations : Z
}.

Record Results : Type := {
  phase1 : list BlockResult;
  phase2 : list DeepAnalysisResult;
  summary : Summary
}.

(** The row of the [legal_compliance] table, without its identity and time
    stamps. *)
Record Compliance : Type := {
  status : string;
  currentStage : option string;
  progress : Z;
  results : option Results;
  errorMessage : option string
}.

Definition pendingCompliance : Compliance :=
  {| status := "pending"; currentStage := None; progress := 0;
     results := None; errorMessage := None |}.

(** An entry of the [contents] of a legal code file. *)
Record RawItem : Type := {
  raw_type : string;
  raw_id : string;
  raw_name : string;
  raw_title : option string;
  raw_body : option string
}.

(** An object of the bucket read with [.json()]: the reading may throw
    (also when [data] is missing); [None] is a file without [contents]. *)
Record R2Object : Type := { json_contents : Result (option (list RawItem)) }.

Record World : Type := {
  OPENROUTER_API_KEY : option string;
  research_assets_get : string -> Result (option R2Object);
  (* free text pass of Phase 1: contract blocks text, sources text, legal
     context, language *)
  generateText_identify : string -> string -> string -> string -> Result string;
  (* structuring pass of Phase 1: the text, the number of blocks, the first
     block index *)
  generateObject_identify : string -> Z -> Z -> Result (list BlockResult);
  (* free text pass of Phase 2: the block, the identified article, the
     article body, language *)
  generateText_analysis :
    ContractBlock -> RelevantArticle -> string -> string -> Result string;
  generateObject_analysis : string -> Result AnalysisObject
}.

Inductive RunResult : Type :=
| RunCompleted (complianceId researchId : string) (results : Results)
| RunFailed (complianceId researchId : string) (error : string).

(** The loading of one legal code in [loadLegalCodes]; the source writes
    this block once for BGB and once for HGB. *)
Definition loadCode (w : World) (key notFound : string) (src : Source)
  : Task (list LegalArticle) :=
  (object <- task_call (CallBucketGet key) (research_assets_get w key) ;;
   match object with
   | None => task_throw (ErrorObj notFound)
   | Some object =>
       contents <- ([], json_contents object) ;;
       let contents := match contents with Some c => c | None => [] end in
       task_ret
         (map (fun item => {| type_ := raw_type item; id_ := raw_id item;
                              name := raw_name item; title := raw_title item;
                              body := raw_body item; source := src |})
            (filter (fun item => String.eqb (raw_type item) "article"
                                 && negb (falsy (raw_body item))) contents))
   end)%task.

Definition loadLegalCodes (cfg : Config) (w : World) : Task (list LegalArticle) :=
  task_catch
    (bgbArticles <- (if ENABLE_BGB cfg
                     then loadCode w "bgb.json" "BGB file not found in R2" BGB
                     else task_ret []) ;;
     hgbArticles <- (if ENABLE_HGB cfg
                     then loadCode w "hgb.json" "HGB file not found in R2" HGB
                     else task_ret []) ;;
     let allArticles := bgbArticles ++ hgbArticles in
     if len allArticles =? 0
     then task_throw (ErrorObj
            "No legal codes are enabled. Please enable at least one of BGB or HGB.")
     else task_ret allArticles)%task
    (fun error =>
       task_throw (ErrorObj ("Failed to load legal codes: "
                             +++ message_or "Unknown error" error))).

Definition approximateTokenCount (text : string) : Z :=
  Math_ceil_div (Z.of_nat (String.length text)) 4.

(** The cost of an article in [batchByTokenLimit]. *)
Definition articleTokens (article : LegalArticle) : Z :=
  let articleText := name article +++ " " +++ or_else (title article) ""
                     +++ " " +++ or_else (body article) "" in
  approximateTokenCount articleText.

Fixpoint batchByTokenLimit_loop (articles : list LegalArticle) (tokenLimit : Z)
    (batches : list (list LegalArticle)) (currentBatch : list LegalArticle)
    (currentTokens : Z) : list (list LegalArticle) * list LegalArticle :=
  match articles with
  | [] => (batches, currentBatch)
  | article :: rest =>
      let articleTokens := articleTokens article in
      if (currentTokens + articleTokens >? tokenLimit) && (len currentBatch >? 0)
      then batchByTokenLimit_loop rest tokenLimit
             (batches ++ [currentBatch]) [article] articleTokens
      else batchByTokenLimit_loop rest tokenLimit
             batches (currentBatch ++ [article]) (currentTokens + articleTokens)
  end.

Definition batchByTokenLimit (articles : list LegalArticle) (tokenLimit : Z)
  : list (list LegalArticle) :=
  let '(batches, currentBatch) :=
    batchByTokenLimit_loop articles tokenLimit [] [] 0 in
  if len currentBatch >? 0 then batches ++ [currentBatch] else batches.

(** The text of an article in the legal context of Phase 1. *)
Definition strippedBody (article : LegalArticle) : string :=
  or_else (option_map (fun b => trim (replaceTags b)) (body article)) "".

Definition legalContextText (article : LegalArticle) : string :=
  "[" +++ sourceName (source article) +++ "] " +++ name article +++ " - "
  +++ or_else (title article) "Untitled" +++ ":" +++ LF +++ strippedBody article.

Definition legalContextTokens (article : LegalArticle) : Z :=
  approximateTokenCount (legalContextText article).

(** The selection loops of [identifyRelevantArticlesBatch].  The inner
    loop ends at its [break] or at the end of the batch; the outer loop
    goes on with the next batch unless [currentLegalTokens] has reached
    the budget. *)
Fixpoint selectFromBatch (batch : list LegalArticle)
    (selectedArticles : list LegalArticle) (currentLegalTokens : Z)
  : list LegalArticle * Z :=
  match batch with
  | [] => (selectedArticles, currentLegalTokens)
  | article :: rest =>
      let articleTokens := legalContextTokens article in
      if currentLegalTokens + articleTokens >? PHASE1_LEGAL_TOKENS
      then (selectedArticles, currentLegalTokens)
      else selectFromBatch rest (selectedArticles ++ [article])
             (currentLegalTokens + articleTokens)
  end.

Fixpoint selectFromBatches (legalBatches : list (list LegalArticle))
    (selectedArticles : list LegalArticle) (currentLegalTokens : Z)
  : list LegalArticle * Z :=
  match legalBatches with
  | [] => (selectedArticles, currentLegalTokens)
  | batch :: rest =>
      let '(selectedArticles, currentLegalTokens) :=
        selectFromBatch batch selectedArticles currentLegalTokens in
      if currentLegalTokens >=? PHASE1_LEGAL_TOKENS
      then (selectedArticles, currentLegalTokens)
      else selectFromBatches rest selectedArticles currentLegalTokens
  end.

Definition selectArticles (legalBatches : list (list LegalArticle))
  : list LegalArticle :=
  fst (selectFromBatches legalBatches [] 0).

(** [Array.from(new Set(sources))]: the first occurrence of each source,
    in order. *)
Fixpoint dedupSources (seen sources : list Source) : list Source :=
  match sources with
  | [] => []
  | s :: rest =>
      if existsb (Source_eqb s) seen then dedupSources seen rest
      else s :: dedupSources (seen ++ [s]) rest
  end.

Definition contractBlocksText (contractBlocks : list ContractBlock)
    (startBlockIndex : Z) : string :=
  join (LF +++ LF)
    (map_indexed
       (fun block idx =>
          let blockNum := startBlockIndex + idx in
          "**Block " +++ string_of_Z blockNum +++ ":**" +++ LF
          +++ "Section: " +++ paragraph block +++ LF
          +++ "Content: " +++ content block)
       contractBlocks).

(** The legal context of the prompt and the names of its sources:
<<
    const legalContext = selectedArticles.map(...).join("\n\n");
    const availableSources = Array.from(new Set(selectedArticles.map(a => a.source)));
    const sourcesText = availableSources.join(" and ");
>> *)
Definition legalContextOf (selectedArticles : list LegalArticle) : string :=
  join (LF +++ LF) (map legalContextText selectedArticles).

Definition sourcesTextOf (selectedArticles : list LegalArticle) : string :=
  let availableSources := dedupSources [] (map source selectedArticles) in
  join " and " (map sourceName availableSources).

(** The result of a batch whose structuring pass failed. *)
Definition emptyBlockResults (contractBlocks : list ContractBlock)
    (startBlockIndex : Z) : list BlockResult :=
  map_indexed
    (fun _ idx => {| contractBlockIndex := startBlockIndex + idx;
                     hasViolation := false;
                     relevantArticles := [];
                     needsDeepReview := false |})
    contractBlocks.

Definition identifyRelevantArticlesBatch (w : World)
    (contractBlocks : list ContractBlock) (startBlockIndex : Z)
    (legalBatches : list (list LegalArticle)) (language : string)
  : Task (list BlockResult) :=
  if falsy (OPENROUTER_API_KEY w)
  then task_throw (ErrorObj "OPENROUTER_API_KEY not configured")
  else
    task_catch
      (let contractBlocksText := contractBlocksText contractBlocks startBlockIndex in
       let selectedArticles := selectArticles legalBatches in
       let legalContext := legalContextOf selectedArticles in
       let sourcesText := sourcesTextOf selectedArticles in
       textResult <- task_call (CallGenerateText "google/gemini-2.5-flash-lite")
                       (generateText_identify w contractBlocksText sourcesText
                          legalContext language) ;;
       task_catch
         (task_call (CallGenerateObject "google/gemini-2.5-flash-lite")
            (generateObject_identify w textResult (len contractBlocks)
               startBlockIndex))
         (fun parseError =>
            task_ret (emptyBlockResults contractBlocks startBlockIndex)))%task
      (fun error =>
         task_throw
           (ErrorObj ("Failed to identify articles for batch starting at "
                      +++ string_of_Z startBlockIndex +++ ": "
                      +++ message_or "Unknown error" error))).

(** [performDeepAnalysis]; the block is [undefined] when the block index
    of Phase 1 is outside the contract, and reading its [paragraph] then
    throws a [TypeError]. *)
Definition performDeepAnalysis (w : World) (contractBlock : option ContractBlock)
    (blockIndex : Z) (identifiedArticle : RelevantArticle)
    (allLegalArticles : list LegalArticle) (language : string)
  : Task (option DeepAnalysisResult) :=
  if falsy (OPENROUTER_API_KEY w)
  then task_throw (ErrorObj "OPENROUTER_API_KEY not configured")
  else
    task_catch
      (let fullArticle :=
         find (fun a => String.eqb (name a) (articleName identifiedArticle)
                        && Source_eqb (source a) (ra_source identifiedArticle))
           allLegalArticles in
       match fullArticle with
       | None => task_ret None
       | Some fullArticle =>
           let articleBody := strippedBody fullArticle in
           match contractBlock with
           | None =>
               task_throw (ErrorObj
                 "Cannot read properties of undefined (reading 'paragraph')")
           | Some contractBlock =>
               textResult <-
                 task_call (CallGenerateText "google/gemini-2.5-flash-lite")
                   (generateText_analysis w contractBlock identifiedArticle
                      articleBody language) ;;
               result <-
                 task_catch
                   (task_call (CallGenerateObject "google/gemini-2.5-flash-lite")
                      (generateObject_analysis w textResult))
                   (fun parseError =>
                      task_throw
                        (ErrorObj ("Failed to structure deep analysis response: "
                                   +++ message_or "Unknown error" parseError))) ;;
               task_ret
                 (Some {| da_contractBlockIndex := blockIndex;
                          da_articleName := articleName identifiedArticle;
                          da_articleTitle := articleTitle identifiedArticle;
                          da_source := ra_source identifiedArticle;
                          severity := o_severity result;
                          violationDetails := o_violationDetails result;
                          recommendation := o_recommendation result |})
           end
       end)%task
      (fun error =>
         task_throw (ErrorObj ("Failed deep analysis for block "
                               +++ string_of_Z blockIndex +++ ": "
                               +++ message_or "Unknown error" error))).

(** The fields a [db.update(legalCompliance).set({...})] may change. *)
Definition with_status (v : string) (j : Compliance) : Compliance :=
  {| status := v; currentStage := currentStage j; progress := progress j;
     results := results j; errorMessage := errorMessage j |}.

Definition with_currentStage (v : string) (j : Compliance) : Compliance :=
  {| status := status j; currentStage := Some v; progress := progress j;
     results := results j; errorMessage := errorMessage j |}.

Definition with_progress (v : Z) (j : Compliance) : Compliance :=
  {| status := status j; currentStage := currentStage j; progress := v;
     results := results j; errorMessage := errorMessage j |}.

Definition with_results (v : Results) (j : Compliance) : Compliance :=
  {| status := status j; currentStage := currentStage j; progress := progress j;
     results := Some v; errorMessage := errorMessage j |}.

Definition with_errorMessage (v : string) (j : Compliance) : Compliance :=
  {| status := status j; currentStage := currentStage j; progress := progress j;
     results := results j; errorMessage := Some v |}.

(** The body of the step [phase1-batch-N]. *)
Definition phase1BatchStep (cfg : Config) (w : World) (batch : list ContractBlock)
    (startBlockIndex : Z) (language : string) : Task (list BlockResult) :=
  (legalArticles <- loadLegalCodes cfg w ;;
   let legalBatches := batchByTokenLimit legalArticles TOKEN_LIMIT in
   identifyRelevantArticlesBatch w batch startBlockIndex legalBatches language)%task.

Definition phase1Stage (cfg : Config) (w : World) (params : LegalComplianceParams)
    (language : string) : W Compliance (list BlockResult) :=
  let contractBatches := chunks_of (contractBlocks params) CONTRACT_BLOCKS_PER_BATCH in
  let processingChunks :=
    chunks_of (map_indexed (fun batch batchIndex => (batch, batchIndex)) contractBatches)
      MAX_PARALLEL_PHASE1 in
  for_indexed processingChunks 0 []
    (fun chunkIndex chunk phase1Results =>
       chunkResults <-
         Promise_all
           (map (fun '(batch, batchIndex) =>
                   let startBlockIndex := batchIndex * CONTRACT_BLOCKS_PER_BATCH in
                   step_do ("phase1-batch-" +++ string_of_Z batchIndex)
                     (run_task (phase1BatchStep cfg w batch startBlockIndex language)))
              chunk) ;;
       let phase1Results := phase1Results ++ List.concat chunkResults in
       let progress :=
         10 + Math_round_div (40 * (chunkIndex + 1)) (len processingChunks) in
       step_do ("update-progress-phase1-" +++ string_of_Z chunkIndex)
         (db_update (with_progress progress)) ;;;
       ret phase1Results)%wf.

Record ReviewTask : Type := {
  t_blockIndex : Z;
  t_block : option ContractBlock;
  t_article : RelevantArticle
}.

Definition availableSources (cfg : Config) : list Source :=
  (if ENABLE_BGB cfg then [BGB] else []) ++ (if ENABLE_HGB cfg then [HGB] else []).

(** The derivation of the Phase 2 tasks: the two nested loops over the
    blocks that need a review and over their articles, with the tasks
    built so far and the count of skipped articles. *)
Definition addArticleTasks (cfg : Config) (result : BlockResult)
    (block : option ContractBlock) (acc : list ReviewTask * Z)
  : list ReviewTask * Z :=
  fold_left
    (fun '(reviewTasks, skippedArticles) article =>
       if negb (existsb (Source_eqb (ra_source article)) (availableSources cfg))
       then (reviewTasks, skippedArticles + 1)
       else (reviewTasks ++ [ {| t_blockIndex := contractBlockIndex result;
                                 t_block := block;
                                 t_article := article |} ],
             skippedArticles))
    (relevantArticles result) acc.

Definition deriveReviewTasks (cfg : Config) (contractBlocks : list ContractBlock)
    (blocksNeedingReview : list BlockResult) : list ReviewTask * Z :=
  fold_left
    (fun acc result =>
       let block := at_index contractBlocks (contractBlockIndex result) in
       addArticleTasks cfg result block acc)
    blocksNeedingReview ([], 0).

(** The body of the step [phase2-task-N]. *)
Definition phase2TaskStep (cfg : Config) (w : World) (task : ReviewTask)
    (language : string) : Task (option DeepAnalysisResult) :=
  (legalArticles <- loadLegalCodes cfg w ;;
   performDeepAnalysis w (t_block task) (t_blockIndex task) (t_article task)
     legalArticles language)%task.

(** [chunkResults.filter(result => result !== null)]. *)
Fixpoint validResults (chunkResults : list (option DeepAnalysisResult))
  : list DeepAnalysisResult :=
  match chunkResults with
  | [] => []
  | Some r :: rest => r :: validResults rest
  | None :: rest => validResults rest
  end.

Definition phase2Stage (cfg : Config) (w : World) (params : LegalComplianceParams)
    (phase1Results : list BlockResult) (language : string)
  : W Compliance (list DeepAnalysisResult) :=
  let blocksNeedingReview := filter needsDeepReview phase1Results in
  if len blocksNeedingReview >? 0 then
    let '(reviewTasks, skippedArticles) :=
      deriveReviewTasks cfg (contractBlocks params) blocksNeedingReview in
    let reviewChunks := chunks_of reviewTasks MAX_PARALLEL_PHASE2 in
    for_indexed reviewChunks 0 []
      (fun chunkIndex chunk phase2Results =>
         chunkResults <-
           Promise_all
             (map_indexed
                (fun task idx =>
                   let taskId := chunkIndex * MAX_PARALLEL_PHASE2 + idx in
                   step_do ("phase2-task-" +++ string_of_Z taskId)
                     (run_task (phase2TaskStep cfg w task language)))
                chunk) ;;
         let phase2Results := phase2Results ++ validResults chunkResults in
         let progress :=
           50 + Math_round_div (40 * (chunkIndex + 1)) (len reviewChunks) in
         step_do ("update-progress-phase2-" +++ string_of_Z chunkIndex)
           (db_update (with_progress progress)) ;;;
         ret phase2Results)%wf
  else ret [].

Definition summarize (contractBlocks : list ContractBlock)
    (phase1Results : list BlockResult) (phase2Results : list DeepAnalysisResult)
  : Summary :=
  {| totalBlocks := len contractBlocks;
     blocksWithViolations := len (filter hasViolation phase1Results);
     criticalViolations :=
       len (filter (fun r => Severity_eqb (severity r) critical) phase2Results);
     moderateViolations :=
       len (filter (fun r => Severity_eqb (severity r) moderate) phase2Results);
     minorViolations :=
       len (filter (fun r => Severity_eqb (severity r) minor) phase2Results) |}.

Definition finalizeComplianceResults (params : LegalComplianceParams)
    (phase1Results : list BlockResult) (phase2Results : list DeepAnalysisResult)
  : W Compliance RunResult :=
  step_do "finalize-compliance-results"
    (let results := {| phase1 := phase1Results;
                       phase2 := phase2Results;
                       summary := summarize (contractBlocks params)
                                    phase1Results phase2Results |} in
     db_update (fun j => with_results results
                           (with_progress 100
                              (with_currentStage "compliance_completed"
                                 (with_status "completed" j)))) ;;;
     ret (RunCompleted (complianceId params) (researchId params) results))%wf.

(** The body of the [try] of [run]. *)
Definition runStages (cfg : Config) (w : World) (params : LegalComplianceParams)
    (language : string) : W Compliance RunResult :=
  (step_do "update-status-starting"
     (db_update (fun j => with_progress 0
                            (with_currentStage "compliance_check"
                               (with_status "in_progress" j)))) ;;;
   step_do "update-status-phase1"
     (db_update (fun j => with_progress 10
                            (with_currentStage "identifying_articles" j))) ;;;
   phase1Results <- phase1Stage cfg w params language ;;
   step_do "update-status-phase2"
     (db_update (fun j => with_progress 50 (with_currentStage "deep_analysis" j))) ;;;
   phase2Results <- phase2Stage cfg w params phase1Results language ;;
   finalizeComplianceResults params phase1Results phase2Results)%wf.

(** The [catch] of [run]. *)
Definition markComplianceFailed (params : LegalComplianceParams) (error : Thrown)
  : W Compliance RunResult :=
  step_do "mark-compliance-failed"
    (let errorMessage := message_or "Unknown error occurred" error in
     db_update (fun j => with_errorMessage errorMessage
                           (with_currentStage "error"
                              (with_status "failed" j))) ;;;
     ret (RunFailed (complianceId params) (researchId params) errorMessage))%wf.

Definition run (cfg : Config) (w : World) (params : LegalComplianceParams)
  : W Compliance RunResult :=
  let language := getLanguageName (match locale params with
                                   | Some l => l
                                   | None => "en"
                                   end) in
  try_catch (runStages cfg w params language) (markComplianceFailed params).

(** The summed cost of a batch. *)
Fixpoint batchTokens (batch : list LegalArticle) : Z :=
  match batch with
  | [] => 0
  | article :: rest => articleTokens article + batchTokens rest
  end.

(** A batch the batcher may close: it is not empty, and it holds two or
    more articles only within the limit. *)
Definition batch_ok (tokenLimit : Z) (batch : list LegalArticle) : Prop :=
  batch <> [] /\ (2 <= len batch -> batchTokens batch <= tokenLimit).

(** The summed cost of the articles selected for the legal context. *)
Fixpoint legalTokens (articles : list LegalArticle) : Z :=
  match articles with
  | [] => 0
  | article :: rest => legalContextTokens article + legalTokens rest
  end.

(** A text of [n] letters. *)
Definition longText (n : N) : string :=
  string_of_list_ascii (repeat "a"%char (N.to_nat n)).

(** A corpus of three HGB articles; the body of the second one has 800000
    letters. *)
Definition article1 : LegalArticle :=
  {| type_ := "article"; id_ := "1"; name := "Art 1"; title := Some "First";
     body := Some "One."; source := HGB |}.

Definition article2 : LegalArticle :=
  {| type_ := "article"; id_ := "2"; name := "Art 2"; title := Some "Second";
     body := Some (longText 800000); source := HGB |}.

Definition article3 : LegalArticle :=
  {| type_ := "article"; id_ := "3"; name := "Art 3"; title := Some "Third";
     body := Some "Three."; source := HGB |}.

(** What holds of every row the workflow writes: the progress is a
    percentage, and it is 100 exactly on a completed row. *)
Definition snapshot_ok (j : Compliance) : Prop :=
  0 <= progress j <= 100 /\ (progress j = 100 <-> status j = "completed").

(** A job in progress with its progress at most [bound]. *)
Definition in_progress_upto (bound : Z) (s : St Compliance) : Prop :=
  hist_ok progress snapshot_ok s /\ status (job s) = "in_progress" /\
  0 <= progress (job s) <= bound.

(** Sample worlds and inputs for the examples. *)
Definition sampleBlock : ContractBlock :=
  {| paragraph := "Section 1"; content := "The seller excludes all liability.";
     anchorId := "p1-0" |}.

Definition sampleParams : LegalComplianceParams :=
  {| contractBlocks := [sampleBlock]; complianceId := "compliance-1";
     researchId := "research-1"; locale := None |}.

Definition sampleRelevantArticle : RelevantArticle :=
  {| articleName := "Art 1"; articleTitle := "First"; ra_source := HGB;
     reason := "Liability" |}.

(** Every service answers: the HGB file holds one article; Phase 1 flags
    every block for a deep review against it; Phase 2 finds a critical
    violation. *)
Definition sampleWorld : World :=
  {| OPENROUTER_API_KEY := Some "sk-or-v1-sample";
     research_assets_get :=
       fun _ => Ok (Some {| json_contents :=
                               Ok (Some [ {| raw_type := "article"; raw_id := "1";
                                             raw_name := "Art 1";
                                             raw_title := Some "First";
                                             raw_body := Some "<p>One.</p>" |} ]) |});
     generateText_identify := fun _ _ _ _ => Ok "Block 0 may violate Art 1.";
     generateObject_identify :=
       fun _ count start =>
         Ok (map (fun i => {| contractBlockIndex := start + Z.of_nat i;
                              hasViolation := true;
                              relevantArticles := [sampleRelevantArticle];
                              needsDeepReview := true |})
               (seq 0 (Z.to_nat count)));
     generateText_analysis := fun _ _ _ _ => Ok "The clause is void.";
     generateObject_analysis :=
       fun _ => Ok {| o_severity := critical;
                      o_violationDetails := "The exclusion is void.";
                      o_recommendation := "Limit the exclusion." |} |}.

(** The same world, with structured output passes that fail. *)
Definition failingStructureWorld : World :=
  {| OPENROUTER_API_KEY := OPENROUTER_API_KEY sampleWorld;
     research_assets_get := research_assets_get sampleWorld;
     generateText_identify := generateText_identify sampleWorld;
     generateObject_identify := fun _ _ _ => Throw (ErrorObj "No object generated");
     generateText_analysis := generateText_analysis sampleWorld;
     generateObject_analysis := fun _ => Throw (ErrorObj "No object generated") |}.

Definition bothDisabled : Config := {| ENABLE_BGB := false; ENABLE_HGB := false |}.

Definition noBlocksParams : LegalComplianceParams :=
  {| contractBlocks := []; complianceId := "compliance-1";
     researchId := "research-1"; locale := None |}.

(** Consecutive batches are tight: the first article of a batch did not fit
    into the batch before it. *)
Fixpoint tight (tokenLimit : Z) (batches : list (list LegalArticle)) : Prop :=
  match batches with
  | batch :: (next :: _) as rest =>
      match next with
      | article :: _ => tokenLimit < batchTokens batch + articleTokens article
      | [] => False
      end /\ tight tokenLimit rest
  | _ => True
  end.

(** The article of the sample world as [loadLegalCodes] returns it. *)
Definition article1withTags : LegalArticle :=
  {| type_ := "article"; id_ := "1"; name := "Art 1"; title := Some "First";
     body := Some "<p>One.</p>"; source := HGB |}.

(** The sample world, with a bucket that holds no object. *)
Definition emptyBucketWorld : World :=
  {| OPENROUTER_API_KEY := OPENROUTER_API_KEY sampleWorld;
     research_assets_get := fun _ => Ok None;
     generateText_identify := generateText_identify sampleWorld;
     generateObject_identify := generateObject_identify sampleWorld;
     generateText_analysis := generateText_analysis sampleWorld;
     generateObject_analysis := generateObject_analysis sampleWorld |}.

(** What a Phase 1 batch contributes when the legal codes are loaded and
    the free text pass answers: the results of the structuring pass, or
    the all 'no violation' results of the batch when that pass fails. *)
Definition phase1BatchOutcome (w : World) (legalBatches : list (list LegalArticle))
    (language : string) (batch : list ContractBlock) (startBlockIndex : Z)
  : list BlockResult :=
  match generateText_identify w (contractBlocksText batch startBlockIndex)
          (sourcesTextOf (selectArticles legalBatches))
          (legalContextOf (selectArticles legalBatches)) language with
  | Ok textResult =>
      match generateObject_identify w textResult (len batch) startBlockIndex with
      | Ok results => results
      | Throw _ => emptyBlockResults batch startBlockIndex
      end
  | Throw _ => []
  end.

(** ** The workflow on a database that may reject

    The same code as above on a database [db] whose writes may reject and
    whose binding may be missing; on [reliable] these are the definitions
    above. *)

Definition phase1StageOn (db : Database Compliance)
    (cfg : Config) (w : World) (params : LegalComplianceParams)
    (language : string) : W Compliance (list BlockResult) :=
  let contractBatches := chunks_of (contractBlocks params) CONTRACT_BLOCKS_PER_BATCH in
  let processingChunks :=
    chunks_of (map_indexed (fun batch batchIndex => (batch, batchIndex)) contractBatches)
      MAX_PARALLEL_PHASE1 in
  for_indexed processingChunks 0 []
    (fun chunkIndex chunk phase1Results =>
       chunkResults <-
         Promise_all
           (map (fun '(batch, batchIndex) =>
                   let startBlockIndex := batchIndex * CONTRACT_BLOCKS_PER_BATCH in
                   step_do ("phase1-batch-" +++ string_of_Z batchIndex)
                     (run_task (phase1BatchStep cfg w batch startBlockIndex language)))
              chunk) ;;
       let phase1Results := phase1Results ++ List.concat chunkResults in
       let progress :=
         10 + Math_round_div (40 * (chunkIndex + 1)) (len processingChunks) in
       step_do ("update-progress-phase1-" +++ string_of_Z chunkIndex)
         (db_update_on db (with_progress progress)) ;;;
       ret phase1Results)%wf.

Definition phase2StageOn (db : Database Compliance)
    (cfg : Config) (w : World) (params : LegalComplianceParams)
    (phase1Results : list BlockResult) (language : string)
  : W Compliance (list DeepAnalysisResult) :=
  let blocksNeedingReview := filter needsDeepReview phase1Results in
  if len blocksNeedingReview >? 0 then
    let '(reviewTasks, skippedArticles) :=
      deriveReviewTasks cfg (contractBlocks params) blocksNeedingReview in
    let reviewChunks := chunks_of reviewTasks MAX_PARALLEL_PHASE2 in
    for_indexed reviewChunks 0 []
      (fun chunkIndex chunk phase2Results =>
         chunkResults <-
           Promise_all
             (map_indexed
                (fun task idx =>
                   let taskId := chunkIndex * MAX_PARALLEL_PHASE2 + idx in
                   step_do ("phase2-task-" +++ string_of_Z taskId)
                     (run_task (phase2TaskStep cfg w task language)))
                chunk) ;;
         let phase2Results := phase2Results ++ validResults chunkResults in
         let progress :=
           50 + Math_round_div (40 * (chunkIndex + 1)) (len reviewChunks) in
         step_do ("update-progress-phase2-" +++ string_of_Z chunkIndex)
           (db_update_on db (with_progress progress)) ;;;
         ret phase2Results)%wf
  else ret [].

Definition finalizeComplianceResultsOn (db : Database Compliance)
    (params : LegalComplianceParams)
    (phase1Results : list BlockResult) (phase2Results : list DeepAnalysisResult)
  : W Compliance RunResult :=
  step_do "finalize-compliance-results"
    (let results := {| phase1 := phase1Results;
                       phase2 := phase2Results;
                       summary := summarize (contractBlocks params)
                                    phase1Results phase2Results |} in
     db_update_on db (fun j => with_results results
                           (with_progress 100
                              (with_currentStage "compliance_completed"
                                 (with_status "completed" j)))) ;;;
     ret (RunCompleted (complianceId params) (researchId params) results))%wf.

Definition runStagesOn (db : Database Compliance)
    (cfg : Config) (w : World) (params : LegalComplianceParams)
    (language : string) : W Compliance RunResult :=
  (step_do "update-status-starting"
     (db_update_on db (fun j => with_progress 0
                            (with_currentStage "compliance_check"
                               (with_status "in_progress" j)))) ;;;
   step_do "update-status-phase1"
     (db_update_on db (fun j => with_progress 10
                            (with_currentStage "identifying_articles" j))) ;;;
   phase1Results <- phase1StageOn db cfg w params language ;;
   step_do "update-status-phase2"
     (db_update_on db (fun j => with_progress 50 (with_currentStage "deep_analysis" j))) ;;;
   phase2Results <- phase2StageOn db cfg w params phase1Results language ;;
   finalizeComplianceResultsOn db params phase1Results phase2Results)%wf.

Definition markComplianceFailedOn (db : Database Compliance)
    (params : LegalComplianceParams) (error : Thrown)
  : W Compliance RunResult :=
  step_do "mark-compliance-failed"
    (let errorMessage := message_or "Unknown error occurred" error in
     db_update_on db (fun j => with_errorMessage errorMessage
                           (with_currentStage "error"
                              (with_status "failed" j))) ;;;
     ret (RunFailed (complianceId params) (researchId params) errorMessage))%wf.

Definition runOn (db : Database Compliance)
    (cfg : Config) (w : World) (params : LegalComplianceParams)
  : W Compliance RunResult :=
  let language := getLanguageName (match locale params with
                                   | Some l => l
                                   | None => "en"
                                   end) in
  (getDb db ;;;
   try_catch (runStagesOn db cfg w params language)
     (markComplianceFailedOn db params))%wf.

End LegalComplianceWorkflow.

(** * The client of the hallucination-risk service ([src/utils/antihal.ts]) *)

Module Antihal.

(** The three metrics are numbers with a fractional part. *)
Record AntihalResponse : Type := {
  hallucination_risk : Q;
  isr : Q;
  info_budget : Q
}.

(** The body of an answer read as JSON: each of the three fields is a
    number or is not ([None]). *)
Record AntihalData : Type := {
  d_hallucination_risk : option Q;
  d_isr : option Q;
  d_info_budget : option Q
}.

(** The body of an answer that is not [ok], read as JSON: the reading may
    fail; the fields [error] and [detail] are optional. *)
Record AntihalError : Type := {
  e_error : option string;
  e_detail : option string
}.

Record Response : Type := {
  ok : bool;
  http_status : Z;
  errorBody : Result AntihalError;
  dataBody : Result AntihalData
}.

(** [fetch(endpoint, {..., signal: AbortSignal.timeout(ms)})]: the answer,
    or what was thrown (a network failure, the time-out). *)
Definition Fetch : Type := string -> string -> Z -> Result Response.

Definition baseUrl_of (antihalUrl : string) : string :=
  if endsWith_char "/" antihalUrl then dropLast antihalUrl else antihalUrl.

Definition estimateHallucinationRisk (fetch : Fetch) (antihalUrl prompt : string)
  : Task AntihalResponse :=
  if falsy (Some antihalUrl)
  then task_throw (ErrorObj "ANTIHAL_URL is not configured")
  else
    let endpoint := baseUrl_of antihalUrl +++ "/api/hallucinations/estimate" in
    task_catch
      (response <- task_call (CallFetch endpoint 30000) (fetch endpoint prompt 30000) ;;
       if negb (ok response) then
         let errorData := match errorBody response with
                          | Ok e => e
                          | Throw _ => {| e_error := Some "Unknown error";
                                          e_detail := None |}
                          end in
         task_throw
           (ErrorObj ("Antihal service error (" +++ string_of_Z (http_status response)
                      +++ "): "
                      +++ or_else (e_error errorData)
                            (or_else (e_detail errorData) "Unknown error")))
       else
         data <- ([], dataBody response) ;;
         match d_hallucination_risk data, d_isr data, d_info_budget data with
         | Some r, Some i, Some b =>
             task_ret {| hallucination_risk := r; isr := i; info_budget := b |}
         | _, _, _ =>
             task_throw (ErrorObj "Invalid response structure from antihal service")
         end)%task
      (fun error =>
         match error with
         | ErrorObj message =>
             if includes "Antihal service error" message
             then task_throw error
             else task_throw (ErrorObj ("Failed to connect to antihal service: "
                                        +++ message))
         | OtherValue =>
             task_throw (ErrorObj "Unknown error occurred while calling antihal service")
         end).

(** The answer of the health route: [ok], and the body read as JSON, whose
    fields [status] and [service] are strings or are not ([None]); the
    reading may fail. *)
Record HealthData : Type := {
  h_status : option string;
  h_service : option string
}.

Record HealthResponse : Type := {
  h_ok : bool;
  healthBody : Result HealthData
}.

(** [fetch(endpoint, {method: 'GET', signal: AbortSignal.timeout(ms)})]. *)
Definition FetchHealth : Type := string -> Z -> Result HealthResponse.

Definition option_string_eqb (s : option string) (t : string) : bool :=
  match s with
  | Some s => String.eqb s t
  | None => false
  end.

Definition checkAntihalHealth (fetch : FetchHealth) (antihalUrl : string) : Task bool :=
  if falsy (Some antihalUrl)
  then task_ret false
  else
    let endpoint := baseUrl_of antihalUrl +++ "/health" in
    task_catch
      (response <- task_call (CallFetch endpoint 5000) (fetch endpoint 5000) ;;
       if negb (h_ok response) then task_ret false
       else
         data <- ([], healthBody response) ;;
         task_ret (option_string_eqb (h_status data) "healthy"
                   && option_string_eqb (h_service data) "research-antihal"))%task
      (fun _ => task_ret false).

End Antihal.
(** * Theorems *)

(** ** Arithmetic *)

Lemma Math_ceil_div_pos (a b : Z) :
  0 < b -> Math_ceil_div a b = (a + b - 1) / b.
Proof.
  intros Hb. unfold Math_ceil_div.
  apply Z.div_unique with (r := b - 1 - (- a) mod b).
  - left. pose proof (Z.mod_pos_bound (- a) b Hb). lia.
  - pose proof (Z.div_mod (- a) b). lia.
Qed.

Lemma Math_ceil_div_bounds (a b : Z) :
  0 < b -> a <= b * Math_ceil_div a b < a + b.
Proof.
  intros Hb. unfold Math_ceil_div.
  pose proof (Z.div_mod (- a) b). pose proof (Z.mod_pos_bound (- a) b Hb). lia.
Qed.

Lemma Math_round_div_mono (a a' b : Z) :
  0 < b -> a <= a' -> Math_round_div a b <= Math_round_div a' b.
Proof.
  intros Hb Ha. unfold Math_round_div. apply Z.div_le_mono; lia.
Qed.

Lemma Math_round_div_full (c b : Z) : 0 < b -> Math_round_div (c * b) b = c.
Proof.
  intros Hb. unfold Math_round_div.
  symmetry. apply Z.div_unique with (r := b); lia.
Qed.

Lemma Math_round_div_nonneg (a b : Z) : 0 < b -> 0 <= a -> 0 <= Math_round_div a b.
Proof.
  intros Hb Ha. unfold Math_round_div. apply Z.div_pos; lia.
Qed.

(** ** chunkArray *)

Lemma len_nonneg {T} (l : list T) : 0 <= len l.
Proof. unfold len. lia. Qed.

Lemma len_app {T} (l l' : list T) : len (l ++ l') = len l + len l'.
Proof. unfold len. rewrite length_app. lia. Qed.

Lemma slice_forward {T} (array : list T) (i size : Z) :
  0 <= i -> 0 < size ->
  slice array i (i + size) = firstn (Z.to_nat size) (skipn (Z.to_nat i) array).
Proof.
  intros Hi Hs. unfold slice.
  destruct (Z.ltb_spec i 0); [lia|]. destruct (Z.ltb_spec (i + size) 0); [lia|].
  destruct (Z.le_gt_cases (i + size) (len array)) as [Hle|Hgt].
  - rewrite !Z.min_l by lia. f_equal. lia.
  - rewrite (Z.min_r (i + size)) by lia.
    destruct (Z.le_gt_cases i (len array)) as [Hi'|Hi'].
    + rewrite Z.min_l by lia.
      rewrite !firstn_all2; trivial; rewrite length_skipn; unfold len in *; lia.
    + rewrite Z.min_r by lia.
      rewrite (skipn_all2 array) by (unfold len in *; lia).
      rewrite (skipn_all2 array) by (unfold len in *; lia).
      now rewrite !firstn_nil.
Qed.

Lemma chunkArray_loop_spec {T} (array : list T) (size : Z) :
  0 < size ->
  forall fuel i chunks,
    0 <= i -> (Z.to_nat (len array - i) <= fuel)%nat ->
    exists cs,
      chunkArray_loop fuel array size i chunks = Some (chunks ++ cs) /\
      len cs = Math_ceil_div (Z.max 0 (len array - i)) size /\
      Forall (fun c => len c <= size) cs /\
      List.concat cs = skipn (Z.to_nat i) array.
Proof.
  intros Hs fuel.
  assert (Hdone : forall i, len array <= i -> 0 <= i ->
            len (@nil (list T)) = Math_ceil_div (Z.max 0 (len array - i)) size /\
            Forall (fun c : list T => len c <= size) [] /\
            List.concat [] = skipn (Z.to_nat i) array).
  { intros i Hge Hi. rewrite Z.max_l by lia. split; [|split].
    - rewrite Math_ceil_div_pos by lia. cbn. symmetry. apply Z.div_small. lia.
    - constructor.
    - symmetry. apply skipn_all2. unfold len in *. lia. }
  induction fuel as [|fuel IH]; intros i chunks Hi Hfuel; cbn [chunkArray_loop].
  - destruct (Z.ltb_spec i (len array)); [lia|].
    exists []. rewrite app_nil_r. split; [reflexivity|]. now apply Hdone.
  - destruct (Z.ltb_spec i (len array)) as [Hlt|Hge].
    + destruct (IH (i + size) (chunks ++ [slice array i (i + size)]))
        as (cs & Hrun & Hlen & Hall & Hcat); [lia|lia|].
      exists (slice array i (i + size) :: cs).
      rewrite Hrun, <- app_assoc. split; [reflexivity|].
      rewrite slice_forward in * by lia.
      split; [|split].
      * change (len (?x :: cs)) with (Z.of_nat (S (List.length cs))).
        rewrite Nat2Z.inj_succ. fold (len cs). rewrite Hlen.
        rewrite !Math_ceil_div_pos by lia.
        rewrite (Z.max_r 0 (len array - i)) by lia.
        destruct (Z.le_gt_cases 0 (len array - (i + size))).
        -- rewrite Z.max_r by lia.
           replace (len array - i + size - 1)
             with (len array - (i + size) + size - 1 + 1 * size) by lia.
           rewrite Z.div_add by lia. lia.
        -- rewrite Z.max_l by lia.
           rewrite (Z.div_small (0 + size - 1)) by lia.
           apply Z.div_unique with (r := len array - i - 1); lia.
      * constructor; trivial. unfold len. rewrite length_firstn. lia.
      * cbn [List.concat]. rewrite Hcat.
        replace (Z.to_nat (i + size)) with (Z.to_nat i + Z.to_nat size)%nat by lia.
        rewrite Nat.add_comm, <- skipn_skipn. apply firstn_skipn.
    + exists []. rewrite app_nil_r. split; [reflexivity|]. now apply Hdone.
Qed.

(** With a size that is not positive the loop of the source never ends on a
    non-empty array: the index never reaches the length.  The model runs
    out of fuel, whatever the fuel. *)
Lemma chunkArray_loop_diverges {T} (array : list T) (size : Z) :
  size <= 0 -> array <> [] ->
  forall fuel i chunks, i <= 0 -> chunkArray_loop fuel array size i chunks = None.
Proof.
  intros Hs Hne fuel.
  assert (0 < len array) by (destruct array; [congruence|unfold len; cbn; lia]).
  induction fuel as [|fuel IH]; intros i chunks Hi; cbn [chunkArray_loop];
    destruct (Z.ltb_spec i (len array)); try lia; trivial.
  apply IH. lia.
Qed.

Lemma chunkArray_diverges {T} (array : list T) (size : Z) :
  size <= 0 -> array <> [] -> chunkArray array size = None.
Proof.
  intros. unfold chunkArray. apply chunkArray_loop_diverges; trivial. lia.
Qed.

Lemma chunkArray_chunks {T} (array : list T) (size : Z) :
  0 < size ->
  exists chunks,
    chunkArray array size = Some chunks /\
    len chunks = Math_ceil_div (len array) size /\
    Forall (fun c => len c <= size) chunks /\
    List.concat chunks = array.
Proof.
  intros Hs. unfold chunkArray.
  destruct (@chunkArray_loop_spec T array size Hs (List.length array) 0 [])
    as (cs & Hrun & Hlen & Hall & Hcat); [lia|unfold len; lia|].
  exists cs. rewrite Hrun. cbn [app]. repeat split; trivial.
  rewrite Hlen. f_equal. pose proof (len_nonneg array). lia.
Qed.

(** C3. For every array of N elements and every (positive) chunk size,
    [chunkArray] returns ceil(N/size) chunks, each of length at most
    [size], whose concatenation in order is the array. *)
Theorem chunkArray_spec {T} (array : list T) (size : Z) :
  0 < size ->
  exists chunks,
    chunkArray array size = Some chunks /\
    len chunks = Math_ceil_div (len array) size /\
    Forall (fun c => len c <= size) chunks /\
    List.concat chunks = array.
Proof. exact (@chunkArray_chunks T array size). Qed.

(** The example of the specification: 87 items at size 5 give 18 chunks,
    the last of length 2. *)
Lemma chunkArray_spec_witness :
  0 < 5 /\
  exists chunks,
    chunkArray (seq 1 87) 5 = Some chunks /\
    len chunks = Math_ceil_div (len (seq 1 87)) 5 /\
    Forall (fun c => len c <= 5) chunks /\
    List.concat chunks = seq 1 87.
Proof. split; [lia | apply (@chunkArray_spec nat (seq 1 87) 5); lia]. Defined.

Example chunkArray_87_by_5 :
  option_map (fun chunks => (len chunks, option_map len (last (map Some chunks) None)))
    (chunkArray (seq 1 87) 5) = Some (18, Some 2).
Proof. reflexivity. Qed.

(** ** The token budget batcher *)

Section TokenBudgetBatcher.
Import LegalComplianceWorkflow.

Lemma approximateTokenCount_nonneg (text : string) : 0 <= approximateTokenCount text.
Proof.
  unfold approximateTokenCount.
  pose proof (@Math_ceil_div_bounds (Z.of_nat (String.length text)) 4 ltac:(lia)).
  lia.
Qed.

Lemma articleTokens_nonneg (a : LegalArticle) : 0 <= articleTokens a.
Proof. apply approximateTokenCount_nonneg. Qed.

Lemma batchTokens_app (b b' : list LegalArticle) :
  batchTokens (b ++ b') = batchTokens b + batchTokens b'.
Proof. induction b as [|a b IH]; cbn; [|rewrite IH]; lia. Qed.

Lemma batchTokens_nonneg (b : list LegalArticle) : 0 <= batchTokens b.
Proof.
  induction b as [|a b IH]; cbn; [lia|]. pose proof (articleTokens_nonneg a). lia.
Qed.

Lemma batchTokens_In (a : LegalArticle) (b : list LegalArticle) :
  In a b -> articleTokens a <= batchTokens b.
Proof.
  induction b as [|x b IH]; cbn; [tauto|]. intros [->|Hin].
  - pose proof (batchTokens_nonneg b). lia.
  - pose proof (articleTokens_nonneg x). specialize (IH Hin). lia.
Qed.

Lemma batchByTokenLimit_loop_spec (tokenLimit : Z) (articles : list LegalArticle) :
  forall batches currentBatch currentTokens,
    currentTokens = batchTokens currentBatch ->
    Forall (batch_ok tokenLimit) batches ->
    (2 <= len currentBatch -> batchTokens currentBatch <= tokenLimit) ->
    let '(batches', currentBatch') :=
      batchByTokenLimit_loop articles tokenLimit batches currentBatch currentTokens in
    Forall (batch_ok tokenLimit) batches' /\
    (2 <= len currentBatch' -> batchTokens currentBatch' <= tokenLimit) /\
    List.concat batches' ++ currentBatch' = List.concat batches ++ currentBatch ++ articles.
Proof.
  induction articles as [|article rest IH]; intros batches currentBatch currentTokens Htok Hok Hcur;
    cbn [batchByTokenLimit_loop].
  - rewrite app_nil_r. auto.
  - destruct ((currentTokens + articleTokens article >? tokenLimit) && (len currentBatch >? 0))
      eqn:Hclose.
    + apply andb_true_iff in Hclose. destruct Hclose as [Hover Hnonempty].
      destruct (Z.gtb_spec (len currentBatch) 0) as [Hpos|]; [|discriminate].
      specialize (IH (batches ++ [currentBatch]) [article] (articleTokens article)).
      destruct (batchByTokenLimit_loop rest tokenLimit (batches ++ [currentBatch])
                  [article] (articleTokens article)) as [batches' currentBatch'].
      destruct IH as (H1 & H2 & H3).
      * cbn. lia.
      * apply Forall_app. split; trivial. constructor; [|constructor].
        split; trivial. intros ->. unfold len in Hpos. cbn in Hpos. lia.
      * unfold len. cbn. lia.
      * repeat split; trivial. rewrite H3, concat_app. cbn [List.concat].
        rewrite app_nil_r, <- !app_assoc. reflexivity.
    + specialize (IH batches (currentBatch ++ [article]) (currentTokens + articleTokens article)).
      destruct (batchByTokenLimit_loop rest tokenLimit batches (currentBatch ++ [article])
                  (currentTokens + articleTokens article)) as [batches' currentBatch'].
      destruct IH as (H1 & H2 & H3); trivial.
      * rewrite batchTokens_app. cbn. lia.
      * rewrite batchTokens_app, len_app. cbn. unfold len at 1. cbn. intros Hlen.
        apply andb_false_iff in Hclose. destruct Hclose as [Hfits|Hempty].
        -- destruct (Z.gtb_spec (currentTokens + articleTokens article) tokenLimit);
             [discriminate|lia].
        -- destruct (Z.gtb_spec (len currentBatch) 0); [discriminate|].
           unfold len in *. lia.
      * repeat split; trivial. rewrite H3, <- !app_assoc. reflexivity.
Qed.

(** C2. Whatever the articles and the budget, the batches of
    [batchByTokenLimit] are the articles in order and unsplit; no batch of
    two or more articles has a summed approximate cost above the budget;
    and an article whose own cost is above the budget is alone in its
    batch. *)
Theorem batchByTokenLimit_budget (articles : list LegalArticle) (tokenLimit : Z) :
  let batches := batchByTokenLimit articles tokenLimit in
  List.concat batches = articles /\
  Forall (fun batch => batch <> [] /\
                       (2 <= len batch -> batchTokens batch <= tokenLimit)) batches /\
  (forall batch article,
      In batch batches -> In article batch ->
      tokenLimit < articleTokens article -> batch = [article]) /\
  (forall article,
      In article articles -> tokenLimit < articleTokens article ->
      In [article] batches).
Proof.
  cbv zeta. unfold batchByTokenLimit.
  pose proof (@batchByTokenLimit_loop_spec tokenLimit articles [] [] 0 eq_refl
                (Forall_nil _)) as Hspec.
  destruct (batchByTokenLimit_loop articles tokenLimit [] [] 0) as [batches currentBatch].
  destruct Hspec as (Hok & Hcur & Hcat); [unfold len; cbn; lia|].
  cbn [List.concat app] in Hcat.
  set (result := if len currentBatch >? 0 then batches ++ [currentBatch] else batches).
  assert (Hres_cat : List.concat result = articles).
  { subst result. destruct (Z.gtb_spec (len currentBatch) 0).
    - rewrite concat_app. cbn. now rewrite app_nil_r.
    - destruct currentBatch; [now rewrite app_nil_r in Hcat|unfold len in *; cbn in *; lia]. }
  assert (Hres_ok : Forall (batch_ok tokenLimit) result).
  { subst result. destruct (Z.gtb_spec (len currentBatch) 0); trivial.
    apply Forall_app. split; trivial. constructor; [|constructor].
    split; trivial. intros ->. unfold len in *. cbn in *. lia. }
  assert (Halone : forall batch article, In batch result -> In article batch ->
                     tokenLimit < articleTokens article -> batch = [article]).
  { intros batch article Hb Ha Hbig.
    rewrite Forall_forall in Hres_ok. destruct (Hres_ok _ Hb) as [_ Hsum].
    pose proof (batchTokens_In _ _ Ha).
    destruct batch as [|x [|y batch]]; cbn in Ha.
    - tauto.
    - destruct Ha as [->|[]]. reflexivity.
    - exfalso. assert (2 <= len (x :: y :: batch)) by (unfold len; cbn; lia).
      specialize (Hsum H0). lia. }
  repeat split; trivial.
  - intros article Hin Hbig. rewrite <- Hres_cat in Hin.
    apply in_concat in Hin. destruct Hin as (batch & Hb & Ha).
    now rewrite <- (Halone _ _ Hb Ha Hbig).
Qed.

End TokenBudgetBatcher.

(** ** The selection of the legal context of Phase 1 *)

Section LegalContextSelection.
Import LegalComplianceWorkflow.

Lemma legalContextTokens_nonneg (a : LegalArticle) : 0 <= legalContextTokens a.
Proof. apply approximateTokenCount_nonneg. Qed.

Lemma legalTokens_app (l l' : list LegalArticle) :
  legalTokens (l ++ l') = legalTokens l + legalTokens l'.
Proof. induction l as [|a l IH]; cbn; [|rewrite IH]; lia. Qed.

Lemma selectFromBatch_spec (batch : list LegalArticle) :
  forall selected current,
    current = legalTokens selected -> current <= PHASE1_LEGAL_TOKENS ->
    let '(selected', current') := selectFromBatch batch selected current in
    current' = legalTokens selected' /\ current' <= PHASE1_LEGAL_TOKENS /\
    exists taken rest, batch = taken ++ rest /\ selected' = selected ++ taken.
Proof.
  induction batch as [|article batch IH]; intros selected current Hcur Hle;
    cbn [selectFromBatch].
  - split; [|split]; trivial. exists [], []. rewrite !app_nil_r. auto.
  - destruct (Z.gtb_spec (current + legalContextTokens article) PHASE1_LEGAL_TOKENS).
    + split; [|split]; trivial. exists [], (article :: batch). rewrite !app_nil_r. auto.
    + specialize (IH (selected ++ [article]) (current + legalContextTokens article)).
      destruct (selectFromBatch batch (selected ++ [article])
                  (current + legalContextTokens article)) as [selected' current'].
      destruct IH as (H1 & H2 & taken & rest & H3 & H4); trivial.
      * rewrite legalTokens_app. cbn. lia.
      * split; [|split]; trivial. exists (article :: taken), rest.
        rewrite H3, H4, <- app_assoc. split; reflexivity.
Qed.

(** Whatever the batches, the summed cost of the selected articles stays
    within the legal context budget. *)
Lemma selectFromBatches_within_budget (legalBatches : list (list LegalArticle)) :
  forall selected current,
    current = legalTokens selected -> current <= PHASE1_LEGAL_TOKENS ->
    let '(selected', current') := selectFromBatches legalBatches selected current in
    current' = legalTokens selected' /\ current' <= PHASE1_LEGAL_TOKENS.
Proof.
  induction legalBatches as [|batch rest IH]; intros selected current Hcur Hle;
    cbn [selectFromBatches]; [auto|].
  pose proof (selectFromBatch_spec batch selected current Hcur Hle) as Hb.
  destruct (selectFromBatch batch selected current) as [selected1 current1].
  destruct Hb as (H1 & H2 & _).
  destruct (current1 >=? PHASE1_LEGAL_TOKENS); [auto|].
  now apply IH.
Qed.

Lemma selectArticles_within_budget (legalBatches : list (list LegalArticle)) :
  legalTokens (selectArticles legalBatches) <= PHASE1_LEGAL_TOKENS.
Proof.
  unfold selectArticles.
  pose proof (selectFromBatches_within_budget legalBatches [] 0 eq_refl) as H.
  destruct (selectFromBatches legalBatches [] 0) as [selected current].
  cbn [fst]. destruct H as [H1 H2]; [unfold PHASE1_LEGAL_TOKENS; lia|]. lia.
Qed.

(** Three articles, one per batch, the second one over the budget of the
    legal context: the inner loop breaks at the second article, the outer
    loop goes on, and the third article is selected. *)
Lemma selectArticles_skips (a1 a2 a3 : LegalArticle) :
  TOKEN_LIMIT < articleTokens a1 + articleTokens a2 ->
  TOKEN_LIMIT < articleTokens a2 + articleTokens a3 ->
  PHASE1_LEGAL_TOKENS < legalContextTokens a1 + legalContextTokens a2 ->
  legalContextTokens a1 + legalContextTokens a3 < PHASE1_LEGAL_TOKENS ->
  batchByTokenLimit [a1; a2; a3] TOKEN_LIMIT = [[a1]; [a2]; [a3]] /\
  selectArticles [[a1]; [a2]; [a3]] = [a1; a3].
Proof.
  intros H12 H23 L12 L13.
  pose proof (legalContextTokens_nonneg a1). pose proof (legalContextTokens_nonneg a2).
  pose proof (legalContextTokens_nonneg a3).
  pose proof (articleTokens_nonneg a1). pose proof (articleTokens_nonneg a3).
  split.
  - unfold batchByTokenLimit. cbn [batchByTokenLimit_loop].
    change (len (@nil LegalArticle)) with 0.
    change (len [a1]) with 1. change (len [a2]) with 1. change (len [a3]) with 1.
    destruct (Z.gtb_spec (0 + articleTokens a1) TOKEN_LIMIT);
      cbn [andb app]; change (0 >? 0) with false; rewrite ?andb_false_r;
      cbn [app]; change (len [a1]) with 1;
      (destruct (Z.gtb_spec (0 + articleTokens a1 + articleTokens a2) TOKEN_LIMIT); [|lia]);
      change (1 >? 0) with true; cbn [andb app]; change (len [a2]) with 1;
      (destruct (Z.gtb_spec (articleTokens a2 + articleTokens a3) TOKEN_LIMIT); [|lia]);
      change (1 >? 0) with true; cbn [andb app]; change (len [a3]) with 1;
      change (1 >? 0) with true; reflexivity.
  - unfold selectArticles. cbn [selectFromBatches selectFromBatch].
    destruct (Z.gtb_spec (0 + legalContextTokens a1) PHASE1_LEGAL_TOKENS); [lia|].
    cbn [app].
    destruct (Z.geb_spec (0 + legalContextTokens a1) PHASE1_LEGAL_TOKENS); [lia|].
    destruct (Z.gtb_spec (0 + legalContextTokens a1 + legalContextTokens a2)
                PHASE1_LEGAL_TOKENS); [|lia].
    destruct (Z.geb_spec (0 + legalContextTokens a1) PHASE1_LEGAL_TOKENS); [lia|].
    destruct (Z.gtb_spec (0 + legalContextTokens a1 + legalContextTokens a3)
                PHASE1_LEGAL_TOKENS); [lia|].
    cbn [app].
    destruct (0 + legalContextTokens a1 + legalContextTokens a3 >=? PHASE1_LEGAL_TOKENS);
      reflexivity.
Qed.

End LegalContextSelection.
Section LongTexts.
Import LegalComplianceWorkflow.

Lemma length_append (s t : string) :
  String.length (s +++ t) = (String.length s + String.length t)%nat.
Proof. induction s as [|c s IH]; cbn; [|rewrite IH]; reflexivity. Qed.

Lemma letters_length (k : nat) :
  String.length (string_of_list_ascii (repeat "a"%char k)) = k.
Proof. induction k as [|k IH]; cbn; [|rewrite IH]; reflexivity. Qed.

Lemma letters_replaceTags (k : nat) :
  replaceTags (string_of_list_ascii (repeat "a"%char k))
  = string_of_list_ascii (repeat "a"%char k).
Proof.
  unfold replaceTags. induction k as [|k IH]; [reflexivity|].
  cbn [repeat string_of_list_ascii replaceTags_from].
  change (Ascii.eqb "a" "<") with false. cbn [andb]. now rewrite IH.
Qed.

Lemma letters_trimEnd (k : nat) :
  trimEnd (string_of_list_ascii (repeat "a"%char k))
  = string_of_list_ascii (repeat "a"%char k).
Proof.
  induction k as [|k IH]; [reflexivity|].
  cbn [repeat string_of_list_ascii trimEnd]. rewrite IH.
  destruct k; reflexivity.
Qed.

Lemma letters_trim (k : nat) :
  trim (string_of_list_ascii (repeat "a"%char k))
  = string_of_list_ascii (repeat "a"%char k).
Proof.
  unfold trim. destruct k as [|k]; [reflexivity|].
  change (trimStart (string_of_list_ascii (repeat "a"%char (S k))))
    with (string_of_list_ascii (repeat "a"%char (S k))).
  apply letters_trimEnd.
Qed.

Lemma or_else_letters (k : nat) (d : string) :
  (0 < k)%nat ->
  or_else (Some (string_of_list_ascii (repeat "a"%char k))) d
  = string_of_list_ascii (repeat "a"%char k).
Proof. destruct k; [lia|reflexivity]. Qed.

Lemma articleTokens_longText (ty i nm : string) (ttl : option string) (src : Source) (n : N) :
  (0 < n)%N ->
  articleTokens {| type_ := ty; id_ := i; name := nm; title := ttl;
                   body := Some (longText n); source := src |}
  = Math_ceil_div
      (Z.of_nat (String.length (nm +++ " " +++ or_else ttl "" +++ " ")) + Z.of_N n) 4.
Proof.
  intros Hn. unfold articleTokens, approximateTokenCount, longText.
  cbn [name title body]. rewrite or_else_letters by lia.
  f_equal. rewrite !length_append, letters_length, !Nat2Z.inj_add, N_nat_Z.
  cbn [String.length]. lia.
Qed.

Lemma legalContextTokens_longText (ty i nm : string) (ttl : option string)
    (src : Source) (n : N) :
  (0 < n)%N ->
  legalContextTokens {| type_ := ty; id_ := i; name := nm; title := ttl;
                        body := Some (longText n); source := src |}
  = Math_ceil_div
      (Z.of_nat (String.length ("[" +++ sourceName src +++ "] " +++ nm +++ " - "
                                +++ or_else ttl "Untitled" +++ ":" +++ LF))
       + Z.of_N n) 4.
Proof.
  intros Hn.
  unfold legalContextTokens, legalContextText, strippedBody, approximateTokenCount, longText.
  cbn [name title body source option_map].
  rewrite letters_replaceTags, letters_trim, or_else_letters by lia.
  f_equal. rewrite !length_append, letters_length, !Nat2Z.inj_add, N_nat_Z.
  unfold LF. cbn [String.length]. lia.
Qed.

(** C4, at a corpus the workflow can load: the second article alone is
    over the budget of the legal context, and the third one is selected
    all the same; the selection is not a prefix of the articles. *)
Theorem selectArticles_not_a_prefix :
  let legalBatches := batchByTokenLimit [article1; article2; article3] TOKEN_LIMIT in
  legalBatches = [[article1]; [article2]; [article3]] /\
  PHASE1_LEGAL_TOKENS < legalContextTokens article2 /\
  selectArticles legalBatches = [article1; article3].
Proof.
  assert (A2 : articleTokens article2 = 200004).
  { unfold article2. rewrite articleTokens_longText by lia. reflexivity. }
  assert (L2 : legalContextTokens article2 = 200006).
  { unfold article2. rewrite legalContextTokens_longText by lia. reflexivity. }
  assert (A1 : articleTokens article1 = 4) by reflexivity.
  assert (A3 : articleTokens article3 = 5) by reflexivity.
  assert (L1 : legalContextTokens article1 = 7) by reflexivity.
  assert (L3 : legalContextTokens article3 = 7) by reflexivity.
  destruct (@selectArticles_skips article1 article2 article3) as [Hb Hs];
    try (rewrite ?A1, ?A2, ?A3, ?L1, ?L2, ?L3; unfold TOKEN_LIMIT, PHASE1_LEGAL_TOKENS; lia).
  cbv zeta. rewrite Hb, L2. repeat split; trivial.
Qed.

End LongTexts.

(** ** The summary of the compliance check *)

Section ComplianceSummary.
Import LegalComplianceWorkflow.

Lemma len_filter_cons {X} (f : X -> bool) (x : X) (l : list X) :
  len (filter f (x :: l)) = (if f x then 1 else 0) + len (filter f l).
Proof. cbn [filter]. destruct (f x); unfold len; cbn [List.length]; lia. Qed.

Lemma severity_partition (phase2Results : list DeepAnalysisResult) :
  len (filter (fun r => Severity_eqb (severity r) critical) phase2Results)
  + len (filter (fun r => Severity_eqb (severity r) moderate) phase2Results)
  + len (filter (fun r => Severity_eqb (severity r) minor) phase2Results)
  + len (filter (fun r => Severity_eqb (severity r) safe) phase2Results)
  = len phase2Results.
Proof.
  induction phase2Results as [|r l IH]; [reflexivity|].
  rewrite !len_filter_cons.
  replace (len (r :: l)) with (1 + len l) by (unfold len; cbn [List.length]; lia).
  destruct (severity r); cbn [Severity_eqb]; lia.
Qed.

(** C10. The last step persists both result lists as they are, with the
    summary; there [blocksWithViolations] is the number of Phase 1 results
    with [hasViolation], whatever Phase 2 gave; the three violation counters
    count the Phase 2 results of severity critical, moderate and minor,
    whatever Phase 1 gave: all counters are 0 on no result, a Phase 1 result
    adds one to [blocksWithViolations] exactly when it has a violation, and
    a Phase 2 result adds one to the counter of its own severity and to no
    other; a Phase 2 result of severity safe is in the persisted list and in
    no counter. *)
Theorem summarize_counts (params : LegalComplianceParams)
    (phase1Results : list BlockResult) (phase2Results : list DeepAnalysisResult)
    (st : St Compliance) :
  let s := summarize (contractBlocks params) phase1Results phase2Results in
  results (job (snd (finalizeComplianceResults params phase1Results phase2Results st)))
  = Some {| phase1 := phase1Results; phase2 := phase2Results; summary := s |} /\
  blocksWithViolations s = len (filter hasViolation phase1Results) /\
  (forall phase2Results',
      blocksWithViolations (summarize (contractBlocks params) phase1Results phase2Results')
      = blocksWithViolations s) /\
  (forall phase1Results',
      let s' := summarize (contractBlocks params) phase1Results' phase2Results in
      criticalViolations s' = criticalViolations s /\
      moderateViolations s' = moderateViolations s /\
      minorViolations s' = minorViolations s) /\
  criticalViolations s + moderateViolations s + minorViolations s
  = len phase2Results
    - len (filter (fun r => Severity_eqb (severity r) safe) phase2Results) /\
  (let s0 := summarize (contractBlocks params) [] [] in
   blocksWithViolations s0 = 0 /\ criticalViolations s0 = 0 /\
   moderateViolations s0 = 0 /\ minorViolations s0 = 0) /\
  (forall result,
      let s1 := summarize (contractBlocks params) (result :: phase1Results)
                  phase2Results in
      blocksWithViolations s1
      = (if hasViolation result then 1 else 0) + blocksWithViolations s) /\
  (forall result,
      let s1 := summarize (contractBlocks params) phase1Results
                  (result :: phase2Results) in
      match severity result with
      | critical =>
          criticalViolations s1 = 1 + criticalViolations s /\
          moderateViolations s1 = moderateViolations s /\
          minorViolations s1 = minorViolations s
      | moderate =>
          criticalViolations s1 = criticalViolations s /\
          moderateViolations s1 = 1 + moderateViolations s /\
          minorViolations s1 = minorViolations s
      | minor =>
          criticalViolations s1 = criticalViolations s /\
          moderateViolations s1 = moderateViolations s /\
          minorViolations s1 = 1 + minorViolations s
      | safe =>
          criticalViolations s1 = criticalViolations s /\
          moderateViolations s1 = moderateViolations s /\
          minorViolations s1 = minorViolations s
      end) /\
  (forall r before after,
      severity r = safe ->
      let s' := summarize (contractBlocks params) phase1Results (before ++ r :: after) in
      let s0 := summarize (contractBlocks params) phase1Results (before ++ after) in
      criticalViolations s' = criticalViolations s0 /\
      moderateViolations s' = moderateViolations s0 /\
      minorViolations s' = minorViolations s0 /\
      blocksWithViolations s' = blocksWithViolations s0).
Proof.
  cbv zeta. split; [reflexivity|]. unfold summarize.
  cbn [blocksWithViolations criticalViolations moderateViolations minorViolations].
  split; [reflexivity|]. split; [reflexivity|]. split; [auto|]. split.
  { pose proof (severity_partition phase2Results). lia. }
  split; [repeat split|]. split.
  { intros result. apply len_filter_cons. }
  split.
  { intros result. rewrite !len_filter_cons.
    destruct (severity result); cbn [Severity_eqb]; repeat split; lia. }
  intros r before after Hsafe.
  rewrite !filter_app. cbn [filter]. rewrite Hsafe. cbn [Severity_eqb]. auto.
Qed.

(** A safe result between a critical and a minor one. *)
Lemma summarize_counts_witness :
  let params := {| contractBlocks := []; complianceId := "c"; researchId := "r";
                   locale := None |} in
  let result sev := {| da_contractBlockIndex := 0; da_articleName := "Art 1";
                       da_articleTitle := "First"; da_source := HGB; severity := sev;
                       violationDetails := ""; recommendation := "" |} in
  severity (result safe) = safe /\
  let s' := summarize (contractBlocks params) []
              ([result critical] ++ result safe :: [result minor]) in
  let s0 := summarize (contractBlocks params) [] ([result critical] ++ [result minor]) in
  criticalViolations s' = criticalViolations s0 /\
  moderateViolations s' = moderateViolations s0 /\
  minorViolations s' = minorViolations s0 /\
  blocksWithViolations s' = blocksWithViolations s0.
Proof.
  intros params result. split; [reflexivity|].
  apply (summarize_counts params [] []
           (mkSt pendingCompliance [] [] [])).
  reflexivity.
Defined.

End ComplianceSummary.

(** ** The order of the parsed blocks *)

Section SortByKey.
Context {X : Type} (key : X -> Z).


Lemma sort_insert_perm (x : X) (l : list X) :
  Permutation (x :: l) (sort_insert (fun a b => key a - key b) x l).
Proof.
  induction l as [|y l IH]; cbn [sort_insert]; [reflexivity|].
  destruct (key x - key y <=? 0); [reflexivity|].
  rewrite perm_swap. now constructor.
Qed.

Lemma sort_by_perm (l : list X) : Permutation l (sort_by (fun a b => key a - key b) l).
Proof.
  induction l as [|x l IH]; cbn [sort_by]; [reflexivity|].
  rewrite <- sort_insert_perm. now constructor.
Qed.

Lemma sort_insert_sorted (x : X) (l : list X) :
  StronglySorted (fun a b => key a <= key b) l -> StronglySorted (fun a b => key a <= key b) (sort_insert (fun a b => key a - key b) x l).
Proof.
  induction 1 as [|y l Hs IH Hy]; cbn [sort_insert].
  - repeat constructor.
  - destruct (Z.leb_spec (key x - key y) 0) as [Hle|Hgt].
    + constructor; [now constructor|].
      constructor; [lia|]. eapply Forall_impl; [|exact Hy]. cbn. intros; lia.
    + constructor; trivial.
      eapply Permutation_Forall; [apply sort_insert_perm|].
      constructor; [lia|trivial].
Qed.

Lemma sort_by_sorted (l : list X) : StronglySorted (fun a b => key a <= key b) (sort_by (fun a b => key a - key b) l).
Proof.
  induction l as [|x l IH]; cbn [sort_by]; [constructor|].
  now apply sort_insert_sorted.
Qed.

(** Two sorted lists with the same elements and no repeated key are the
    same list. *)
Lemma sorted_perm_unique (l l' : list X) :
  NoDup (map key l) -> Permutation l l' ->
  StronglySorted (fun a b => key a <= key b) l -> StronglySorted (fun a b => key a <= key b) l' -> l = l'.
Proof.
  revert l'. induction l as [|a l IH]; intros l' Hnd Hp Hs Hs'.
  - now apply Permutation_nil in Hp.
  - destruct l' as [|b l']; [now apply Permutation_sym, Permutation_nil in Hp|].
    assert (Hab : a = b).
    { inversion Hs as [|? ? _ Ha]; inversion Hs' as [|? ? _ Hb]; subst.
      assert (Hina : In a (b :: l')) by (eapply Permutation_in; [exact Hp|now left]).
      assert (Hinb : In b (a :: l))
        by (eapply Permutation_in; [symmetry; exact Hp|now left]).
      destruct Hina as [->|Hina]; trivial.
      destruct Hinb as [->|Hinb]; trivial.
      rewrite Forall_forall in Ha, Hb.
      specialize (Ha _ Hinb). specialize (Hb _ Hina). cbn in Ha, Hb.
      assert (Hk : key a = key b) by lia.
      inversion Hnd as [|? ? Hnotin _]; subst.
      exfalso. apply Hnotin. rewrite Hk. now apply in_map. }
    subst b. f_equal.
    apply IH.
    + now inversion Hnd.
    + now apply Permutation_cons_inv in Hp.
    + now inversion Hs.
    + now inversion Hs'.
Qed.

Lemma sort_by_of_perm (l l' : list X) :
  NoDup (map key l) -> StronglySorted (fun a b => key a <= key b) l -> Permutation l l' ->
  sort_by (fun a b => key a - key b) l' = l.
Proof.
  intros Hnd Hs Hp. symmetry. apply sorted_perm_unique; trivial.
  - rewrite Hp. apply sort_by_perm.
  - apply sort_by_sorted.
Qed.
End SortByKey.

Lemma StronglySorted_app {X} (R : X -> X -> Prop) (l1 l2 : list X) :
  StronglySorted R (l1 ++ l2) <->
  StronglySorted R l1 /\ StronglySorted R l2 /\
  Forall (fun a => Forall (R a) l2) l1.
Proof.
  induction l1 as [|a l1 IH]; cbn [app].
  - split; [intros H; repeat split; trivial; constructor|tauto].
  - split.
    + intros H. inversion H as [|? ? Hs Ha]; subst.
      apply IH in Hs. destruct Hs as (H1 & H2 & H3).
      apply Forall_app in Ha. destruct Ha as [Ha1 Ha2].
      repeat split; trivial; constructor; trivial.
    + intros (H1 & H2 & H3). inversion H1; inversion H3; subst.
      constructor; [apply IH; auto|]. apply Forall_app. auto.
Qed.

Lemma StronglySorted_lt_NoDup (l : list Z) : StronglySorted Z.lt l -> NoDup l.
Proof.
  induction 1 as [|a l Hs IH Ha]; constructor; trivial.
  intros Hin. rewrite Forall_forall in Ha. specialize (Ha _ Hin). lia.
Qed.

Lemma chunks_of_spec {T} (array : list T) (size : Z) :
  0 < size ->
  len (chunks_of array size) = Math_ceil_div (len array) size /\
  Forall (fun c => len c <= size) (chunks_of array size) /\
  List.concat (chunks_of array size) = array.
Proof.
  intros Hs. unfold chunks_of.
  destruct (@chunkArray_chunks T array size Hs) as (chunks & -> & H). exact H.
Qed.

Section ParseOrder.
Import PdfParserWorkflow.

Lemma pages_of_sorted (totalPages : Z) : StronglySorted Z.lt (pages_of totalPages).
Proof.
  unfold pages_of. generalize (Z.to_nat totalPages) as n. intros n.
  generalize 0%nat as i. induction n as [|n IH]; intros i; cbn [seq map].
  - constructor.
  - constructor; [apply IH|].
    apply Forall_forall. intros p Hp. apply in_map_iff in Hp.
    destruct Hp as (j & <- & Hj). apply in_seq in Hj. lia.
Qed.

Lemma aggregateWaves_from (waves : list (list PageResult)) (allBlocks : list ContractBlock) :
  fold_left addBatchResults waves allBlocks
  = allBlocks ++
    flat_map (fun wave =>
                flat_map pr_blocks
                  (sort_by (fun a b => pr_pageNumber a - pr_pageNumber b) wave))
      waves.
Proof.
  revert allBlocks. induction waves as [|wave waves IH]; intros allBlocks; cbn [fold_left flat_map].
  - now rewrite app_nil_r.
  - rewrite IH. unfold addBatchResults. now rewrite <- app_assoc.
Qed.

Lemma tagBlocks_pageNumber (pageNumber0 : Z) (paragraphs : list Paragraph) :
  Forall (fun b => pageNumber b = pageNumber0) (tagBlocks pageNumber0 paragraphs).
Proof.
  unfold tagBlocks, map_indexed. generalize 0 as i.
  induction paragraphs as [|p ps IH]; intros i; cbn [map_indexed_from]; constructor; auto.
Qed.

Lemma flat_map_pages_sorted (extracted : Z -> list Paragraph) (pages : list Z) :
  StronglySorted Z.lt pages ->
  StronglySorted (fun a b => pageNumber a <= pageNumber b)
    (flat_map (fun p => tagBlocks p (extracted p)) pages) /\
  Forall (fun b => In (pageNumber b) pages)
    (flat_map (fun p => tagBlocks p (extracted p)) pages).
Proof.
  induction 1 as [|p pages Hs IH Hp]; cbn [flat_map]; [split; constructor|].
  destruct IH as [IH1 IH2]. pose proof (tagBlocks_pageNumber p (extracted p)) as Hpage.
  split.
  - apply StronglySorted_app. repeat split; trivial.
    + revert Hpage. generalize (tagBlocks p (extracted p)).
      induction l as [|b l IHl]; intros Hl; [constructor|].
      inversion Hl; subst. constructor; auto.
      eapply Forall_impl; [|eassumption]. cbn. intros; lia.
    + eapply Forall_impl; [|exact Hpage]. cbn. intros b Hb.
      eapply Forall_impl; [|exact IH2]. cbn. intros b' Hb'.
      rewrite Forall_forall in Hp. specialize (Hp _ Hb'). lia.
  - apply Forall_app. split.
    + eapply Forall_impl; [|exact Hpage]. cbn. intros b ->. now left.
    + eapply Forall_impl; [|exact IH2]. cbn. intros; now right.
Qed.

(** C7. The pages of each wave may reach the end of the wave in any order:
    whenever every wave holds the results of its pages, in whatever
    permutation, the aggregated blocks are those of the pages 1, 2, ... in
    this order, each page with its blocks in the order of extraction; the
    page numbers of the aggregated blocks ascend. *)
Theorem parse_order_independent (extracted : Z -> list Paragraph) (totalPages : Z)
    (waves : list (list PageResult)) :
  Forall2 (fun pageBatch arrived =>
             Permutation (map (pageResult extracted) pageBatch) arrived)
    (chunks_of (pages_of totalPages) PAGES_PER_BATCH) waves ->
  aggregateWaves waves
  = flat_map (fun p => tagBlocks p (extracted p)) (pages_of totalPages) /\
  StronglySorted (fun a b => pageNumber a <= pageNumber b) (aggregateWaves waves).
Proof.
  intros Hwaves.
  assert (Heq : aggregateWaves waves
                = flat_map (fun p => tagBlocks p (extracted p)) (pages_of totalPages)).
  { unfold aggregateWaves. rewrite aggregateWaves_from. cbn [app].
    pose proof (pages_of_sorted totalPages) as Hsorted.
    destruct (@chunks_of_spec Z (pages_of totalPages) PAGES_PER_BATCH) as (_ & _ & Hcat);
      [unfold PAGES_PER_BATCH; lia|].
    rewrite <- Hcat in Hsorted |- *. clear Hcat.
    induction Hwaves as [|pageBatch arrived chunks waves Hperm _ IH]; [reflexivity|].
    cbn [List.concat flat_map] in *. rewrite flat_map_app.
    apply StronglySorted_app in Hsorted. destruct Hsorted as (Hs1 & Hs2 & _).
    rewrite IH by exact Hs2. f_equal.
    rewrite (@sort_by_of_perm PageResult pr_pageNumber (map (pageResult extracted) pageBatch)).
    - rewrite flat_map_concat_map, map_map, <- flat_map_concat_map. reflexivity.
    - rewrite map_map. cbn [pageResult pr_pageNumber]. rewrite map_id.
      now apply StronglySorted_lt_NoDup.
    - clear - Hs1. induction Hs1 as [|p l Hs IH Hp]; cbn [map]; constructor; trivial.
      apply Forall_forall. intros r Hr. apply in_map_iff in Hr.
      destruct Hr as (q & <- & Hq). rewrite Forall_forall in Hp. specialize (Hp _ Hq).
      cbn. lia.
    - exact Hperm. }
  split; [exact Heq|]. rewrite Heq.
  apply flat_map_pages_sorted, pages_of_sorted.
Qed.

(** Two pages in one wave, the second one done first. *)
Lemma parse_order_independent_witness :
  let extracted := fun p : Z =>
    [ {| p_paragraph := "Section " +++ string_of_Z p; p_content := "text" |} ] in
  let waves := [[pageResult extracted 2; pageResult extracted 1]] in
  Forall2 (fun pageBatch arrived =>
             Permutation (map (pageResult extracted) pageBatch) arrived)
    (chunks_of (pages_of 2) PAGES_PER_BATCH) waves /\
  aggregateWaves waves = flat_map (fun p => tagBlocks p (extracted p)) (pages_of 2) /\
  StronglySorted (fun a b => pageNumber a <= pageNumber b) (aggregateWaves waves).
Proof.
  intros extracted waves.
  assert (H : Forall2 (fun pageBatch arrived =>
                         Permutation (map (pageResult extracted) pageBatch) arrived)
                (chunks_of (pages_of 2) PAGES_PER_BATCH) waves).
  { repeat constructor. }
  split; [exact H|]. exact (parse_order_independent extracted 2 waves H).
Defined.

End ParseOrder.

(** ** Reasoning about workflow code *)

Lemma wp_ret {J A} (a : A) (Q : Result A -> St J -> Prop) (s : St J) :
  Q (Ok a) s -> wp (ret a) Q s.
Proof. exact (fun H => H). Qed.

Lemma wp_bind {J A B} (m : W J A) (k : A -> W J B) (Q : Result B -> St J -> Prop)
    (s : St J) :
  wp m (fun r s' => match r with
                    | Ok a => wp (k a) Q s'
                    | Throw e => Q (Throw e) s'
                    end) s ->
  wp (bind m k) Q s.
Proof. unfold wp, bind. destruct (m s) as [[a|e] s']; cbn; trivial. Qed.

Lemma wp_conseq {J A} (m : W J A) (Q Q' : Result A -> St J -> Prop) (s : St J) :
  wp m Q s -> (forall r s', Q r s' -> Q' r s') -> wp m Q' s.
Proof. unfold wp. auto. Qed.

Lemma wp_step_do {J A} (name : string) (body : W J A) (Q : Result A -> St J -> Prop)
    (s : St J) :
  wp body Q (mkSt (job s) (writes s) (steps s ++ [name]) (calls s)) ->
  wp (step_do name body) Q s.
Proof. exact (fun H => H). Qed.

Lemma wp_db_update {J} (set : J -> J) (Q : Result unit -> St J -> Prop) (s : St J) :
  Q (Ok tt) (mkSt (set (job s)) (writes s ++ [set (job s)]) (steps s) (calls s)) ->
  wp (db_update set) Q s.
Proof. exact (fun H => H). Qed.

Lemma wp_try_catch {J A} (body : W J A) (handler : Thrown -> W J A)
    (Q : Result A -> St J -> Prop) (s : St J) :
  wp body (fun r s' => match r with
                       | Ok a => Q (Ok a) s'
                       | Throw e => wp (handler e) Q s'
                       end) s ->
  wp (try_catch body handler) Q s.
Proof. unfold wp, try_catch. destruct (body s) as [[a|e] s']; cbn; trivial. Qed.

Lemma wp_quiet {J A} (E : Thrown -> Prop) (m : W J A) (Q : Result A -> St J -> Prop)
    (s : St J) :
  quiet E m ->
  (forall a s', job s' = job s -> writes s' = writes s -> Q (Ok a) s') ->
  (forall e s', E e -> job s' = job s -> writes s' = writes s -> Q (Throw e) s') ->
  wp m Q s.
Proof.
  intros Hq Hok Hthrow. unfold wp. destruct (Hq s) as (Hj & Hw & He).
  destruct (fst (m s)); auto.
Qed.

Lemma wp_for_indexed {J X S} (body : Z -> X -> S -> W J S)
    (Inv : Z -> S -> St J -> Prop) (QT : Thrown -> St J -> Prop) :
  forall (items : list X) (i : Z) (acc : S) (s : St J),
    (forall k x acc s, i <= k < i + len items -> Inv k acc s ->
        wp (body k x acc) (fun r s' => match r with
                                       | Ok acc' => Inv (k + 1) acc' s'
                                       | Throw e => QT e s'
                                       end) s) ->
    Inv i acc s ->
    wp (for_indexed items i acc body)
       (fun r s' => match r with
                    | Ok acc' => Inv (i + len items) acc' s'
                    | Throw e => QT e s'
                    end) s.
Proof.
  induction items as [|x items IH]; intros i acc s Hbody Hinv; cbn [for_indexed].
  - apply wp_ret. unfold len. cbn. now rewrite Z.add_0_r.
  - apply wp_bind. eapply wp_conseq.
    + apply Hbody; trivial. unfold len. cbn [List.length]. lia.
    + intros [acc'|e] s' H; trivial.
      replace (i + len (x :: items)) with (i + 1 + len items)
        by (unfold len; cbn [List.length]; lia).
      apply IH; trivial. intros k y acc0 s0 Hk. apply Hbody.
      unfold len in *. cbn [List.length]. lia.
Qed.

Lemma quiet_ret {J A} (E : Thrown -> Prop) (a : A) : quiet E (@ret J A a).
Proof. intros s. cbn. auto. Qed.

Lemma quiet_bind {J A B} (E : Thrown -> Prop) (m : W J A) (k : A -> W J B) :
  quiet E m -> (forall a, quiet E (k a)) -> quiet E (bind m k).
Proof.
  intros Hm Hk s. unfold bind. destruct (Hm s) as (Hj & Hw & He).
  destruct (m s) as [[a|e] s']; cbn in *; auto.
  destruct (Hk a s') as (Hj' & Hw' & He'). rewrite Hj', Hw'. auto.
Qed.

Lemma quiet_step_task {J A} (E : Thrown -> Prop) (name : string) (t : Task A) :
  task_fails E t -> quiet E (@step_do J A name (run_task t)).
Proof. intros Ht s. cbn. auto. Qed.

Lemma quiet_Promise_all {J A} (E : Thrown -> Prop) (promises : list (W J A)) :
  Forall (quiet E) promises -> quiet E (Promise_all promises).
Proof.
  induction 1 as [|p rest Hp Hrest IH]; cbn [Promise_all].
  - apply quiet_ret.
  - apply quiet_bind; trivial. intros a. apply quiet_bind; trivial.
    intros r. apply quiet_ret.
Qed.

Lemma quiet_throws_only {J A} (E : Thrown -> Prop) (m : W J A) :
  quiet E m -> throws_only E m.
Proof. intros H s. apply H. Qed.

Lemma throws_only_ret {J A} (E : Thrown -> Prop) (a : A) : throws_only E (@ret J A a).
Proof. intros s. exact I. Qed.

Lemma throws_only_bind {J A B} (E : Thrown -> Prop) (m : W J A) (k : A -> W J B) :
  throws_only E m -> (forall a, throws_only E (k a)) -> throws_only E (bind m k).
Proof.
  intros Hm Hk s. unfold bind. specialize (Hm s).
  destruct (m s) as [[a|e] s']; cbn in *; auto. apply Hk.
Qed.

Lemma throws_only_step_do {J A} (E : Thrown -> Prop) (name : string) (body : W J A) :
  throws_only E body -> throws_only E (step_do name body).
Proof. intros H s. apply H. Qed.

Lemma throws_only_db_update {J} (E : Thrown -> Prop) (set : J -> J) :
  throws_only E (db_update set).
Proof. intros s. exact I. Qed.

Lemma throws_only_for_indexed {J X S} (E : Thrown -> Prop) (body : Z -> X -> S -> W J S) :
  (forall k x acc, throws_only E (body k x acc)) ->
  forall items i acc, throws_only E (for_indexed items i acc body).
Proof.
  intros Hbody. induction items as [|x items IH]; intros i acc; cbn [for_indexed].
  - apply throws_only_ret.
  - apply throws_only_bind; auto.
Qed.

Lemma bind_Ok_inv {J A B} (m : W J A) (k : A -> W J B) (s s' : St J) (b : B) :
  bind m k s = (Ok b, s') ->
  exists a s1, m s = (Ok a, s1) /\ k a s1 = (Ok b, s').
Proof.
  unfold bind. destruct (m s) as [[a|e] s1]; [|discriminate]. eauto.
Qed.

(** Tasks. *)

Lemma task_fails_bind {A B} (E : Thrown -> Prop) (t : Task A) (k : A -> Task B) :
  task_fails E t -> (forall a, task_fails E (k a)) -> task_fails E (task_bind t k).
Proof.
  unfold task_fails, task_bind. destruct t as [cs [a|e]]; cbn; trivial.
  intros _ Hk. specialize (Hk a). destruct (k a) as [cs' r]. exact Hk.
Qed.

Lemma task_fails_catch {A} (E : Thrown -> Prop) (t : Task A)
    (handler : Thrown -> Task A) :
  (forall e, task_fails E (handler e)) -> task_fails E (task_catch t handler).
Proof.
  unfold task_fails, task_catch. destruct t as [cs [a|e]]; cbn; trivial.
  intros Hh. specialize (Hh e). destruct (handler e) as [cs' r]. exact Hh.
Qed.

Lemma task_fails_throw {A} (E : Thrown -> Prop) (e : Thrown) :
  E e -> task_fails E (@task_throw A e).
Proof. exact (fun H => H). Qed.

Lemma task_fails_ret {A} (E : Thrown -> Prop) (a : A) : task_fails E (task_ret a).
Proof. exact I. Qed.

Lemma task_fails_all {A} (E : Thrown -> Prop) (tasks : list (Task A)) :
  Forall (task_fails E) tasks -> task_fails E (task_all tasks).
Proof.
  induction 1 as [|t rest Ht Hrest IH]; cbn [task_all].
  - exact I.
  - apply task_fails_bind; trivial. intros a. apply task_fails_bind; trivial.
    intros r. exact I.
Qed.

Lemma message_or_has_message (dflt : string) (e : Thrown) :
  dflt <> "" -> has_message e -> message_or dflt e <> "".
Proof. destruct e; cbn; tauto. Qed.

(** The write history. *)

Lemma StronglySorted_snoc {X} (R : X -> X -> Prop) (l : list X) (x : X) :
  StronglySorted R l -> Forall (fun a => R a x) l -> StronglySorted R (l ++ [x]).
Proof.
  intros Hs Hx. apply StronglySorted_app. repeat split; trivial.
  - repeat constructor.
  - eapply Forall_impl; [|exact Hx]. cbn. auto.
Qed.

Lemma hist_ok_update {J} (progress : J -> Z) (snap : J -> Prop) (set : J -> J) (s : St J) :
  hist_ok progress snap s ->
  progress (job s) <= progress (set (job s)) ->
  snap (set (job s)) ->
  hist_ok progress snap
    (mkSt (set (job s)) (writes s ++ [set (job s)]) (steps s) (calls s)).
Proof.
  intros (Hs & Hle & Hsnap) Hmono Hnew. unfold hist_ok. cbn [job writes].
  split; [|split].
  - apply StronglySorted_snoc; trivial.
    eapply Forall_impl; [|exact Hle]. cbn. intros; lia.
  - apply Forall_app. split.
    + eapply Forall_impl; [|exact Hle]. cbn. intros; lia.
    + constructor; [lia|constructor].
  - apply Forall_app. split; trivial. constructor; [trivial|constructor].
Qed.

Lemma hist_ok_same {J} (progress : J -> Z) (snap : J -> Prop) (s s' : St J) :
  job s' = job s -> writes s' = writes s ->
  hist_ok progress snap s -> hist_ok progress snap s'.
Proof. unfold hist_ok. intros -> ->. trivial. Qed.

(** ** The PDF parser workflow: failures *)

Ltac solve_has_message :=
  solve [ cbn; discriminate
        | apply task_fails_throw; cbn; discriminate ].

Section PdfFailures.
Import PdfParserWorkflow.

Lemma getObject_fails (w : World) (key : string) :
  task_fails has_message (getObject w key).
Proof. apply task_fails_catch. intros e. solve_has_message. Qed.

Lemma parsePdfPage_fails (w : World) (pdfBase64 : string) (pageNumber0 : Z)
    (language : string) :
  task_fails has_message (parsePdfPage w pdfBase64 pageNumber0 language).
Proof.
  unfold parsePdfPage. destruct (falsy (OPENROUTER_API_KEY w)); [solve_has_message|].
  apply task_fails_catch. intros e. solve_has_message.
Qed.

Lemma parsePageStep_fails (w : World) (key : string) (pageNumber0 : Z) (language : string) :
  task_fails has_message (parsePageStep w key pageNumber0 language).
Proof.
  apply task_fails_bind; [apply getObject_fails|]. intros pdfBase64.
  apply task_fails_bind; [apply parsePdfPage_fails|]. intros b. exact I.
Qed.

Lemma reviewBlock_fails (w : World) (block : ContractBlock) (blockIndex0 : Z)
    (language : string) :
  task_fails has_message (reviewBlock w block blockIndex0 language).
Proof.
  unfold reviewBlock. destruct (falsy (OPENROUTER_API_KEY w)); [solve_has_message|].
  apply task_fails_catch. intros e. solve_has_message.
Qed.

Lemma generateDocumentSummary_fails (w : World) (reviews0 : list ContractBlockReview)
    (blocks0 : list ContractBlock) (language : string) :
  task_fails has_message (generateDocumentSummary w reviews0 blocks0 language).
Proof.
  unfold generateDocumentSummary.
  destruct (falsy (OPENROUTER_API_KEY w)); [solve_has_message|].
  apply task_fails_catch. intros e. solve_has_message.
Qed.

Lemma map_indexed_from_Forall {X Y} (P : Y -> Prop) (f : X -> Z -> Y) (l : list X) :
  (forall x i, P (f x i)) -> forall i, Forall P (map_indexed_from i f l).
Proof.
  intros Hf. induction l as [|x l IH]; intros i; cbn [map_indexed_from]; constructor; auto.
Qed.

Lemma parseWave_quiet (w : World) (params : PdfParserParams) (language : string)
    (pageBatch : list Z) :
  quiet has_message
    (Promise_all
       (map (fun pageNumber =>
               @step_do Research _ ("parse-page-" +++ string_of_Z pageNumber)
                 (run_task (parsePageStep w (contractKey params) pageNumber language)))
          pageBatch)).
Proof.
  apply quiet_Promise_all. apply Forall_map, Forall_forall. intros p _.
  apply quiet_step_task, parsePageStep_fails.
Qed.

Lemma reviewWave_quiet (w : World) (language : string) (batchIndex : Z)
    (batch : list ContractBlock) :
  quiet has_message
    (@step_do Research _ ("review-batch-" +++ string_of_Z batchIndex)
       (run_task
          (task_all
             (map_indexed
                (fun block idx => reviewBlock w block (batchIndex * 30 + idx) language)
                batch)))).
Proof.
  apply quiet_step_task, task_fails_all, map_indexed_from_Forall.
  intros block i. apply reviewBlock_fails.
Qed.

Lemma parseStage_throws (w : World) (params : PdfParserParams) (language : string) :
  throws_only has_message (parseStage w params language).
Proof.
  unfold parseStage. apply throws_only_for_indexed. intros k pageBatch acc.
  apply throws_only_bind; [apply quiet_throws_only, parseWave_quiet|]. intros r.
  apply throws_only_bind; [apply throws_only_step_do, throws_only_db_update|].
  intros _. apply throws_only_ret.
Qed.

Lemma reviewStage_throws (w : World) (allBlocks : list ContractBlock) (language : string) :
  throws_only has_message (reviewStage w allBlocks language).
Proof.
  unfold reviewStage. destruct (0 <? len allBlocks); [|apply throws_only_ret].
  apply throws_only_for_indexed. intros k batch acc.
  apply throws_only_bind; [apply quiet_throws_only, reviewWave_quiet|]. intros r.
  apply throws_only_bind; [apply throws_only_step_do, throws_only_db_update|].
  intros _. apply throws_only_ret.
Qed.

Lemma summaryStage_throws (w : World) (allReviews : list ContractBlockReview)
    (allBlocks : list ContractBlock) (language : string) :
  throws_only has_message (summaryStage w allReviews allBlocks language).
Proof.
  unfold summaryStage. destruct (0 <? len allReviews); [|apply throws_only_ret].
  apply throws_only_bind; [apply throws_only_step_do, throws_only_db_update|].
  intros _. apply throws_only_bind.
  - apply quiet_throws_only, quiet_step_task, generateDocumentSummary_fails.
  - intros d. apply throws_only_ret.
Qed.

Lemma finalizeResults_spec (params : PdfParserParams) (allBlocks : list ContractBlock)
    (allReviews : list ContractBlockReview) (documentSummary : option DocumentSummary)
    (s : St Research) :
  exists results0 s',
    finalizeResults params allBlocks allReviews documentSummary s
    = (Ok (RunCompleted (researchId params) results0), s') /\
    status (job s') = "completed" /\ progress (job s') = 100 /\
    currentStage (job s') = Some "completed" /\ results (job s') = Some results0.
Proof. eexists _, _. cbn. repeat split. Qed.

Lemma runStages_throws (w : World) (params : PdfParserParams) (language : string) :
  throws_only has_message (runStages w params language).
Proof.
  unfold runStages.
  apply throws_only_bind; [apply throws_only_step_do, throws_only_db_update|]. intros _.
  apply throws_only_bind; [apply parseStage_throws|]. intros allBlocks.
  apply throws_only_bind; [apply throws_only_step_do, throws_only_db_update|]. intros _.
  apply throws_only_bind; [apply reviewStage_throws|]. intros allReviews.
  apply throws_only_bind; [apply summaryStage_throws|]. intros documentSummary.
  intros s. destruct (finalizeResults_spec params allBlocks allReviews documentSummary s)
    as (r & s' & -> & _). exact I.
Qed.

Lemma runStages_completed (w : World) (params : PdfParserParams) (language : string)
    (s s' : St Research) (r : RunResult) :
  runStages w params language s = (Ok r, s') ->
  status (job s') = "completed" /\ progress (job s') = 100 /\
  exists results0, r = RunCompleted (researchId params) results0 /\
                   results (job s') = Some results0.
Proof.
  unfold runStages. intros H.
  apply bind_Ok_inv in H. destruct H as (? & s1 & _ & H).
  apply bind_Ok_inv in H. destruct H as (allBlocks & s2 & _ & H).
  apply bind_Ok_inv in H. destruct H as (? & s3 & _ & H).
  apply bind_Ok_inv in H. destruct H as (allReviews & s4 & _ & H).
  apply bind_Ok_inv in H. destruct H as (documentSummary & s5 & _ & H).
  destruct (finalizeResults_spec params allBlocks allReviews documentSummary s5)
    as (r0 & s6 & Hf & Hst & Hp & _ & Hr).
  rewrite Hf in H. inversion H; subst. eauto.
Qed.

(** The failure guard of the PDF parser workflow. *)
Lemma pdf_run_guard (w : World) (params : PdfParserParams) (s : St Research) :
  exists r s',
    run w params s = (Ok r, s') /\
    (status (job s') = "completed" \/ status (job s') = "failed") /\
    (forall e s1,
        runStages w params (getLanguageName (match locale params with
                                             | Some l => l
                                             | None => "en"
                                             end)) s = (Throw e, s1) ->
        exists errorMessage0,
          errorMessage0 <> "" /\
          errorMessage0 = message_or "Unknown error occurred" e /\
          r = RunFailed (researchId params) errorMessage0 /\
          status (job s') = "failed" /\
          currentStage (job s') = Some "error" /\
          errorMessage (job s') = Some errorMessage0 /\
          progress (job s') = progress (job s1)).
Proof.
  unfold run, try_catch.
  set (language := getLanguageName _).
  pose proof (runStages_throws w params language s) as Hthrow.
  destruct (runStages w params language s) as [[r|e] s1] eqn:Hrun.
  - apply runStages_completed in Hrun. destruct Hrun as (Hst & _).
    exists r, s1. split; [reflexivity|]. split; [now left|]. intros e s2 H. discriminate.
  - cbn in Hthrow. eexists _, _. split; [reflexivity|]. cbn.
    split; [now right|]. intros e' s2 H. inversion H; subst.
    eexists. split; [|repeat split].
    apply message_or_has_message; [discriminate|trivial].
Qed.

End PdfFailures.

(** ** The legal compliance workflow: failures *)

Section ComplianceFailures.
Import LegalComplianceWorkflow.

Lemma loadLegalCodes_fails (cfg : Config) (w : World) :
  task_fails has_message (loadLegalCodes cfg w).
Proof. apply task_fails_catch. intros e. solve_has_message. Qed.

Lemma identifyRelevantArticlesBatch_fails (w : World) (batch : list ContractBlock)
    (startBlockIndex : Z) (legalBatches : list (list LegalArticle)) (language : string) :
  task_fails has_message
    (identifyRelevantArticlesBatch w batch startBlockIndex legalBatches language).
Proof.
  unfold identifyRelevantArticlesBatch.
  destruct (falsy (OPENROUTER_API_KEY w)); [solve_has_message|].
  apply task_fails_catch. intros e. solve_has_message.
Qed.

Lemma performDeepAnalysis_fails (w : World) (block : option ContractBlock)
    (blockIndex : Z) (article : RelevantArticle) (articles : list LegalArticle)
    (language : string) :
  task_fails has_message (performDeepAnalysis w block blockIndex article articles language).
Proof.
  unfold performDeepAnalysis.
  destruct (falsy (OPENROUTER_API_KEY w)); [solve_has_message|].
  apply task_fails_catch. intros e. solve_has_message.
Qed.

Lemma phase1BatchStep_fails (cfg : Config) (w : World) (batch : list ContractBlock)
    (startBlockIndex : Z) (language : string) :
  task_fails has_message (phase1BatchStep cfg w batch startBlockIndex language).
Proof.
  apply task_fails_bind; [apply loadLegalCodes_fails|]. intros legalArticles.
  apply identifyRelevantArticlesBatch_fails.
Qed.

Lemma phase2TaskStep_fails (cfg : Config) (w : World) (task : ReviewTask)
    (language : string) :
  task_fails has_message (phase2TaskStep cfg w task language).
Proof.
  apply task_fails_bind; [apply loadLegalCodes_fails|]. intros legalArticles.
  apply performDeepAnalysis_fails.
Qed.

Lemma phase1Wave_quiet (cfg : Config) (w : World) (language : string)
    (chunk : list (list ContractBlock * Z)) :
  quiet has_message
    (Promise_all
       (map (fun '(batch, batchIndex) =>
               @step_do Compliance _ ("phase1-batch-" +++ string_of_Z batchIndex)
                 (run_task (phase1BatchStep cfg w batch
                              (batchIndex * CONTRACT_BLOCKS_PER_BATCH) language)))
          chunk)).
Proof.
  apply quiet_Promise_all. apply Forall_map, Forall_forall. intros [batch i] _.
  apply quiet_step_task, phase1BatchStep_fails.
Qed.

Lemma phase2Wave_quiet (cfg : Config) (w : World) (language : string) (chunkIndex : Z)
    (chunk : list ReviewTask) :
  quiet has_message
    (Promise_all
       (map_indexed
          (fun task idx =>
             @step_do Compliance _
               ("phase2-task-" +++ string_of_Z (chunkIndex * MAX_PARALLEL_PHASE2 + idx))
               (run_task (phase2TaskStep cfg w task language)))
          chunk)).
Proof.
  apply quiet_Promise_all, map_indexed_from_Forall. intros task i.
  apply quiet_step_task, phase2TaskStep_fails.
Qed.

Lemma phase1Stage_throws (cfg : Config) (w : World) (params : LegalComplianceParams)
    (language : string) :
  throws_only has_message (phase1Stage cfg w params language).
Proof.
  unfold phase1Stage. apply throws_only_for_indexed. intros k chunk acc.
  apply throws_only_bind; [apply quiet_throws_only, phase1Wave_quiet|]. intros r.
  apply throws_only_bind; [apply throws_only_step_do, throws_only_db_update|].
  intros _. apply throws_only_ret.
Qed.

Lemma phase2Stage_throws (cfg : Config) (w : World) (params : LegalComplianceParams)
    (phase1Results : list BlockResult) (language : string) :
  throws_only has_message (phase2Stage cfg w params phase1Results language).
Proof.
  unfold phase2Stage.
  destruct (len (filter needsDeepReview phase1Results) >? 0); [|apply throws_only_ret].
  destruct (deriveReviewTasks cfg (contractBlocks params)
              (filter needsDeepReview phase1Results)) as [reviewTasks skipped].
  apply throws_only_for_indexed. intros k chunk acc.
  apply throws_only_bind; [apply quiet_throws_only, phase2Wave_quiet|]. intros r.
  apply throws_only_bind; [apply throws_only_step_do, throws_only_db_update|].
  intros _. apply throws_only_ret.
Qed.

Lemma finalizeComplianceResults_spec (params : LegalComplianceParams)
    (phase1Results : list BlockResult) (phase2Results : list DeepAnalysisResult)
    (s : St Compliance) :
  exists results0 s',
    finalizeComplianceResults params phase1Results phase2Results s
    = (Ok (RunCompleted (complianceId params) (researchId params) results0), s') /\
    status (job s') = "completed" /\ progress (job s') = 100 /\
    currentStage (job s') = Some "compliance_completed" /\
    results (job s') = Some results0.
Proof. eexists _, _. cbn. repeat split. Qed.

Lemma compliance_runStages_throws (cfg : Config) (w : World)
    (params : LegalComplianceParams) (language : string) :
  throws_only has_message (runStages cfg w params language).
Proof.
  unfold runStages.
  apply throws_only_bind; [apply throws_only_step_do, throws_only_db_update|]. intros _.
  apply throws_only_bind; [apply throws_only_step_do, throws_only_db_update|]. intros _.
  apply throws_only_bind; [apply phase1Stage_throws|]. intros phase1Results.
  apply throws_only_bind; [apply throws_only_step_do, throws_only_db_update|]. intros _.
  apply throws_only_bind; [apply phase2Stage_throws|]. intros phase2Results.
  intros s. destruct (finalizeComplianceResults_spec params phase1Results phase2Results s)
    as (r & s' & -> & _). exact I.
Qed.

Lemma compliance_runStages_completed (cfg : Config) (w : World)
    (params : LegalComplianceParams) (language : string)
    (s s' : St Compliance) (r : RunResult) :
  runStages cfg w params language s = (Ok r, s') ->
  status (job s') = "completed" /\ progress (job s') = 100 /\
  exists results0, r = RunCompleted (complianceId params) (researchId params) results0 /\
                   results (job s') = Some results0.
Proof.
  unfold runStages. intros H.
  apply bind_Ok_inv in H. destruct H as (? & s1 & _ & H).
  apply bind_Ok_inv in H. destruct H as (? & s2 & _ & H).
  apply bind_Ok_inv in H. destruct H as (phase1Results & s3 & _ & H).
  apply bind_Ok_inv in H. destruct H as (? & s4 & _ & H).
  apply bind_Ok_inv in H. destruct H as (phase2Results & s5 & _ & H).
  destruct (finalizeComplianceResults_spec params phase1Results phase2Results s5)
    as (r0 & s6 & Hf & Hst & Hp & _ & Hr).
  rewrite Hf in H. inversion H; subst. eauto.
Qed.

(** The failure guard of the legal compliance workflow. *)
Lemma compliance_run_guard (cfg : Config) (w : World) (params : LegalComplianceParams)
    (s : St Compliance) :
  exists r s',
    run cfg w params s = (Ok r, s') /\
    (status (job s') = "completed" \/ status (job s') = "failed") /\
    (forall e s1,
        runStages cfg w params (getLanguageName (match locale params with
                                                 | Some l => l
                                                 | None => "en"
                                                 end)) s = (Throw e, s1) ->
        exists errorMessage0,
          errorMessage0 <> "" /\
          errorMessage0 = message_or "Unknown error occurred" e /\
          r = RunFailed (complianceId params) (researchId params) errorMessage0 /\
          status (job s') = "failed" /\
          currentStage (job s') = Some "error" /\
          errorMessage (job s') = Some errorMessage0 /\
          progress (job s') = progress (job s1)).
Proof.
  unfold run, try_catch.
  set (language := getLanguageName _).
  pose proof (compliance_runStages_throws cfg w params language s) as Hthrow.
  destruct (runStages cfg w params language s) as [[r|e] s1] eqn:Hrun.
  - apply compliance_runStages_completed in Hrun. destruct Hrun as (Hst & _).
    exists r, s1. split; [reflexivity|]. split; [now left|]. intros e s2 H. discriminate.
  - cbn in Hthrow. eexists _, _. split; [reflexivity|]. cbn.
    split; [now right|]. intros e' s2 H. inversion H; subst.
    eexists. split; [|repeat split].
    apply message_or_has_message; [discriminate|trivial].
Qed.

End ComplianceFailures.

(** ** The progress of a job *)

Lemma Math_round_div_zero (b : Z) : 0 <= b -> Math_round_div 0 b = 0.
Proof.
  intros Hb. unfold Math_round_div. destruct (Z.eq_dec b 0) as [->|Hne]; [reflexivity|].
  apply Z.div_small. lia.
Qed.

Lemma Math_round_div_upto (c k n : Z) :
  0 <= c -> 0 <= k <= n -> 0 <= Math_round_div (c * k) n <= c.
Proof.
  intros Hc Hk. destruct (Z.eq_dec n 0) as [->|Hn].
  - assert (k = 0) by lia. subst k. rewrite Z.mul_0_r. cbn. lia.
  - split; [apply Math_round_div_nonneg; nia|].
    rewrite <- (@Math_round_div_full c n) at 2 by lia.
    apply Math_round_div_mono; nia.
Qed.

Lemma wp_step_update {J} (name : string) (set : J -> J)
    (Q : Result unit -> St J -> Prop) (s : St J) :
  (forall s', job s' = set (job s) -> writes s' = writes s ++ [set (job s)] ->
              Q (Ok tt) s') ->
  wp (step_do name (db_update set)) Q s.
Proof. intros H. apply wp_step_do, wp_db_update, H; reflexivity. Qed.

Lemma hist_ok_write {J} (progress : J -> Z) (snap : J -> Prop) (set : J -> J)
    (s s' : St J) :
  job s' = set (job s) -> writes s' = writes s ++ [set (job s)] ->
  hist_ok progress snap s ->
  progress (job s) <= progress (set (job s)) ->
  snap (set (job s)) ->
  hist_ok progress snap s'.
Proof.
  intros Hj Hw Hh Hmono Hsnap.
  pose proof (@hist_ok_update J progress snap set s Hh Hmono Hsnap) as H.
  unfold hist_ok in *. cbn [job writes] in H. now rewrite Hj, Hw.
Qed.

Lemma hist_ok_snoc {J} (progress : J -> Z) (snap : J -> Prop) (s s' : St J) (j' : J) :
  job s' = j' -> writes s' = writes s ++ [j'] ->
  hist_ok progress snap s ->
  progress (job s) <= progress j' -> snap j' ->
  hist_ok progress snap s'.
Proof.
  intros Hj Hw. apply (@hist_ok_write J progress snap (fun _ => j') s s' Hj Hw).
Qed.

Section PdfProgress.
Import PdfParserWorkflow.

Lemma in_progress_upto_same (b : Z) (s s' : St Research) :
  job s' = job s -> writes s' = writes s ->
  in_progress_upto b s -> in_progress_upto b s'.
Proof.
  intros Hj Hw (Hh & Hst & Hp). unfold in_progress_upto. rewrite Hj.
  split; [eapply hist_ok_same; eauto|split; [trivial|lia]].
Qed.

Lemma in_progress_upto_weaken (b b' : Z) (s : St Research) :
  b <= b' -> in_progress_upto b s -> in_progress_upto b' s.
Proof. intros Hb (Hh & Hst & Hp). split; [trivial|split; [trivial|lia]]. Qed.

(** A write that keeps the status and sets the progress to [p]. *)
Lemma in_progress_upto_write (b p : Z) (set : Research -> Research) (s s' : St Research) :
  job s' = set (job s) -> writes s' = writes s ++ [set (job s)] ->
  in_progress_upto b s ->
  status (set (job s)) = status (job s) -> progress (set (job s)) = p ->
  progress (job s) <= p <= 100 ->
  in_progress_upto p s'.
Proof.
  intros Hj Hw (Hh & Hst & Hp) Hstatus Hprog Hle.
  unfold in_progress_upto. rewrite Hj, Hstatus, Hprog.
  split; [|split; [trivial|lia]].
  eapply hist_ok_write; eauto; [lia|].
  unfold snapshot_ok. rewrite Hstatus, Hprog, Hst. split; [lia|discriminate].
Qed.

Lemma wp_progress_step (name stage : string) (p b : Z)
    (Q : Result unit -> St Research -> Prop) (s : St Research) :
  in_progress_upto b s -> progress (job s) <= p <= 100 ->
  (forall s', in_progress_upto p s' -> Q (Ok tt) s') ->
  wp (step_do name
        (db_update (fun j => with_progress p (with_currentStage stage j)))) Q s.
Proof.
  intros Hs Hp HQ. apply wp_step_update. intros s' Hj Hw. apply HQ.
  apply (@in_progress_upto_write b p
           (fun j => with_progress p (with_currentStage stage j)) s s' Hj Hw Hs);
    [reflexivity|reflexivity|exact Hp].
Qed.

Lemma wp_stage_step (name stage : string) (b : Z)
    (Q : Result unit -> St Research -> Prop) (s : St Research) :
  in_progress_upto b s -> b <= 100 ->
  (forall s', in_progress_upto b s' -> Q (Ok tt) s') ->
  wp (step_do name (db_update (with_currentStage stage))) Q s.
Proof.
  intros Hs Hb HQ. apply wp_step_update. intros s' Hj Hw. apply HQ.
  pose proof Hs as (_ & _ & Hp).
  apply in_progress_upto_weaken with (b := progress (job s)); [lia|].
  apply (@in_progress_upto_write b (progress (job s))
           (with_currentStage stage) s s' Hj Hw Hs);
    [reflexivity|reflexivity|lia].
Qed.

Lemma parseStage_progress (w : World) (params : PdfParserParams) (language : string)
    (s : St Research) :
  in_progress_upto 0 s ->
  wp (parseStage w params language)
     (fun r s' => match r with
                  | Ok _ => in_progress_upto 50 s'
                  | Throw _ => in_progress_upto 100 s'
                  end) s.
Proof.
  intros Hs. unfold parseStage.
  set (pageBatches := chunks_of (pages_of (totalPages params)) PAGES_PER_BATCH).
  eapply wp_conseq.
  - apply (@wp_for_indexed Research _ _ _
             (fun k _ s' => in_progress_upto (Math_round_div (50 * k) (len pageBatches)) s')
             (fun _ s' => in_progress_upto 100 s')).
    + intros k pageBatch acc s0 Hk Hinv.
      pose proof (len_nonneg pageBatches).
      pose proof (@Math_round_div_upto 50 k (len pageBatches)).
      pose proof (@Math_round_div_upto 50 (k + 1) (len pageBatches)).
      apply wp_bind.
      eapply wp_quiet; [apply parseWave_quiet| |].
      * intros batchResults s1 Hj Hw. apply wp_bind.
        eapply wp_progress_step.
        -- eapply in_progress_upto_same; eauto.
        -- destruct Hinv as (_ & _ & Hp). rewrite Hj.
           assert (Math_round_div (50 * k) (len pageBatches)
                   <= Math_round_div (50 * (k + 1)) (len pageBatches))
             by (apply Math_round_div_mono; lia).
           lia.
        -- intros s2 H2. apply wp_ret. exact H2.
      * intros e s1 _ Hj Hw. eapply in_progress_upto_same; eauto.
        eapply in_progress_upto_weaken; [|exact Hinv]. lia.
    + rewrite Z.mul_0_r, Math_round_div_zero by apply len_nonneg. exact Hs.
  - intros [allBlocks|e] s'; trivial. cbn beta.
    apply in_progress_upto_weaken.
    pose proof (len_nonneg pageBatches).
    pose proof (@Math_round_div_upto 50 (0 + len pageBatches) (len pageBatches)). lia.
Qed.

Lemma reviewStage_progress (w : World) (allBlocks : list ContractBlock) (language : string)
    (s : St Research) :
  in_progress_upto 50 s ->
  wp (reviewStage w allBlocks language)
     (fun _ s' => in_progress_upto 100 s') s.
Proof.
  intros Hs. unfold reviewStage.
  destruct (0 <? len allBlocks);
    [|apply wp_ret; eapply in_progress_upto_weaken; [|exact Hs]; lia].
  set (batches := chunks_of allBlocks 30).
  eapply wp_conseq.
  - apply (@wp_for_indexed Research _ _ _
             (fun k _ s' => in_progress_upto (50 + Math_round_div (50 * k) (len batches)) s')
             (fun _ s' => in_progress_upto 100 s')).
    + intros k batch acc s0 Hk Hinv.
      pose proof (len_nonneg batches).
      pose proof (@Math_round_div_upto 50 k (len batches)).
      pose proof (@Math_round_div_upto 50 (k + 1) (len batches)).
      apply wp_bind.
      eapply wp_quiet; [apply reviewWave_quiet| |].
      * intros batchReviews s1 Hj Hw. apply wp_bind.
        eapply wp_progress_step.
        -- eapply in_progress_upto_same; eauto.
        -- destruct Hinv as (_ & _ & Hp). rewrite Hj.
           assert (Math_round_div (50 * k) (len batches)
                   <= Math_round_div (50 * (k + 1)) (len batches))
             by (apply Math_round_div_mono; lia).
           lia.
        -- intros s2 H2. apply wp_ret. exact H2.
      * intros e s1 _ Hj Hw. eapply in_progress_upto_same; eauto.
        eapply in_progress_upto_weaken; [|exact Hinv]. lia.
    + rewrite Z.mul_0_r, Math_round_div_zero by apply len_nonneg. exact Hs.
  - intros [allReviews|e] s'; trivial. cbn beta.
    apply in_progress_upto_weaken.
    pose proof (len_nonneg batches).
    pose proof (@Math_round_div_upto 50 (0 + len batches) (len batches)). lia.
Qed.

Lemma summaryStage_progress (w : World) (allReviews : list ContractBlockReview)
    (allBlocks : list ContractBlock) (language : string) (s : St Research) :
  in_progress_upto 100 s ->
  wp (summaryStage w allReviews allBlocks language)
     (fun _ s' => in_progress_upto 100 s') s.
Proof.
  intros Hs. unfold summaryStage.
  destruct (0 <? len allReviews); [|now apply wp_ret].
  apply wp_bind. eapply wp_stage_step; [exact Hs|lia|]. intros s1 H1.
  apply wp_bind.
  eapply wp_quiet; [apply quiet_step_task, generateDocumentSummary_fails| |].
  - intros d s2 Hj Hw. apply wp_ret. eapply in_progress_upto_same; eauto.
  - intros e s2 _ Hj Hw. eapply in_progress_upto_same; eauto.
Qed.

(** The write history of a run of the PDF parser workflow. *)
Lemma pdf_run_history (w : World) (params : PdfParserParams) :
  hist_ok progress snapshot_ok (snd (run w params (initial pendingResearch))).
Proof.
  change (wp (run w params) (fun _ s => hist_ok progress snapshot_ok s)
            (initial pendingResearch)).
  unfold run. apply wp_try_catch.
  set (language := getLanguageName _).
  assert (Hbody : wp (runStages w params language)
                    (fun r s => match r with
                                | Ok _ => hist_ok progress snapshot_ok s
                                | Throw _ => in_progress_upto 100 s
                                end) (initial pendingResearch)).
  { unfold runStages.
    apply wp_bind, wp_step_update. intros s1 Hj1 Hw1.
    assert (H1 : in_progress_upto 0 s1).
    { unfold in_progress_upto. rewrite Hj1. cbn.
      split; [|split; [reflexivity|lia]].
      apply (@hist_ok_write _ progress snapshot_ok
               (fun j => with_progress 0
                           (with_currentStage "parsing" (with_status "in_progress" j)))
               (initial pendingResearch) s1 Hj1 Hw1).
      - split; [constructor|split; constructor].
      - cbn. lia.
      - unfold snapshot_ok. cbn. split; [lia|discriminate]. }
    apply wp_bind. eapply wp_conseq; [apply parseStage_progress, H1|].
    intros [allBlocks|e] s2 H2; trivial.
    apply wp_bind. eapply wp_progress_step;
      [exact H2|destruct H2 as (_ & _ & ?); lia|]. intros s3 H3.
    apply wp_bind. eapply wp_conseq; [apply reviewStage_progress, H3|].
    intros [allReviews|e] s4 H4; trivial.
    apply wp_bind. eapply wp_conseq; [apply summaryStage_progress, H4|].
    intros [documentSummary|e] s5 H5; trivial.
    unfold finalizeResults. apply wp_step_do, wp_bind, wp_db_update, wp_ret.
    destruct H5 as (Hh & Hst & Hp).
    eapply (@hist_ok_snoc _ progress snapshot_ok s5); [reflexivity|reflexivity|exact Hh| |].
    - cbn. lia.
    - unfold snapshot_ok. cbn. split; [lia|reflexivity]. }
  eapply wp_conseq; [exact Hbody|].
  intros [r|e] s H; trivial.
  unfold markWorkflowFailed. apply wp_step_do, wp_bind, wp_db_update, wp_ret.
  destruct H as (Hh & Hst & Hp).
  eapply (@hist_ok_snoc _ progress snapshot_ok s); [reflexivity|reflexivity|exact Hh| |].
  - cbn. lia.
  - unfold snapshot_ok. cbn. split; [lia|discriminate].
Qed.

End PdfProgress.

Section ComplianceProgress.
Import LegalComplianceWorkflow.

Lemma compliance_upto_same (b : Z) (s s' : St Compliance) :
  job s' = job s -> writes s' = writes s ->
  in_progress_upto b s -> in_progress_upto b s'.
Proof.
  intros Hj Hw (Hh & Hst & Hp). unfold in_progress_upto. rewrite Hj.
  split; [eapply hist_ok_same; eauto|split; [trivial|lia]].
Qed.

Lemma compliance_upto_weaken (b b' : Z) (s : St Compliance) :
  b <= b' -> in_progress_upto b s -> in_progress_upto b' s.
Proof. intros Hb (Hh & Hst & Hp). split; [trivial|split; [trivial|lia]]. Qed.

(** A write that keeps the status and sets the progress to [p], below
    100. *)
Lemma compliance_upto_write (b p : Z) (set : Compliance -> Compliance)
    (s s' : St Compliance) :
  job s' = set (job s) -> writes s' = writes s ++ [set (job s)] ->
  in_progress_upto b s ->
  status (set (job s)) = status (job s) -> progress (set (job s)) = p ->
  progress (job s) <= p <= 90 ->
  in_progress_upto p s'.
Proof.
  intros Hj Hw (Hh & Hst & Hp) Hstatus Hprog Hle.
  unfold in_progress_upto. rewrite Hj, Hstatus, Hprog.
  split; [|split; [trivial|lia]].
  eapply hist_ok_write; eauto; [lia|].
  unfold snapshot_ok. rewrite Hstatus, Hprog, Hst.
  split; [lia|]. split; [lia|discriminate].
Qed.

Lemma wp_compliance_progress_step (name : string) (p b : Z)
    (Q : Result unit -> St Compliance -> Prop) (s : St Compliance) :
  in_progress_upto b s -> progress (job s) <= p <= 90 ->
  (forall s', in_progress_upto p s' -> Q (Ok tt) s') ->
  wp (step_do name (db_update (with_progress p))) Q s.
Proof.
  intros Hs Hp HQ. apply wp_step_update. intros s' Hj Hw. apply HQ.
  apply (@compliance_upto_write b p (with_progress p) s s' Hj Hw Hs);
    [reflexivity|reflexivity|exact Hp].
Qed.

Lemma wp_compliance_stage_step (name stage : string) (p b : Z)
    (Q : Result unit -> St Compliance -> Prop) (s : St Compliance) :
  in_progress_upto b s -> progress (job s) <= p <= 90 ->
  (forall s', in_progress_upto p s' -> Q (Ok tt) s') ->
  wp (step_do name
        (db_update (fun j => with_progress p (with_currentStage stage j)))) Q s.
Proof.
  intros Hs Hp HQ. apply wp_step_update. intros s' Hj Hw. apply HQ.
  apply (@compliance_upto_write b p
           (fun j => with_progress p (with_currentStage stage j)) s s' Hj Hw Hs);
    [reflexivity|reflexivity|exact Hp].
Qed.

Lemma phase1Stage_progress (cfg : Config) (w : World) (params : LegalComplianceParams)
    (language : string) (s : St Compliance) :
  in_progress_upto 10 s ->
  wp (phase1Stage cfg w params language)
     (fun r s' => match r with
                  | Ok _ => in_progress_upto 50 s'
                  | Throw _ => in_progress_upto 90 s'
                  end) s.
Proof.
  intros Hs. unfold phase1Stage.
  set (contractBatches := chunks_of (contractBlocks params) CONTRACT_BLOCKS_PER_BATCH).
  set (processingChunks := chunks_of _ MAX_PARALLEL_PHASE1).
  eapply wp_conseq.
  - apply (@wp_for_indexed Compliance _ _ _
             (fun k _ s' =>
                in_progress_upto (10 + Math_round_div (40 * k) (len processingChunks)) s')
             (fun _ s' => in_progress_upto 90 s')).
    + intros k chunk acc s0 Hk Hinv.
      pose proof (len_nonneg processingChunks).
      pose proof (@Math_round_div_upto 40 k (len processingChunks)).
      pose proof (@Math_round_div_upto 40 (k + 1) (len processingChunks)).
      apply wp_bind.
      eapply wp_quiet; [apply phase1Wave_quiet| |].
      * intros chunkResults s1 Hj Hw. apply wp_bind.
        eapply wp_compliance_progress_step.
        -- eapply compliance_upto_same; eauto.
        -- destruct Hinv as (_ & _ & Hp). rewrite Hj.
           assert (Math_round_div (40 * k) (len processingChunks)
                   <= Math_round_div (40 * (k + 1)) (len processingChunks))
             by (apply Math_round_div_mono; lia).
           lia.
        -- intros s2 H2. apply wp_ret. exact H2.
      * intros e s1 _ Hj Hw. eapply compliance_upto_same; eauto.
        eapply compliance_upto_weaken; [|exact Hinv]. lia.
    + rewrite Z.mul_0_r, Math_round_div_zero by apply len_nonneg. exact Hs.
  - intros [phase1Results|e] s'; trivial. cbn beta.
    apply compliance_upto_weaken.
    pose proof (len_nonneg processingChunks).
    pose proof (@Math_round_div_upto 40 (0 + len processingChunks) (len processingChunks)).
    lia.
Qed.

Lemma phase2Stage_progress (cfg : Config) (w : World) (params : LegalComplianceParams)
    (phase1Results : list BlockResult) (language : string) (s : St Compliance) :
  in_progress_upto 50 s ->
  wp (phase2Stage cfg w params phase1Results language)
     (fun _ s' => in_progress_upto 90 s') s.
Proof.
  intros Hs. unfold phase2Stage.
  destruct (len (filter needsDeepReview phase1Results) >? 0);
    [|apply wp_ret; eapply compliance_upto_weaken; [|exact Hs]; lia].
  destruct (deriveReviewTasks cfg (contractBlocks params)
              (filter needsDeepReview phase1Results)) as [reviewTasks skipped].
  set (reviewChunks := chunks_of reviewTasks MAX_PARALLEL_PHASE2).
  eapply wp_conseq.
  - apply (@wp_for_indexed Compliance _ _ _
             (fun k _ s' =>
                in_progress_upto (50 + Math_round_div (40 * k) (len reviewChunks)) s')
             (fun _ s' => in_progress_upto 90 s')).
    + intros k chunk acc s0 Hk Hinv.
      pose proof (len_nonneg reviewChunks).
      pose proof (@Math_round_div_upto 40 k (len reviewChunks)).
      pose proof (@Math_round_div_upto 40 (k + 1) (len reviewChunks)).
      apply wp_bind.
      eapply wp_quiet; [apply phase2Wave_quiet| |].
      * intros chunkResults s1 Hj Hw. apply wp_bind.
        eapply wp_compliance_progress_step.
        -- eapply compliance_upto_same; eauto.
        -- destruct Hinv as (_ & _ & Hp). rewrite Hj.
           assert (Math_round_div (40 * k) (len reviewChunks)
                   <= Math_round_div (40 * (k + 1)) (len reviewChunks))
             by (apply Math_round_div_mono; lia).
           lia.
        -- intros s2 H2. apply wp_ret. exact H2.
      * intros e s1 _ Hj Hw. eapply compliance_upto_same; eauto.
        eapply compliance_upto_weaken; [|exact Hinv]. lia.
    + rewrite Z.mul_0_r, Math_round_div_zero by apply len_nonneg. exact Hs.
  - intros [phase2Results|e] s'; trivial. cbn beta.
    apply compliance_upto_weaken.
    pose proof (len_nonneg reviewChunks).
    pose proof (@Math_round_div_upto 40 (0 + len reviewChunks) (len reviewChunks)).
    lia.
Qed.

(** The write history of a run of the legal compliance workflow. *)
Lemma compliance_run_history (cfg : Config) (w : World) (params : LegalComplianceParams) :
  hist_ok progress snapshot_ok (snd (run cfg w params (initial pendingCompliance))).
Proof.
  change (wp (run cfg w params) (fun _ s => hist_ok progress snapshot_ok s)
            (initial pendingCompliance)).
  unfold run. apply wp_try_catch.
  set (language := getLanguageName _).
  assert (Hbody : wp (runStages cfg w params language)
                    (fun r s => match r with
                                | Ok _ => hist_ok progress snapshot_ok s
                                | Throw _ => in_progress_upto 90 s
                                end) (initial pendingCompliance)).
  { unfold runStages.
    apply wp_bind, wp_step_update. intros s1 Hj1 Hw1.
    assert (H1 : in_progress_upto 0 s1).
    { unfold in_progress_upto. rewrite Hj1. cbn.
      split; [|split; [reflexivity|lia]].
      apply (@hist_ok_write _ progress snapshot_ok
               (fun j => with_progress 0
                           (with_currentStage "compliance_check"
                              (with_status "in_progress" j)))
               (initial pendingCompliance) s1 Hj1 Hw1).
      - split; [constructor|split; constructor].
      - cbn. lia.
      - unfold snapshot_ok. cbn. split; [lia|]. split; [lia|discriminate]. }
    apply wp_bind. eapply wp_compliance_stage_step;
      [exact H1|destruct H1 as (_ & _ & ?); lia|].
    intros s2 H2.
    apply wp_bind. eapply wp_conseq; [apply phase1Stage_progress, H2|].
    intros [phase1Results|e] s3 H3; trivial.
    apply wp_bind. eapply wp_compliance_stage_step;
      [exact H3|destruct H3 as (_ & _ & ?); lia|].
    intros s4 H4.
    apply wp_bind. eapply wp_conseq; [apply phase2Stage_progress, H4|].
    intros [phase2Results|e] s5 H5; trivial.
    unfold finalizeComplianceResults. apply wp_step_do, wp_bind, wp_db_update, wp_ret.
    destruct H5 as (Hh & Hst & Hp).
    eapply (@hist_ok_snoc _ progress snapshot_ok s5); [reflexivity|reflexivity|exact Hh| |].
    - cbn. lia.
    - unfold snapshot_ok. cbn. split; [lia|]. split; reflexivity. }
  eapply wp_conseq; [exact Hbody|].
  intros [r|e] s H; trivial.
  unfold markComplianceFailed. apply wp_step_do, wp_bind, wp_db_update, wp_ret.
  destruct H as (Hh & Hst & Hp).
  eapply (@hist_ok_snoc _ progress snapshot_ok s); [reflexivity|reflexivity|exact Hh| |].
  - cbn. lia.
  - unfold snapshot_ok. cbn. split; [lia|]. split; [lia|discriminate].
Qed.

End ComplianceProgress.

(** C1, as the code has it. In both pipelines the progress values written
    over the life of a job never decrease, starting from the pending row,
    and a row with status ['completed'] has progress 100. In the compliance
    pipeline progress 100 is written on the completed row only; the
    document pipeline gives no such converse. *)
Theorem progress_history :
  (forall (w : PdfParserWorkflow.World) (params : PdfParserWorkflow.PdfParserParams),
      let s := snd (PdfParserWorkflow.run w params
                      (initial PdfParserWorkflow.pendingResearch)) in
      StronglySorted
        (fun a b => PdfParserWorkflow.progress a <= PdfParserWorkflow.progress b)
        (PdfParserWorkflow.pendingResearch :: writes s) /\
      Forall (fun j => 0 <= PdfParserWorkflow.progress j <= 100 /\
                       (PdfParserWorkflow.status j = "completed" ->
                        PdfParserWorkflow.progress j = 100))
        (writes s)) /\
  (forall (cfg : LegalComplianceWorkflow.Config) (w : LegalComplianceWorkflow.World)
          (params : LegalComplianceWorkflow.LegalComplianceParams),
      let s := snd (LegalComplianceWorkflow.run cfg w params
                      (initial LegalComplianceWorkflow.pendingCompliance)) in
      StronglySorted
        (fun a b => LegalComplianceWorkflow.progress a
                    <= LegalComplianceWorkflow.progress b)
        (LegalComplianceWorkflow.pendingCompliance :: writes s) /\
      Forall (fun j => 0 <= LegalComplianceWorkflow.progress j <= 100 /\
                       (LegalComplianceWorkflow.progress j = 100 <->
                        LegalComplianceWorkflow.status j = "completed"))
        (writes s)).
Proof.
  split.
  - intros w params s. destruct (pdf_run_history w params) as (Hs & _ & Hsnap).
    fold s in Hs, Hsnap. split; [|exact Hsnap].
    constructor; trivial. eapply Forall_impl; [|exact Hsnap].
    intros j [Hj _]. cbn. lia.
  - intros cfg w params s.
    destruct (compliance_run_history cfg w params) as (Hs & _ & Hsnap).
    fold s in Hs, Hsnap. split; [|exact Hsnap].
    constructor; trivial. eapply Forall_impl; [|exact Hsnap].
    intros j [Hj _]. cbn. lia.
Qed.

(** C1 as stated fails in the document pipeline: on a document of one page
    with one block, the progress write after the last review wave stores
    100 while the status is ['in_progress'] and the stage ['reviewing']. *)
Lemma progress_100_while_in_progress :
  ~ (forall (w : PdfParserWorkflow.World) (params : PdfParserWorkflow.PdfParserParams)
            (j : PdfParserWorkflow.Research),
        In j (writes (snd (PdfParserWorkflow.run w params
                             (initial PdfParserWorkflow.pendingResearch)))) ->
        (PdfParserWorkflow.progress j = 100 <->
         PdfParserWorkflow.status j = "completed")).
Proof.
  intros H.
  specialize (H PdfParserWorkflow.sampleWorld PdfParserWorkflow.sampleParams
                (PdfParserWorkflow.with_progress 100
                   (PdfParserWorkflow.with_currentStage "reviewing"
                      (PdfParserWorkflow.with_status "in_progress"
                         PdfParserWorkflow.pendingResearch)))).
  assert (Hin : In (PdfParserWorkflow.with_progress 100
                      (PdfParserWorkflow.with_currentStage "reviewing"
                         (PdfParserWorkflow.with_status "in_progress"
                            PdfParserWorkflow.pendingResearch)))
                  (writes (snd (PdfParserWorkflow.run PdfParserWorkflow.sampleWorld
                                  PdfParserWorkflow.sampleParams
                                  (initial PdfParserWorkflow.pendingResearch))))).
  { vm_compute. do 3 right. left. reflexivity. }
  destruct (H Hin) as [H100 _]. specialize (H100 eq_refl). discriminate H100.
Qed.

(** ** The failure of a structured output pass *)

Lemma task_all_throws {A} (tasks : list (Task A)) :
  Exists (fun t => exists e, snd t = Throw e) tasks ->
  exists e, snd (task_all tasks) = Throw e.
Proof.
  induction 1 as [t rest [e He]|t rest Hex IH]; cbn [task_all];
    destruct t as [cs [a|e']]; cbn in *.
  - discriminate.
  - eauto.
  - destruct IH as [e He]. destruct (task_all rest) as [cs' r]. cbn in *. subst r.
    cbn. eauto.
  - eauto.
Qed.

Lemma map_indexed_from_Exists {X Y} (P : Y -> Prop) (f : X -> Z -> Y) (l : list X) (x : X) :
  In x l -> (forall i, P (f x i)) -> forall i, Exists P (map_indexed_from i f l).
Proof.
  intros Hin Hx. induction l as [|y l IH]; intros i; cbn [map_indexed_from]; [destruct Hin|].
  destruct Hin as [->|Hin]; [left; apply Hx|right; apply IH, Hin].
Qed.

Lemma map_indexed_from_length {X Y} (f : X -> Z -> Y) (l : list X) (i : Z) :
  List.length (map_indexed_from i f l) = List.length l.
Proof. revert i. induction l as [|x l IH]; intros i; cbn; [|rewrite IH]; reflexivity. Qed.

Lemma map_map_indexed_from {X Y V} (g : Y -> V) (f : X -> Z -> Y) (l : list X) (i : Z) :
  map g (map_indexed_from i f l) = map_indexed_from i (fun x k => g (f x k)) l.
Proof. revert i. induction l as [|x l IH]; intros i; cbn; [|rewrite IH]; reflexivity. Qed.

Lemma map_indexed_from_seq {X Y} (g : Z -> Y) (l : list X) (i : Z) :
  map_indexed_from i (fun _ k => g k) l
  = map (fun n => g (i + Z.of_nat n)) (seq 0 (List.length l)).
Proof.
  revert i. induction l as [|x l IH]; intros i; cbn [map_indexed_from List.length seq map];
    [reflexivity|].
  rewrite IH, <- seq_shift, map_map. f_equal; [f_equal; lia|].
  apply map_ext. intros n. f_equal. lia.
Qed.

(** C5 as stated fails for the document review: at the sample block, with
    a structured output pass that fails, [reviewBlock] returns no review but
    throws, and the job ends failed. *)
Lemma review_failure_is_not_absorbed :
  PdfParserWorkflow.generateObject_review PdfParserWorkflow.failingReviewWorld
    PdfParserWorkflow.sampleBlock "English" = Throw (ErrorObj "No object generated") /\
  ~ (exists review,
        snd (PdfParserWorkflow.reviewBlock PdfParserWorkflow.failingReviewWorld
               PdfParserWorkflow.sampleBlock 0 "English") = Ok review) /\
  fst (PdfParserWorkflow.run PdfParserWorkflow.failingReviewWorld
         PdfParserWorkflow.sampleParams (initial PdfParserWorkflow.pendingResearch))
  = Ok (PdfParserWorkflow.RunFailed "research-1"
          "Failed to review block 0: No object generated") /\
  PdfParserWorkflow.status
    (job (snd (PdfParserWorkflow.run PdfParserWorkflow.failingReviewWorld
                 PdfParserWorkflow.sampleParams
                 (initial PdfParserWorkflow.pendingResearch)))) = "failed".
Proof.
  split; [reflexivity|]. split; [|split; reflexivity].
  intros [review H]. vm_compute in H. discriminate H.
Qed.

(** ** The review of a block and the hallucination-risk service *)

Lemma fst_task_catch_silent {A} (t : Task A) (handler : Thrown -> Task A) :
  (forall e, fst (handler e) = []) -> fst (task_catch t handler) = fst t.
Proof.
  intros H. destruct t as [cs [a|e]]; cbn; trivial.
  specialize (H e). destruct (handler e) as [cs' r]. cbn in *. subst cs'.
  apply app_nil_r.
Qed.

Lemma fst_task_bind_silent {A B} (t : Task A) (k : A -> Task B) :
  (forall a, fst (k a) = []) -> fst (task_bind t k) = fst t.
Proof.
  intros H. destruct t as [cs [a|e]]; cbn; trivial.
  specialize (H a). destruct (k a) as [cs' r]. cbn in *. subst cs'.
  apply app_nil_r.
Qed.

(** C8, as the code has it. [reviewBlock] never calls the risk service: with
    an API key it makes one external call, the structured output call of
    the inference capability, and when that call answers the review carries
    its severity and comment with the block index. The client of the risk
    service, which no workflow calls, is the one that makes the request with
    the time-out of 30 seconds. *)
Theorem reviewBlock_calls_no_risk_service :
  (forall (w : PdfParserWorkflow.World) (block : PdfParserWorkflow.ContractBlock)
          (blockIndex : Z) (language : string),
      let t := PdfParserWorkflow.reviewBlock w block blockIndex language in
      Forall (fun c => forall endpoint timeoutMs, c <> CallFetch endpoint timeoutMs)
        (fst t) /\
      (falsy (PdfParserWorkflow.OPENROUTER_API_KEY w) = false ->
       fst t = [CallGenerateObject "google/gemini-2.5-flash"]) /\
      (forall object,
          falsy (PdfParserWorkflow.OPENROUTER_API_KEY w) = false ->
          PdfParserWorkflow.generateObject_review w block language = Ok object ->
          exists review,
            snd t = Ok review /\
            PdfParserWorkflow.blockIndex review = blockIndex /\
            PdfParserWorkflow.severity review = PdfParserWorkflow.o_severity object /\
            PdfParserWorkflow.comment review = PdfParserWorkflow.o_comment object)) /\
  (forall (fetch : Antihal.Fetch) (antihalUrl prompt : string),
      antihalUrl <> "" ->
      fst (Antihal.estimateHallucinationRisk fetch antihalUrl prompt)
      = [CallFetch (Antihal.baseUrl_of antihalUrl +++ "/api/hallucinations/estimate")
           30000]).
Proof.
  split.
  - intros w block blockIndex language t. subst t.
    unfold PdfParserWorkflow.reviewBlock.
    destruct (falsy (PdfParserWorkflow.OPENROUTER_API_KEY w)).
    + split; [constructor|]. split; [discriminate|]. intros object H. discriminate H.
    + destruct (PdfParserWorkflow.generateObject_review w block language) as [object|e] eqn:Hobj;
        cbn.
      * destruct (PdfParserWorkflow.highlight _ object) as [start end_]. cbn.
        split; [repeat constructor; discriminate|]. split; [reflexivity|].
        intros object' _ H. inversion H; subst. eexists. repeat split.
      * split; [repeat constructor; discriminate|]. split; [reflexivity|].
        intros object' _ H. discriminate H.
  - intros fetch antihalUrl prompt Hurl.
    unfold Antihal.estimateHallucinationRisk.
    destruct antihalUrl as [|c r]; [congruence|]. cbn [falsy].
    rewrite fst_task_catch_silent.
    + rewrite fst_task_bind_silent; [reflexivity|]. intros response.
      destruct (negb (Antihal.ok response)); [reflexivity|].
      rewrite fst_task_bind_silent; [reflexivity|]. intros data.
      destruct (Antihal.d_hallucination_risk data), (Antihal.d_isr data),
        (Antihal.d_info_budget data); reflexivity.
    + intros [message|]; [|reflexivity].
      destruct (includes "Antihal service error" message); reflexivity.
Qed.

(** The review of the sample block, and a request of the client. *)
Lemma reviewBlock_calls_no_risk_service_witness :
  (exists review,
      snd (PdfParserWorkflow.reviewBlock PdfParserWorkflow.sampleWorld
             PdfParserWorkflow.sampleBlock 0 "English") = Ok review /\
      PdfParserWorkflow.blockIndex review = 0 /\
      PdfParserWorkflow.severity review = PdfParserWorkflow.medium /\
      PdfParserWorkflow.comment review = "The payment term is short.") /\
  fst (Antihal.estimateHallucinationRisk
         (fun _ _ _ => Throw (ErrorObj "The operation timed out."))
         "http://localhost:8000/" "prompt")
  = [CallFetch (Antihal.baseUrl_of "http://localhost:8000/"
                +++ "/api/hallucinations/estimate") 30000].
Proof.
  destruct reviewBlock_calls_no_risk_service as [H1 H2]. split.
  - destruct (H1 PdfParserWorkflow.sampleWorld PdfParserWorkflow.sampleBlock 0 "English")
      as (_ & _ & H).
    apply (H {| PdfParserWorkflow.o_severity := PdfParserWorkflow.medium;
                PdfParserWorkflow.o_start := 0; PdfParserWorkflow.o_end := 7;
                PdfParserWorkflow.o_comment := "The payment term is short." |});
      reflexivity.
  - apply H2. discriminate.
Defined.

(** C8 as stated fails: the review of the sample block, and the whole run
    on the sample document, make no request to the risk service. *)
Lemma review_makes_no_risk_request :
  ~ (exists endpoint timeoutMs,
        In (CallFetch endpoint timeoutMs)
          (fst (PdfParserWorkflow.reviewBlock PdfParserWorkflow.sampleWorld
                  PdfParserWorkflow.sampleBlock 0 "English"))) /\
  ~ (exists endpoint timeoutMs,
        In (CallFetch endpoint timeoutMs)
          (calls (snd (PdfParserWorkflow.run PdfParserWorkflow.sampleWorld
                         PdfParserWorkflow.sampleParams
                         (initial PdfParserWorkflow.pendingResearch))))).
Proof.
  split; intros (endpoint & timeoutMs & H); vm_compute in H;
    repeat (destruct H as [H|H]; [discriminate H|]); exact H.
Qed.

(** ** No legal code enabled *)

Lemma chunks_of_head {T} (x : T) (l : list T) (size : Z) :
  0 < size ->
  exists chunks,
    chunks_of (x :: l) size = (x :: firstn (Z.to_nat size - 1) l) :: chunks.
Proof.
  intros Hs. unfold chunks_of, chunkArray. cbn [List.length chunkArray_loop].
  change (0 <? len (x :: l)) with (0 <? Z.of_nat (S (List.length l))).
  destruct (Z.ltb_spec 0 (Z.of_nat (S (List.length l)))); [|lia].
  destruct (@chunkArray_loop_spec T (x :: l) size Hs (List.length l) (0 + size)
              ([] ++ [slice (x :: l) 0 (0 + size)])) as (cs & -> & _);
    [lia|unfold len; cbn [List.length]; lia|].
  exists cs. cbn [app]. f_equal.
  rewrite slice_forward by lia. cbn [Z.to_nat skipn].
  destruct (Z.to_nat size) as [|n] eqn:Hn; [lia|]. cbn [firstn].
  now rewrite Nat.sub_succ, Nat.sub_0_r.
Qed.

Lemma bind_Throw {J A B} (m : W J A) (k : A -> W J B) (s s' : St J) (e : Thrown) :
  m s = (Throw e, s') -> bind m k s = (Throw e, s').
Proof. unfold bind. now intros ->. Qed.

Section NoLegalCodes.
Import LegalComplianceWorkflow.

Lemma loadLegalCodes_disabled (cfg : Config) (w : World) :
  ENABLE_BGB cfg = false -> ENABLE_HGB cfg = false ->
  loadLegalCodes cfg w
  = ([], Throw (ErrorObj
       ("Failed to load legal codes: "
        +++ "No legal codes are enabled. Please enable at least one of BGB or HGB."))).
Proof. intros Hb Hh. unfold loadLegalCodes. rewrite Hb, Hh. reflexivity. Qed.

(** C9, as the code has it. With both legal codes disabled and at least
    one contract block, the step of the first Phase 1 batch is started and
    fails inside, in the loading of the legal codes, before any external
    call; the job ends failed with the message of that error and without
    results. *)
Theorem no_legal_codes_fails_in_first_batch (cfg : Config) (w : World)
    (params : LegalComplianceParams) (s : St Compliance) :
  ENABLE_BGB cfg = false -> ENABLE_HGB cfg = false ->
  contractBlocks params <> [] ->
  let message :=
    "Failed to load legal codes: No legal codes are enabled. Please enable at least one of BGB or HGB." in
  exists s',
    run cfg w params s
    = (Ok (RunFailed (complianceId params) (researchId params) message), s') /\
    status (job s') = "failed" /\
    currentStage (job s') = Some "error" /\
    errorMessage (job s') = Some message /\
    results (job s') = results (job s) /\
    progress (job s') = 10 /\
    calls s' = calls s /\
    In "phase1-batch-0" (steps s').
Proof.
  intros Hb Hh Hblocks message.
  destruct (contractBlocks params) as [|block blocks] eqn:Hcb; [congruence|].
  unfold run, try_catch, runStages.
  set (language := getLanguageName _).
  unfold bind at 1. cbn [step_do db_update].
  unfold bind at 1. cbn [step_do db_update].
  match goal with
  | |- context [bind (phase1Stage cfg w params language) ?k ?s1] =>
      assert (Hphase : exists s2,
                 phase1Stage cfg w params language s1
                 = (Throw (ErrorObj message), s2) /\
                 job s2 = job s1 /\ writes s2 = writes s1 /\ calls s2 = calls s1 /\
                 steps s2 = steps s1 ++ ["phase1-batch-0"])
  end.
  { unfold phase1Stage. rewrite Hcb.
    destruct (@chunks_of_head _ block blocks CONTRACT_BLOCKS_PER_BATCH) as [batches ->];
      [unfold CONTRACT_BLOCKS_PER_BATCH; lia|].
    unfold map_indexed. cbn [map_indexed_from].
    match goal with
    | |- context [chunks_of (?p :: ?l) MAX_PARALLEL_PHASE1] =>
        destruct (@chunks_of_head _ p l MAX_PARALLEL_PHASE1) as [chunks ->];
          [unfold MAX_PARALLEL_PHASE1; lia|]
    end.
    cbn [for_indexed map Promise_all].
    eexists. split.
    - apply bind_Throw, bind_Throw, bind_Throw.
      unfold step_do, run_task, phase1BatchStep.
      rewrite (loadLegalCodes_disabled cfg w Hb Hh). cbn. reflexivity.
    - cbn. rewrite app_nil_r. repeat split. }
  destruct Hphase as (s2 & Hphase & Hj & Hw & Hc & Hst).
  erewrite bind_Throw; [|exact Hphase].
  unfold markComplianceFailed. cbn.
  eexists. split; [reflexivity|]. cbn. rewrite Hj, Hc, Hst. cbn.
  repeat split. rewrite !in_app_iff. left. right. now left.
Qed.

(** One block, both legal codes disabled. *)
Lemma no_legal_codes_fails_in_first_batch_witness :
  ENABLE_BGB bothDisabled = false /\ ENABLE_HGB bothDisabled = false /\
  contractBlocks sampleParams <> [] /\
  exists s',
    run bothDisabled sampleWorld sampleParams (initial pendingCompliance)
    = (Ok (RunFailed (complianceId sampleParams) (researchId sampleParams)
             "Failed to load legal codes: No legal codes are enabled. Please enable at least one of BGB or HGB."),
       s') /\
    status (job s') = "failed" /\
    currentStage (job s') = Some "error" /\
    errorMessage (job s')
    = Some "Failed to load legal codes: No legal codes are enabled. Please enable at least one of BGB or HGB." /\
    results (job s') = results (job (initial pendingCompliance)) /\
    progress (job s') = 10 /\
    calls s' = calls (initial pendingCompliance) /\
    In "phase1-batch-0" (steps s').
Proof.
  split; [reflexivity|]. split; [reflexivity|]. split; [discriminate|].
  apply (no_legal_codes_fails_in_first_batch bothDisabled sampleWorld sampleParams
           (initial pendingCompliance)); [reflexivity|reflexivity|discriminate].
Defined.

(** C9 as stated fails: with both legal codes disabled and no contract
    block, no batch step runs, the legal codes are never loaded and the job
    is completed; with one block, the failure comes after the step of the
    first batch was started. *)
Lemma both_disabled_without_blocks_completes :
  (exists results0,
      fst (run bothDisabled sampleWorld noBlocksParams (initial pendingCompliance))
      = Ok (RunCompleted "compliance-1" "research-1" results0)) /\
  status (job (snd (run bothDisabled sampleWorld noBlocksParams
                      (initial pendingCompliance)))) = "completed" /\
  In "phase1-batch-0"
    (steps (snd (run bothDisabled sampleWorld sampleParams (initial pendingCompliance)))).
Proof.
  split; [eexists; reflexivity|]. split; [reflexivity|].
  vm_compute. do 2 right. left. reflexivity.
Qed.

End NoLegalCodes.

(** ** More about chunkArray *)

Lemma Math_ceil_div_unique (a b q : Z) :
  0 < b -> a <= b * q < a + b -> Math_ceil_div a b = q.
Proof.
  intros Hb Hq. pose proof (@Math_ceil_div_bounds a b Hb) as Hc.
  assert (b * (Math_ceil_div a b - q) < b * 1) by lia.
  assert (b * (-1) < b * (Math_ceil_div a b - q)) by lia.
  apply Z.mul_lt_mono_pos_l in H, H0; lia.
Qed.

Lemma Math_ceil_div_step (a b : Z) :
  0 < b -> 0 < a ->
  Math_ceil_div a b = 1 + Math_ceil_div (Z.max 0 (a - b)) b.
Proof.
  intros Hb Ha. apply Math_ceil_div_unique; trivial.
  pose proof (@Math_ceil_div_bounds (Z.max 0 (a - b)) b Hb) as Hc.
  destruct (Z.le_gt_cases b a).
  - rewrite Z.max_r in * by lia. lia.
  - rewrite Z.max_l in * by lia.
    assert (H0 : Math_ceil_div 0 b = 0) by (apply Math_ceil_div_unique; lia).
    rewrite H0. lia.
Qed.

Lemma chunkArray_loop_closed {T} (array : list T) (size : Z) :
  0 < size ->
  forall fuel i chunks,
    0 <= i -> (Z.to_nat (len array - i) <= fuel)%nat ->
    chunkArray_loop fuel array size i chunks
    = Some (chunks ++
            map (fun n => slice array (i + Z.of_nat n * size)
                            (i + Z.of_nat n * size + size))
              (seq 0 (Z.to_nat (Math_ceil_div (Z.max 0 (len array - i)) size)))).
Proof.
  intros Hs fuel.
  assert (Hdone : forall i, len array <= i ->
            Z.to_nat (Math_ceil_div (Z.max 0 (len array - i)) size) = 0%nat).
  { intros i Hge. rewrite Z.max_l by lia. rewrite Math_ceil_div_pos by lia.
    rewrite Z.div_small by lia. reflexivity. }
  induction fuel as [|fuel IH]; intros i chunks Hi Hfuel; cbn [chunkArray_loop].
  - destruct (Z.ltb_spec i (len array)); [lia|].
    rewrite Hdone by lia. cbn. now rewrite app_nil_r.
  - destruct (Z.ltb_spec i (len array)) as [Hlt|Hge].
    + rewrite IH by lia. rewrite <- app_assoc. do 2 f_equal. cbn [app].
      assert (Hcount : Z.to_nat (Math_ceil_div (Z.max 0 (len array - i)) size)
                       = S (Z.to_nat (Math_ceil_div (Z.max 0 (len array - (i + size))) size))).
      { rewrite (Z.max_r 0 (len array - i)) by lia.
        rewrite (@Math_ceil_div_step (len array - i) size) by lia.
        pose proof (@Math_ceil_div_bounds (Z.max 0 (len array - i - size)) size Hs).
        replace (len array - (i + size)) with (len array - i - size) by lia.
        assert (0 <= Math_ceil_div (Z.max 0 (len array - i - size)) size) by nia.
        lia. }
      rewrite Hcount. cbn [seq map]. f_equal; [f_equal; lia|].
      rewrite <- seq_shift, map_map. apply map_ext. intros n. f_equal; lia.
    + rewrite Hdone by lia. cbn. now rewrite app_nil_r.
Qed.

Lemma chunks_of_closed {T} (array : list T) (size : Z) :
  0 < size ->
  chunks_of array size
  = map (fun n => slice array (Z.of_nat n * size) (Z.of_nat n * size + size))
      (seq 0 (Z.to_nat (Math_ceil_div (len array) size))).
Proof.
  intros Hs. unfold chunks_of, chunkArray.
  rewrite (@chunkArray_loop_closed T array size Hs) by (unfold len; lia).
  cbn [app]. rewrite Z.max_r by (pose proof (len_nonneg array); lia).
  rewrite Z.sub_0_r. apply map_ext. intros n. f_equal; lia.
Qed.

Lemma len_slice_forward {T} (array : list T) (i size : Z) :
  0 <= i -> 0 < size ->
  len (slice array i (i + size)) = Z.max 0 (Z.min size (len array - i)).
Proof.
  intros Hi Hs. rewrite slice_forward by lia. unfold len.
  rewrite length_firstn, length_skipn. lia.
Qed.

(** X1. With a positive size the k-th chunk is the slice of the array from
    k*size; so no chunk is empty and every chunk before the last one has
    exactly [size] elements. *)
Theorem chunkArray_full_chunks {T} (array : list T) (size : Z) :
  0 < size ->
  exists chunks,
    chunkArray array size = Some chunks /\
    (forall k chunk,
        nth_error chunks k = Some chunk ->
        chunk = slice array (Z.of_nat k * size) (Z.of_nat k * size + size) /\
        0 < len chunk /\
        ((S k < List.length chunks)%nat -> len chunk = size)).
Proof.
  intros Hs. destruct (@chunkArray_chunks T array size Hs) as (chunks & Hrun & Hlen & _).
  exists chunks. split; [exact Hrun|].
  pose proof (@chunks_of_closed T array size Hs) as Hclosed.
  unfold chunks_of in Hclosed. rewrite Hrun in Hclosed.
  intros k chunk Hk.
  assert (Hklt : (k < List.length chunks)%nat) by (apply nth_error_Some; congruence).
  pose proof (@Math_ceil_div_bounds (len array) size Hs) as Hb.
  unfold len in Hlen at 1.
  assert (Hchunk : chunk = slice array (Z.of_nat k * size) (Z.of_nat k * size + size)).
  { rewrite Hclosed in Hk.
    rewrite nth_error_map, nth_error_seq in Hk.
    destruct (Nat.ltb_spec k (Z.to_nat (Math_ceil_div (len array) size))) as [|Hge];
      [|lia].
    cbn in Hk. now inversion Hk. }
  split; [exact Hchunk|]. rewrite Hchunk, len_slice_forward by lia.
  split; [nia|]. intros Hnext. nia.
Qed.

Lemma chunkArray_full_chunks_witness :
  0 < 5 /\
  exists chunks,
    chunkArray (seq 1 12) 5 = Some chunks /\
    (forall k chunk,
        nth_error chunks k = Some chunk ->
        chunk = slice (seq 1 12) (Z.of_nat k * 5) (Z.of_nat k * 5 + 5) /\
        0 < len chunk /\
        ((S k < List.length chunks)%nat -> len chunk = 5)).
Proof. split; [lia|apply (@chunkArray_full_chunks nat (seq 1 12) 5); lia]. Defined.

(** X2. With a size that is zero or negative the loop never ends on a
    non-empty array: no amount of fuel lets it return. *)
Theorem chunkArray_never_returns {T} (array : list T) (size : Z) :
  size <= 0 -> array <> [] ->
  forall fuel, chunkArray_loop fuel array size 0 [] = None.
Proof.
  intros Hs Hne fuel. apply chunkArray_loop_diverges; trivial. lia.
Qed.

Lemma chunkArray_never_returns_witness :
  0 <= 0 /\ [1; 2; 3] <> [] /\
  forall fuel, chunkArray_loop fuel [1; 2; 3] 0 0 [] = None.
Proof.
  split; [lia|]. split; [discriminate|].
  apply (@chunkArray_never_returns Z [1; 2; 3] 0); [lia|discriminate].
Defined.

(** ** More about the token budget batcher *)

Section BatcherGreedy.
Import LegalComplianceWorkflow.

Lemma tight_snoc (tokenLimit : Z) (batches : list (list LegalArticle))
    (last_ next : list LegalArticle) (article : LegalArticle) :
  tight tokenLimit (batches ++ [last_]) ->
  tokenLimit < batchTokens last_ + articleTokens article ->
  tight tokenLimit (batches ++ [last_] ++ [article :: next]).
Proof.
  induction batches as [|b batches IH]; intros Ht Hlt.
  - cbn. auto.
  - cbn [app] in *. destruct batches as [|b' batches].
    + cbn [app] in *. cbn in Ht |- *. tauto.
    + cbn [app tight] in Ht |- *. destruct Ht as [H1 H2]. split; [exact H1|].
      apply IH; trivial.
Qed.

Lemma tight_extend_last (tokenLimit : Z) (batches : list (list LegalArticle))
    (x : LegalArticle) (last_ more : list LegalArticle) :
  tight tokenLimit (batches ++ [x :: last_]) ->
  tight tokenLimit (batches ++ [(x :: last_) ++ more]).
Proof.
  induction batches as [|b batches IH]; intros Ht.
  - cbn. exact I.
  - cbn [app] in *. destruct batches as [|b' batches].
    + cbn [app] in *. cbn in Ht |- *. tauto.
    + cbn [app tight] in Ht |- *. destruct Ht as [H1 H2]. split; [exact H1|].
      apply IH; trivial.
Qed.

Lemma batchByTokenLimit_loop_tight (tokenLimit : Z) (articles : list LegalArticle) :
  forall batches currentBatch currentTokens,
    currentTokens = batchTokens currentBatch ->
    (currentBatch = [] -> batches = []) ->
    (currentBatch <> [] -> tight tokenLimit (batches ++ [currentBatch])) ->
    let '(batches', currentBatch') :=
      batchByTokenLimit_loop articles tokenLimit batches currentBatch currentTokens in
    (currentBatch' = [] -> batches' = []) /\
    (currentBatch' <> [] -> tight tokenLimit (batches' ++ [currentBatch'])).
Proof.
  induction articles as [|article rest IH]; intros batches currentBatch currentTokens
    Htok Hempty Htight; cbn [batchByTokenLimit_loop]; [auto|].
  destruct (Z.gtb_spec (currentTokens + articleTokens article) tokenLimit) as [Hover|Hfits];
    destruct (Z.gtb_spec (len currentBatch) 0) as [Hpos|Hzero]; cbn [andb].
  - apply IH; [cbn [batchTokens]; lia|intros H; discriminate H|]. intros _.
    rewrite <- app_assoc. apply tight_snoc; [|lia].
    apply Htight. intros ->. unfold len in Hpos. cbn in Hpos. lia.
  - assert (currentBatch = []) as ->
        by (destruct currentBatch; [reflexivity|unfold len in Hzero; cbn in Hzero; lia]).
    rewrite (Hempty eq_refl). cbn [app batchTokens] in *.
    apply IH; [cbn [batchTokens]; lia|intros H; discriminate H|]. intros _. cbn. exact I.
  - apply IH.
    + rewrite batchTokens_app. cbn [batchTokens]. lia.
    + intros H. apply app_eq_nil in H. destruct H as [_ H]. discriminate H.
    + intros _. destruct currentBatch as [|x l];
        [unfold len in Hpos; cbn in Hpos; lia|].
      apply tight_extend_last, Htight. discriminate.
  - assert (currentBatch = []) as ->
        by (destruct currentBatch; [reflexivity|unfold len in Hzero; cbn in Hzero; lia]).
    rewrite (Hempty eq_refl). cbn [app batchTokens] in *.
    apply IH; [cbn [batchTokens]; lia|intros H; discriminate H|]. intros _. cbn. exact I.
Qed.

Lemma batchByTokenLimit_tight (articles : list LegalArticle) (tokenLimit : Z) :
  tight tokenLimit (batchByTokenLimit articles tokenLimit).
Proof.
  unfold batchByTokenLimit.
  pose proof (@batchByTokenLimit_loop_tight tokenLimit articles [] [] 0 eq_refl
                (fun _ => eq_refl)) as H.
  destruct (batchByTokenLimit_loop articles tokenLimit [] [] 0) as [batches currentBatch].
  destruct H as [Hempty Htight]; [congruence|].
  destruct (Z.gtb_spec (len currentBatch) 0) as [Hpos|Hzero].
  - apply Htight. intros ->. unfold len in Hpos. cbn in Hpos. lia.
  - assert (currentBatch = []) as ->
        by (destruct currentBatch; [reflexivity|unfold len in Hzero; cbn in Hzero; lia]).
    rewrite (Hempty eq_refl). exact I.
Qed.

Lemma tight_middle (tokenLimit : Z) (before after : list (list LegalArticle))
    (batch next : list LegalArticle) :
  tight tokenLimit (before ++ batch :: next :: after) ->
  exists article rest,
    next = article :: rest /\ tokenLimit < batchTokens batch + articleTokens article.
Proof.
  induction before as [|b before IH]; intros Ht.
  - cbn in Ht. destruct next as [|article rest]; [tauto|]. exists article, rest. tauto.
  - apply IH. cbn [app] in Ht.
    destruct before as [|b' before]; cbn [app tight] in Ht |- *; tauto.
Qed.

(** X3. The batcher is greedy: whenever one batch follows another, the
    first article of the later batch did not fit, that is the summed cost of
    the earlier batch plus the cost of that article is above the budget. *)
Theorem batchByTokenLimit_greedy (articles : list LegalArticle) (tokenLimit : Z)
    (before after : list (list LegalArticle)) (batch next : list LegalArticle) :
  batchByTokenLimit articles tokenLimit = before ++ batch :: next :: after ->
  exists article rest,
    next = article :: rest /\
    tokenLimit < batchTokens batch + articleTokens article.
Proof.
  intros H. apply tight_middle with (before := before) (after := after).
  rewrite <- H. apply batchByTokenLimit_tight.
Qed.

Lemma batchByTokenLimit_greedy_witness :
  batchByTokenLimit [article1; article3; article1] 8
  = [] ++ [article1] :: [article3] :: [[article1]] /\
  exists article rest,
    [article3] = article :: rest /\
    8 < batchTokens [article1] + articleTokens article.
Proof.
  assert (H : batchByTokenLimit [article1; article3; article1] 8
              = [] ++ [article1] :: [article3] :: [[article1]]) by reflexivity.
  split; [exact H|].
  exact (@batchByTokenLimit_greedy [article1; article3; article1] 8 []
           [[article1]] [article1] [article3] H).
Defined.

(** X4. Articles that fit the budget together form one batch; no article
    gives no batch. *)
Theorem batchByTokenLimit_single (articles : list LegalArticle) (tokenLimit : Z) :
  batchTokens articles <= tokenLimit ->
  batchByTokenLimit articles tokenLimit
  = match articles with
    | [] => []
    | _ => [articles]
    end.
Proof.
  intros Hfit.
  assert (Hloop : forall rest batches currentBatch currentTokens,
             currentTokens = batchTokens currentBatch ->
             batchTokens currentBatch + batchTokens rest <= tokenLimit ->
             batchByTokenLimit_loop rest tokenLimit batches currentBatch currentTokens
             = (batches, currentBatch ++ rest)).
  { induction rest as [|article rest IH]; intros batches currentBatch currentTokens Htok Hsum;
      cbn [batchByTokenLimit_loop].
    - now rewrite app_nil_r.
    - cbn [batchTokens] in Hsum. pose proof (batchTokens_nonneg rest).
      destruct (Z.gtb_spec (currentTokens + articleTokens article) tokenLimit); [lia|].
      cbn [andb]. rewrite IH.
      + now rewrite <- app_assoc.
      + rewrite batchTokens_app. cbn [batchTokens]. lia.
      + rewrite batchTokens_app. cbn [batchTokens]. lia. }
  unfold batchByTokenLimit. rewrite (Hloop articles [] [] 0 eq_refl) by (cbn; lia).
  cbn [app]. destruct articles; reflexivity.
Qed.

Lemma batchByTokenLimit_single_witness :
  batchTokens [article1; article3] <= 9 /\
  batchByTokenLimit [article1; article3] 9 = [[article1; article3]].
Proof.
  split; [vm_compute; discriminate|].
  apply (@batchByTokenLimit_single [article1; article3] 9). vm_compute. discriminate.
Defined.

End BatcherGreedy.

(** ** More about the selection of the legal context *)

Section SelectionMore.
Import LegalComplianceWorkflow.

Lemma selectFromBatches_incl (legalBatches : list (list LegalArticle)) :
  forall selected current,
    incl (fst (selectFromBatches legalBatches selected current))
      (selected ++ List.concat legalBatches).
Proof.
  induction legalBatches as [|batch rest IH]; intros selected current;
    cbn [selectFromBatches List.concat].
  - cbn. rewrite app_nil_r. apply incl_refl.
  - assert (Hb : exists taken rest0,
               batch = taken ++ rest0 /\
               fst (selectFromBatch batch selected current) = selected ++ taken).
    { clear. revert selected current.
      induction batch as [|article batch IHb]; intros selected current; cbn [selectFromBatch].
      - exists [], []. cbn. rewrite ?app_nil_r. auto.
      - destruct (current + legalContextTokens article >? PHASE1_LEGAL_TOKENS).
        + exists [], (article :: batch). cbn. rewrite ?app_nil_r. auto.
        + destruct (IHb (selected ++ [article]) (current + legalContextTokens article))
            as (taken & rest0 & -> & ->).
          exists (article :: taken), rest0. rewrite <- app_assoc. auto. }
    destruct Hb as (taken & rest0 & -> & Hsel).
    destruct (selectFromBatch (taken ++ rest0) selected current) as [selected1 current1].
    cbn [fst] in Hsel. subst selected1.
    assert (Hincl : incl (selected ++ taken ++ List.concat rest)
                      (selected ++ (taken ++ rest0) ++ List.concat rest)).
    { intros x Hx. rewrite !in_app_iff in *. tauto. }
    destruct (current1 >=? PHASE1_LEGAL_TOKENS).
    + cbn [fst]. intros x Hx. rewrite !in_app_iff in *. tauto.
    + eapply incl_tran; [apply IH|]. rewrite <- app_assoc. exact Hincl.
Qed.

(** X5. Whatever the batches, the articles selected for the legal context
    of a Phase 1 call come from the batches, and their summed cost is within
    the budget of the legal context. *)
Theorem selectArticles_budget (legalBatches : list (list LegalArticle)) :
  legalTokens (selectArticles legalBatches) <= PHASE1_LEGAL_TOKENS /\
  incl (selectArticles legalBatches) (List.concat legalBatches).
Proof.
  split; [apply selectArticles_within_budget|].
  apply (selectFromBatches_incl legalBatches [] 0).
Qed.

Lemma selectFromBatch_prefix (batch : list LegalArticle) :
  forall selected current,
    exists taken rest,
      batch = taken ++ rest /\
      selectFromBatch batch selected current
      = (selected ++ taken, current + legalTokens taken) /\
      match rest with
      | [] => True
      | article :: _ =>
          PHASE1_LEGAL_TOKENS < current + legalTokens taken + legalContextTokens article
      end.
Proof.
  induction batch as [|article batch IH]; intros selected current; cbn [selectFromBatch].
  - exists [], []. cbn. rewrite app_nil_r, Z.add_0_r. auto.
  - destruct (Z.gtb_spec (current + legalContextTokens article) PHASE1_LEGAL_TOKENS).
    + exists [], (article :: batch). cbn. rewrite app_nil_r, Z.add_0_r.
      repeat split. lia.
    + destruct (IH (selected ++ [article]) (current + legalContextTokens article))
        as (taken & rest & -> & -> & Hrest).
      exists (article :: taken), rest. cbn [legalTokens app].
      rewrite <- app_assoc. cbn [app].
      replace (current + (legalContextTokens article + legalTokens taken))
        with (current + legalContextTokens article + legalTokens taken) by lia.
      repeat split. destruct rest; trivial.
Qed.

(** X6. With the articles in one batch the selection is the longest prefix
    of the batch within the budget: the selected articles are the first
    ones, and the article after them, when there is one, would take the
    summed cost above the budget. *)
Theorem selectArticles_one_batch (batch : list LegalArticle) :
  exists rest,
    batch = selectArticles [batch] ++ rest /\
    match rest with
    | [] => True
    | article :: _ =>
        PHASE1_LEGAL_TOKENS
        < legalTokens (selectArticles [batch]) + legalContextTokens article
    end.
Proof.
  unfold selectArticles. cbn [selectFromBatches].
  destruct (selectFromBatch_prefix batch [] 0) as (taken & rest & Hb & Hsel & Hrest).
  rewrite Hsel. cbn [app] in *.
  assert (Hfst : fst (if 0 + legalTokens taken >=? PHASE1_LEGAL_TOKENS
                      then (taken, 0 + legalTokens taken)
                      else (taken, 0 + legalTokens taken)) = taken)
    by (destruct (0 + legalTokens taken >=? PHASE1_LEGAL_TOKENS); reflexivity).
  rewrite Hfst. exists rest. split; [exact Hb|].
  destruct rest; trivial.
Qed.

End SelectionMore.

(** ** The helpers of the legal compliance workflow *)

Section ComplianceHelpers.
Import LegalComplianceWorkflow.

Lemma loadCode_spec (w : World) (key notFound : string) (src : Source)
    (articles : list LegalArticle) :
  snd (loadCode w key notFound src) = Ok articles ->
  Forall (fun a => type_ a = "article" /\ falsy (body a) = false /\ source a = src)
    articles.
Proof.
  unfold loadCode. destruct (research_assets_get w key) as [[object|]|e]; cbn;
    try discriminate.
  destruct (json_contents object) as [contents|e]; cbn; [|discriminate].
  intros H. inversion H; subst. clear H.
  apply Forall_map, Forall_forall. intros item Hin. apply filter_In in Hin.
  destruct Hin as [_ Hin]. apply andb_true_iff in Hin. destruct Hin as [Ht Hb].
  cbn. apply String.eqb_eq in Ht. apply negb_true_iff in Hb. auto.
Qed.

Lemma task_bind_Ok_inv {A B} (t : Task A) (k : A -> Task B) (b : B) :
  snd (task_bind t k) = Ok b -> exists a, snd t = Ok a /\ snd (k a) = Ok b.
Proof.
  destruct t as [cs [a|e]]; cbn; [|discriminate].
  destruct (k a) as [cs' r] eqn:Hk. cbn. intros ->. exists a. rewrite Hk. auto.
Qed.

Lemma task_catch_rethrow_Ok_inv {A} (t : Task A) (handler : Thrown -> Task A) (a : A) :
  (forall e, exists e', snd (handler e) = Throw e') ->
  snd (task_catch t handler) = Ok a -> snd t = Ok a.
Proof.
  intros Hh. destruct t as [cs [a'|e]]; cbn; trivial.
  destruct (Hh e) as [e' He']. destruct (handler e) as [cs' r]. cbn in *. subst r.
  discriminate.
Qed.

(** X7. When [loadLegalCodes] returns, it returns at least one article;
    the BGB articles come first, then the HGB ones; each is an entry of
    type ['article'] with a body that is not empty, from a legal code that
    is enabled. *)
Theorem loadLegalCodes_spec (cfg : Config) (w : World) (articles : list LegalArticle) :
  snd (loadLegalCodes cfg w) = Ok articles ->
  articles <> [] /\
  exists bgbArticles hgbArticles,
    articles = bgbArticles ++ hgbArticles /\
    Forall (fun a => type_ a = "article" /\ falsy (body a) = false /\
                     source a = BGB /\ ENABLE_BGB cfg = true) bgbArticles /\
    Forall (fun a => type_ a = "article" /\ falsy (body a) = false /\
                     source a = HGB /\ ENABLE_HGB cfg = true) hgbArticles.
Proof.
  unfold loadLegalCodes. intros H.
  apply task_catch_rethrow_Ok_inv in H; [|intros e; eexists; reflexivity].
  apply task_bind_Ok_inv in H. destruct H as (bgbArticles & Hbgb & H).
  apply task_bind_Ok_inv in H. destruct H as (hgbArticles & Hhgb & H).
  cbv zeta in H.
  destruct (Z.eqb_spec (len (bgbArticles ++ hgbArticles)) 0) as [|Hne];
    [discriminate H|].
  cbn in H. inversion H; subst. clear H.
  split; [intros Hnil; rewrite Hnil in Hne; apply Hne; reflexivity|].
  exists bgbArticles, hgbArticles. split; [reflexivity|]. split.
  - destruct (ENABLE_BGB cfg).
    + apply loadCode_spec in Hbgb. eapply Forall_impl; [|exact Hbgb]. cbn. tauto.
    + inversion Hbgb. constructor.
  - destruct (ENABLE_HGB cfg).
    + apply loadCode_spec in Hhgb. eapply Forall_impl; [|exact Hhgb]. cbn. tauto.
    + inversion Hhgb. constructor.
Qed.

Lemma loadLegalCodes_spec_witness :
  snd (loadLegalCodes sourceConfig sampleWorld) = Ok [article1withTags] /\
  [article1withTags] <> [] /\
  exists bgbArticles hgbArticles,
    [article1withTags] = bgbArticles ++ hgbArticles /\
    Forall (fun a => type_ a = "article" /\ falsy (body a) = false /\
                     source a = BGB /\ ENABLE_BGB sourceConfig = true) bgbArticles /\
    Forall (fun a => type_ a = "article" /\ falsy (body a) = false /\
                     source a = HGB /\ ENABLE_HGB sourceConfig = true) hgbArticles.
Proof.
  assert (H : snd (loadLegalCodes sourceConfig sampleWorld) = Ok [article1withTags])
    by reflexivity.
  split; [exact H|]. exact (@loadLegalCodes_spec sourceConfig sampleWorld _ H).
Defined.

(** X8. When the file of an enabled legal code is not in the bucket,
    [loadLegalCodes] throws after that one bucket call, with the message of
    the missing file behind the prefix of the loader. *)
Theorem loadLegalCodes_missing_file (cfg : Config) (w : World) :
  ENABLE_BGB cfg = false -> ENABLE_HGB cfg = true ->
  research_assets_get w "hgb.json" = Ok None ->
  loadLegalCodes cfg w
  = ([CallBucketGet "hgb.json"],
     Throw (ErrorObj "Failed to load legal codes: HGB file not found in R2")).
Proof.
  intros Hb Hh Hget. unfold loadLegalCodes, loadCode. rewrite Hb, Hh. cbn.
  rewrite Hget. reflexivity.
Qed.

Lemma loadLegalCodes_missing_file_witness :
  loadLegalCodes sourceConfig emptyBucketWorld
  = ([CallBucketGet "hgb.json"],
     Throw (ErrorObj "Failed to load legal codes: HGB file not found in R2")).
Proof.
  apply (@loadLegalCodes_missing_file sourceConfig emptyBucketWorld); reflexivity.
Defined.

Lemma addArticleTasks_closed (cfg : Config) (result : BlockResult)
    (block : option ContractBlock) (articles : list RelevantArticle) :
  forall reviewTasks skippedArticles,
    fold_left
      (fun '(reviewTasks, skippedArticles) article =>
         if negb (existsb (Source_eqb (ra_source article)) (availableSources cfg))
         then (reviewTasks, skippedArticles + 1)
         else (reviewTasks ++ [ {| t_blockIndex := contractBlockIndex result;
                                   t_block := block; t_article := article |} ],
               skippedArticles))
      articles (reviewTasks, skippedArticles)
    = (reviewTasks ++
       map (fun article => {| t_blockIndex := contractBlockIndex result;
                              t_block := block; t_article := article |})
         (filter (fun article =>
                    existsb (Source_eqb (ra_source article)) (availableSources cfg))
            articles),
       skippedArticles +
       len (filter (fun article =>
                      negb (existsb (Source_eqb (ra_source article))
                              (availableSources cfg)))
              articles)).
Proof.
  induction articles as [|article articles IH]; intros reviewTasks skippedArticles;
    cbn [fold_left filter map].
  - now rewrite app_nil_r, Z.add_0_r.
  - destruct (existsb (Source_eqb (ra_source article)) (availableSources cfg));
      cbn [negb]; rewrite IH.
    + cbn [map]. now rewrite <- app_assoc.
    + f_equal. unfold len. cbn [List.length]. lia.
Qed.

Lemma deriveReviewTasks_from (cfg : Config) (contractBlocks0 : list ContractBlock)
    (blocksNeedingReview : list BlockResult) :
  forall reviewTasks skippedArticles,
    fold_left
      (fun acc result =>
         let block := at_index contractBlocks0 (contractBlockIndex result) in
         addArticleTasks cfg result block acc)
      blocksNeedingReview (reviewTasks, skippedArticles)
    = (reviewTasks ++
       flat_map
         (fun result =>
            map (fun article =>
                   {| t_blockIndex := contractBlockIndex result;
                      t_block := at_index contractBlocks0 (contractBlockIndex result);
                      t_article := article |})
              (filter (fun article =>
                         existsb (Source_eqb (ra_source article)) (availableSources cfg))
                 (relevantArticles result)))
         blocksNeedingReview,
       skippedArticles +
       len (filter (fun article =>
                      negb (existsb (Source_eqb (ra_source article))
                              (availableSources cfg)))
              (flat_map relevantArticles blocksNeedingReview))).
Proof.
  induction blocksNeedingReview as [|result rest IH]; intros reviewTasks skippedArticles;
    cbn [fold_left flat_map].
  - cbn. now rewrite app_nil_r, Z.add_0_r.
  - cbv zeta. unfold addArticleTasks at 2. rewrite addArticleTasks_closed, IH.
    rewrite <- app_assoc, filter_app, len_app. f_equal. lia.
Qed.

(** X9. The derivation of the Phase 2 tasks: the tasks are, block by
    block and in order, the relevant articles whose legal code is enabled,
    each with the index and the text of its block; the count of skipped
    articles is the number of relevant articles whose legal code is
    disabled, each counted once. *)
Theorem deriveReviewTasks_spec (cfg : Config) (contractBlocks0 : list ContractBlock)
    (blocksNeedingReview : list BlockResult) :
  let enabled article :=
    existsb (Source_eqb (ra_source article)) (availableSources cfg) in
  deriveReviewTasks cfg contractBlocks0 blocksNeedingReview
  = (flat_map
       (fun result =>
          map (fun article =>
                 {| t_blockIndex := contractBlockIndex result;
                    t_block := at_index contractBlocks0 (contractBlockIndex result);
                    t_article := article |})
            (filter enabled (relevantArticles result)))
       blocksNeedingReview,
     len (filter (fun article => negb (enabled article))
            (flat_map relevantArticles blocksNeedingReview))).
Proof.
  cbv zeta. unfold deriveReviewTasks. rewrite deriveReviewTasks_from. reflexivity.
Qed.

(** X10. A Phase 2 task whose article is not in the loaded legal codes
    under the exact name and source gives no result, without any external
    call and without an error. *)
Theorem performDeepAnalysis_not_found (w : World) (block : option ContractBlock)
    (blockIndex : Z) (identifiedArticle : RelevantArticle)
    (allLegalArticles : list LegalArticle) (language : string) :
  falsy (OPENROUTER_API_KEY w) = false ->
  (forall a, In a allLegalArticles ->
             name a <> articleName identifiedArticle \/
             source a <> ra_source identifiedArticle) ->
  performDeepAnalysis w block blockIndex identifiedArticle allLegalArticles language
  = ([], Ok None).
Proof.
  intros Hkey Hnone. unfold performDeepAnalysis. rewrite Hkey. cbv zeta.
  assert (Hfind : find (fun a => String.eqb (name a) (articleName identifiedArticle)
                                 && Source_eqb (source a) (ra_source identifiedArticle))
                    allLegalArticles = None).
  { induction allLegalArticles as [|a l IH]; cbn [find]; [reflexivity|].
    assert (Ha : String.eqb (name a) (articleName identifiedArticle)
                 && Source_eqb (source a) (ra_source identifiedArticle) = false).
    { apply andb_false_iff. destruct (Hnone a (or_introl eq_refl)) as [Hn|Hs].
      - left. now apply String.eqb_neq.
      - right. destruct (source a), (ra_source identifiedArticle); trivial; congruence. }
    rewrite Ha. apply IH. intros b Hb. apply Hnone. now right. }
  rewrite Hfind. reflexivity.
Qed.

Lemma performDeepAnalysis_not_found_witness :
  performDeepAnalysis sampleWorld (Some sampleBlock) 0
    {| articleName := "HGB Art 1"; articleTitle := "First"; ra_source := HGB;
       reason := "Liability" |}
    [article1withTags] "English"
  = ([], Ok None).
Proof.
  apply performDeepAnalysis_not_found; [reflexivity|].
  intros a [<-|[]]. left. discriminate.
Defined.

(** X11. A Phase 2 task whose two passes answer gives a result with the
    block index of the task, the name, title and source of the article as
    Phase 1 identified it, and the severity, details and recommendation of
    the structured pass; it makes the two inference calls in this order. *)
Theorem performDeepAnalysis_result (w : World) (contractBlock : ContractBlock)
    (blockIndex : Z) (identifiedArticle : RelevantArticle)
    (allLegalArticles : list LegalArticle) (fullArticle : LegalArticle)
    (language text : string) (object : AnalysisObject) :
  falsy (OPENROUTER_API_KEY w) = false ->
  find (fun a => String.eqb (name a) (articleName identifiedArticle)
                 && Source_eqb (source a) (ra_source identifiedArticle))
    allLegalArticles = Some fullArticle ->
  generateText_analysis w contractBlock identifiedArticle (strippedBody fullArticle)
    language = Ok text ->
  generateObject_analysis w text = Ok object ->
  performDeepAnalysis w (Some contractBlock) blockIndex identifiedArticle
    allLegalArticles language
  = ([CallGenerateText "google/gemini-2.5-flash-lite";
      CallGenerateObject "google/gemini-2.5-flash-lite"],
     Ok (Some {| da_contractBlockIndex := blockIndex;
                 da_articleName := articleName identifiedArticle;
                 da_articleTitle := articleTitle identifiedArticle;
                 da_source := ra_source identifiedArticle;
                 severity := o_severity object;
                 violationDetails := o_violationDetails object;
                 recommendation := o_recommendation object |})).
Proof.
  intros Hkey Hfind Htext Hobj. unfold performDeepAnalysis.
  rewrite Hkey. cbv zeta. rewrite Hfind, Htext. cbn. rewrite Hobj. reflexivity.
Qed.

Lemma performDeepAnalysis_result_witness :
  performDeepAnalysis sampleWorld (Some sampleBlock) 0 sampleRelevantArticle
    [article1withTags] "English"
  = ([CallGenerateText "google/gemini-2.5-flash-lite";
      CallGenerateObject "google/gemini-2.5-flash-lite"],
     Ok (Some {| da_contractBlockIndex := 0;
                 da_articleName := articleName sampleRelevantArticle;
                 da_articleTitle := articleTitle sampleRelevantArticle;
                 da_source := ra_source sampleRelevantArticle;
                 severity := critical;
                 violationDetails := "The exclusion is void.";
                 recommendation := "Limit the exclusion." |})).
Proof.
  apply (@performDeepAnalysis_result sampleWorld sampleBlock 0 sampleRelevantArticle
           [article1withTags] article1withTags "English" "The clause is void."
           {| o_severity := critical; o_violationDetails := "The exclusion is void.";
              o_recommendation := "Limit the exclusion." |}); reflexivity.
Defined.

(** X12. When no block of Phase 1 needs a deep review, Phase 2 does
    nothing: no task, no step, no external call, no write. *)
Theorem phase2Stage_nothing_to_review (cfg : Config) (w : World)
    (params : LegalComplianceParams) (phase1Results : list BlockResult)
    (language : string) (s : St Compliance) :
  Forall (fun r => needsDeepReview r = false) phase1Results ->
  phase2Stage cfg w params phase1Results language s = (Ok [], s).
Proof.
  intros Hnone. unfold phase2Stage.
  assert (Hfilter : filter needsDeepReview phase1Results = []).
  { induction Hnone as [|r l Hr _ IH]; cbn [filter]; [reflexivity|]. now rewrite Hr. }
  rewrite Hfilter. reflexivity.
Qed.

Lemma phase2Stage_nothing_to_review_witness :
  Forall (fun r => needsDeepReview r = false) (emptyBlockResults [sampleBlock] 0) /\
  phase2Stage sourceConfig sampleWorld sampleParams (emptyBlockResults [sampleBlock] 0)
    "English" (initial pendingCompliance)
  = (Ok [], initial pendingCompliance).
Proof.
  assert (H : Forall (fun r => needsDeepReview r = false)
                (emptyBlockResults [sampleBlock] 0)) by (repeat constructor).
  split; [exact H|].
  exact (@phase2Stage_nothing_to_review sourceConfig sampleWorld sampleParams _
           "English" (initial pendingCompliance) H).
Defined.

End ComplianceHelpers.

(** ** The helpers of the PDF parser workflow *)

Lemma append_assoc (s t u : string) : (s +++ t) +++ u = s +++ t +++ u.
Proof. induction s as [|c s IH]; cbn; [|rewrite IH]; reflexivity. Qed.

Lemma append_nil_r (s : string) : s +++ "" = s.
Proof. induction s as [|c s IH]; cbn; [|rewrite IH]; reflexivity. Qed.

Lemma string_of_list_ascii_app (l l' : list ascii) :
  string_of_list_ascii (l ++ l') = string_of_list_ascii l +++ string_of_list_ascii l'.
Proof. induction l as [|c l IH]; cbn; [|rewrite IH]; reflexivity. Qed.

Section PdfHelpers.
Import PdfParserWorkflow.

Lemma binaryString_loop_spec (uint8Array : list ascii) (chunkSize : Z) :
  0 < chunkSize ->
  forall fuel i binaryString,
    0 <= i -> (Z.to_nat (len uint8Array - i) <= fuel)%nat ->
    binaryString_loop fuel uint8Array chunkSize i binaryString
    = Some (binaryString +++ string_of_list_ascii (skipn (Z.to_nat i) uint8Array)).
Proof.
  intros Hs fuel.
  assert (Hdone : forall i, 0 <= i -> len uint8Array <= i ->
            skipn (Z.to_nat i) uint8Array = []).
  { intros i Hi Hge. apply skipn_all2. unfold len in Hge. lia. }
  induction fuel as [|fuel IH]; intros i binaryString Hi Hfuel; cbn [binaryString_loop].
  - destruct (Z.ltb_spec i (len uint8Array)); [lia|].
    rewrite Hdone by lia. cbn. now rewrite append_nil_r.
  - destruct (Z.ltb_spec i (len uint8Array)) as [Hlt|Hge].
    + rewrite IH by lia. f_equal. rewrite append_assoc. f_equal.
      unfold fromCharCode. rewrite slice_forward by lia.
      rewrite <- string_of_list_ascii_app. f_equal.
      replace (Z.to_nat (i + chunkSize)) with (Z.to_nat i + Z.to_nat chunkSize)%nat by lia.
      rewrite Nat.add_comm, <- skipn_skipn. apply firstn_skipn.
    + rewrite Hdone by lia. cbn. now rewrite append_nil_r.
Qed.

Lemma binaryString_of_bytes (uint8Array : list ascii) :
  binaryString_of uint8Array = string_of_list_ascii uint8Array.
Proof.
  unfold binaryString_of.
  rewrite binaryString_loop_spec by (unfold len; lia). reflexivity.
Qed.

(** X13. [getObject] on an object of the bucket makes one bucket call and
    returns the Base64 text of the bytes of the object: the conversion in
    chunks of 8192 bytes loses and reorders nothing. *)
Theorem getObject_base64 (w : World) (key : string) (object : R2Object)
    (bytes : list ascii) :
  research_assets_get w key = Ok (Some object) ->
  arrayBuffer object = Ok bytes ->
  getObject w key = ([CallBucketGet key], Ok (btoa (string_of_list_ascii bytes))).
Proof.
  intros Hget Hbytes. unfold getObject. cbn. rewrite Hget. cbn. rewrite Hbytes. cbn.
  now rewrite binaryString_of_bytes.
Qed.

Lemma getObject_base64_witness :
  getObject sampleWorld "contracts/sample.pdf"
  = ([CallBucketGet "contracts/sample.pdf"],
     Ok (btoa (string_of_list_ascii (list_ascii_of_string "%PDF-1.7")))).
Proof.
  apply (@getObject_base64 sampleWorld "contracts/sample.pdf"
           {| arrayBuffer := Ok (list_ascii_of_string "%PDF-1.7") |}); reflexivity.
Defined.

(** X14. [getObject] on a key that is not in the bucket throws after the
    one bucket call; the message names the key behind the prefix of the
    helper. *)
Theorem getObject_not_found (w : World) (key : string) :
  research_assets_get w key = Ok None ->
  getObject w key
  = ([CallBucketGet key],
     Throw (ErrorObj ("Failed to fetch object from R2: "
                      +++ "Object not found in R2 with key: " +++ key))).
Proof. intros Hget. unfold getObject. cbn. rewrite Hget. reflexivity. Qed.

Lemma getObject_not_found_witness :
  getObject emptyBucketWorld "contracts/missing.pdf"
  = ([CallBucketGet "contracts/missing.pdf"],
     Throw (ErrorObj ("Failed to fetch object from R2: "
                      +++ "Object not found in R2 with key: "
                      +++ "contracts/missing.pdf"))).
Proof. apply (@getObject_not_found emptyBucketWorld); reflexivity. Defined.

Lemma highlight_bounds (contentLength : Z) (object : ReviewObject) :
  0 <= contentLength ->
  let '(start0, end0) := highlight contentLength object in
  0 <= start0 <= end0 /\ end0 <= contentLength /\
  (o_severity object = safe -> start0 = end0 -> contentLength = 0).
Proof.
  intros Hlen. unfold highlight.
  set (a := Z.max 0 (Z.min (o_start object) contentLength)).
  set (b := Z.max 0 (Z.min (o_end object) contentLength)).
  assert (0 <= a <= contentLength) by (subst a; lia).
  assert (0 <= b <= contentLength) by (subst b; lia).
  destruct (Z.gtb_spec a b);
    destruct (o_severity object); cbn [Severity_eqb];
    repeat match goal with
           | |- context [?x =? ?y] => destruct (Z.eqb_spec x y)
           end; cbn [orb];
    (split; [|split]); try lia; try (intros Hsafe; discriminate Hsafe); intros _ ?; lia.
Qed.

(** X15. Every review that [reviewBlock] returns has a highlight inside
    the content of its block, 0 <= start <= end <= length; and the
    highlight of a [safe] review is empty only on an empty content. *)
Theorem reviewBlock_highlight (w : World) (block : ContractBlock) (blockIndex0 : Z)
    (language : string) (review : ContractBlockReview) :
  snd (reviewBlock w block blockIndex0 language) = Ok review ->
  0 <= start review <= end_ review /\
  end_ review <= Z.of_nat (String.length (content block)) /\
  (severity review = safe -> start review = end_ review -> content block = "").
Proof.
  unfold reviewBlock. destruct (falsy (OPENROUTER_API_KEY w)); [discriminate|].
  destruct (generateObject_review w block language) as [object|e]; cbn; [|discriminate].
  pose proof (@highlight_bounds (Z.of_nat (String.length (content block))) object
                ltac:(lia)) as H.
  destruct (highlight _ object) as [start0 end0]. cbn.
  intros Hr. inversion Hr; subst. cbn.
  destruct H as (H1 & H2 & H3). split; [exact H1|]. split; [exact H2|].
  intros Hsafe Heq. specialize (H3 Hsafe Heq).
  destruct (content block); [reflexivity|cbn in H3; lia].
Qed.

Lemma reviewBlock_highlight_witness :
  exists review,
    snd (reviewBlock sampleWorld sampleBlock 0 "English") = Ok review /\
    0 <= start review <= end_ review /\
    end_ review <= Z.of_nat (String.length (content sampleBlock)) /\
    (severity review = safe -> start review = end_ review -> content sampleBlock = "").
Proof.
  eexists. split; [reflexivity|].
  apply (@reviewBlock_highlight sampleWorld sampleBlock 0 "English"). reflexivity.
Defined.

Lemma sort_insert_high (x : ContractBlockReview) (l : list ContractBlockReview) :
  severity x = high ->
  sort_insert (fun a b => severityOrder (severity b) - severityOrder (severity a)) x l
  = x :: l.
Proof.
  intros Hx. destruct l as [|y l]; [reflexivity|]. cbn [sort_insert]. rewrite Hx.
  destruct (severity y); reflexivity.
Qed.

Lemma sort_insert_elevated (x : ContractBlockReview)
    (highs elevateds : list ContractBlockReview) :
  severity x = elevated ->
  Forall (fun r => severity r = high) highs ->
  Forall (fun r => severity r = elevated) elevateds ->
  sort_insert (fun a b => severityOrder (severity b) - severityOrder (severity a)) x
    (highs ++ elevateds)
  = highs ++ x :: elevateds.
Proof.
  intros Hx Hh He. induction Hh as [|y highs Hy _ IH]; cbn [app].
  - destruct He as [|y elevateds Hy _]; [reflexivity|].
    cbn [sort_insert]. rewrite Hx, Hy. reflexivity.
  - cbn [sort_insert]. rewrite Hx, Hy. cbn. now rewrite IH.
Qed.

Lemma filter_severity_Forall (s : Severity) (l : list ContractBlockReview) :
  Forall (fun r => severity r = s) (filter (fun r => Severity_eqb (severity r) s) l).
Proof.
  apply Forall_forall. intros r Hin. apply filter_In in Hin. destruct Hin as [_ H].
  destruct (severity r), s; trivial; discriminate.
Qed.

Lemma sort_by_severity (issues : list ContractBlockReview) :
  Forall (fun r => severity r = high \/ severity r = elevated) issues ->
  sort_by (fun a b => severityOrder (severity b) - severityOrder (severity a)) issues
  = filter (fun r => Severity_eqb (severity r) high) issues
    ++ filter (fun r => Severity_eqb (severity r) elevated) issues.
Proof.
  induction 1 as [|r issues Hr Hall IH]; [reflexivity|].
  cbn [sort_by filter]. rewrite IH.
  destruct Hr as [Hr|Hr]; rewrite Hr; cbn [Severity_eqb app].
  - now apply sort_insert_high.
  - apply sort_insert_elevated; trivial; apply filter_severity_Forall.
Qed.

Lemma slice_from_zero {T} (array : list T) (n : Z) :
  0 < n -> slice array 0 n = firstn (Z.to_nat n) array.
Proof.
  intros Hn. pose proof (@slice_forward T array 0 n ltac:(lia) Hn) as H.
  rewrite Z.add_0_l in H. exact H.
Qed.

Lemma filter_filter_sub {X} (f g : X -> bool) (l : list X) :
  (forall x, f x = true -> g x = true) -> filter f (filter g l) = filter f l.
Proof.
  intros Hsub. induction l as [|x l IH]; [reflexivity|]. cbn [filter].
  destruct (g x) eqn:Hg; cbn [filter].
  - now rewrite IH.
  - destruct (f x) eqn:Hf; [rewrite (Hsub x Hf) in Hg; discriminate|exact IH].
Qed.

(** X16. The issues handed to the summary are at most three reviews of
    severity [high] or [elevated]: the [high] ones in the order of the
    reviews, then the [elevated] ones in the order of the reviews, cut after
    the third. *)
Theorem highSeverityIssues_spec (reviews0 : list ContractBlockReview) :
  highSeverityIssues reviews0
  = firstn 3 (filter (fun r => Severity_eqb (severity r) high) reviews0
              ++ filter (fun r => Severity_eqb (severity r) elevated) reviews0).
Proof.
  unfold highSeverityIssues. rewrite slice_from_zero by lia.
  change (Z.to_nat 3) with 3%nat. f_equal.
  rewrite sort_by_severity.
  - rewrite !filter_filter_sub; [reflexivity| |]; intros r Hr; rewrite Hr;
      [apply orb_true_r|reflexivity].
  - apply Forall_forall. intros r Hin. apply filter_In in Hin. destruct Hin as [_ H].
    destruct (severity r); cbn in H; try discriminate; auto.
Qed.


End PdfHelpers.

Lemma string_of_uint_digits (d : Decimal.uint) :
  includes_char "-" (NilEmpty.string_of_uint d) = false.
Proof. induction d; cbn; trivial. Qed.

Lemma string_of_Z_no_minus (n : Z) : 0 <= n -> includes_char "-" (string_of_Z n) = false.
Proof.
  intros Hn. unfold string_of_Z. destruct n as [|p|p]; [reflexivity| |lia].
  cbn [Z.to_int NilZero.string_of_int]. unfold NilZero.string_of_uint.
  destruct (Pos.to_uint p) eqn:Hp; try apply string_of_uint_digits.
  reflexivity.
Qed.

Lemma string_of_Z_inj (n m : Z) : string_of_Z n = string_of_Z m -> n = m.
Proof.
  unfold string_of_Z. intros H.
  assert (Hnn : forall z, Z.to_int z <> Decimal.Pos Decimal.Nil /\
                          Z.to_int z <> Decimal.Neg Decimal.Nil).
  { intros [|p|p]; cbn; split; try discriminate;
      intros Hc; inversion Hc as [Hp]; exact (Unsigned.to_uint_nonnil p Hp). }
  pose proof (NilZero.isi (Z.to_int n) (proj1 (Hnn n)) (proj2 (Hnn n))) as Hn.
  pose proof (NilZero.isi (Z.to_int m) (proj1 (Hnn m)) (proj2 (Hnn m))) as Hm.
  rewrite H, Hm in Hn. inversion Hn as [Heq].
  rewrite <- (DecimalZ.of_to n), <- (DecimalZ.of_to m). now rewrite Heq.
Qed.

(** Two texts cut at their first ["-"]. *)
Lemma append_dash_inj (s s' t t' : string) :
  includes_char "-" s = false -> includes_char "-" s' = false ->
  s +++ "-" +++ t = s' +++ "-" +++ t' -> s = s' /\ t = t'.
Proof.
  revert s'. induction s as [|c s IH]; intros s' Hs Hs' H; destruct s' as [|c' s'];
    cbn in *.
  - inversion H. auto.
  - inversion H; subst. discriminate Hs'.
  - inversion H; subst. discriminate Hs.
  - inversion H; subst. apply orb_false_iff in Hs, Hs'.
    destruct (IH s') as [-> ->]; tauto.
Qed.

Section AnchorIds.
Import PdfParserWorkflow.

Lemma tagBlocks_anchorIds (pageNumber0 : Z) (paragraphs : list Paragraph) :
  map anchorId (tagBlocks pageNumber0 paragraphs)
  = map (fun n => Some ("p" +++ string_of_Z pageNumber0 +++ "-"
                        +++ string_of_Z (Z.of_nat n)))
      (seq 0 (List.length paragraphs)).
Proof.
  unfold tagBlocks, map_indexed. rewrite map_map_indexed_from. cbn [anchorId].
  rewrite (map_indexed_from_seq
             (fun k => Some ("p" +++ string_of_Z pageNumber0 +++ "-" +++ string_of_Z k))).
  reflexivity.
Qed.

Lemma anchorId_inj (p p' i i' : Z) :
  0 <= p -> 0 <= p' ->
  "p" +++ string_of_Z p +++ "-" +++ string_of_Z i
  = "p" +++ string_of_Z p' +++ "-" +++ string_of_Z i' ->
  p = p' /\ i = i'.
Proof.
  intros Hp Hp' H. cbn in H. inversion H as [H'].
  apply append_dash_inj in H'; try now apply string_of_Z_no_minus.
  destruct H' as [H1 H2]. split; now apply string_of_Z_inj.
Qed.

(** X17. The anchor ids of the blocks of a document are pairwise
    different: two blocks have the same anchor id only when they are the same
    block of the same page. *)
Theorem anchorIds_unique (extracted : Z -> list Paragraph) (totalPages0 : Z) :
  NoDup (map anchorId
           (flat_map (fun p => tagBlocks p (extracted p)) (pages_of totalPages0))).
Proof.
  pose proof (pages_of_sorted totalPages0) as Hsorted.
  assert (Hpos : Forall (fun p => 0 <= p) (pages_of totalPages0)).
  { unfold pages_of. apply Forall_map, Forall_forall. intros; lia. }
  induction Hsorted as [|p pages Hs IH Hp]; cbn [flat_map map]; [constructor|].
  inversion Hpos as [|? ? Hp0 Hpos']; subst.
  rewrite map_app. apply NoDup_app.
  - rewrite tagBlocks_anchorIds. apply Finite.Injective_map_NoDup; [|apply seq_NoDup].
    intros n m H.
    assert (H' : "p" +++ string_of_Z p +++ "-" +++ string_of_Z (Z.of_nat n)
                 = "p" +++ string_of_Z p +++ "-" +++ string_of_Z (Z.of_nat m))
      by congruence.
    apply anchorId_inj in H'; lia.
  - apply IH, Hpos'.
  - intros a Ha Hb. rewrite tagBlocks_anchorIds in Ha.
    apply in_map_iff in Ha. destruct Ha as (n & <- & _).
    apply in_map_iff in Hb. destruct Hb as (b & Hb & Hin).
    apply in_flat_map in Hin. destruct Hin as (q & Hq & Hin).
    pose proof (tagBlocks_anchorIds q (extracted q)) as Hanchors.
    assert (Hbin : In (anchorId b) (map anchorId (tagBlocks q (extracted q))))
      by now apply in_map.
    rewrite Hanchors, Hb in Hbin. apply in_map_iff in Hbin.
    destruct Hbin as (m & Hm & _).
    rewrite Forall_forall in Hp, Hpos'.
    specialize (Hp q Hq). specialize (Hpos' q Hq).
    assert (Heq : "p" +++ string_of_Z q +++ "-" +++ string_of_Z (Z.of_nat m)
                  = "p" +++ string_of_Z p +++ "-" +++ string_of_Z (Z.of_nat n))
      by congruence.
    apply anchorId_inj in Heq; lia.
Qed.

End AnchorIds.

(** ** What the stages return *)

Lemma wp_for_indexed_nth {J X S} (body : Z -> X -> S -> W J S)
    (Inv : Z -> S -> St J -> Prop) (QT : Thrown -> St J -> Prop) (items : list X) :
  forall (done : list X) (rest : list X) (acc : S) (s : St J),
    items = done ++ rest ->
    (forall k x acc s,
        nth_error items (Z.to_nat k) = Some x -> 0 <= k < len items -> Inv k acc s ->
        wp (body k x acc) (fun r s' => match r with
                                       | Ok acc' => Inv (k + 1) acc' s'
                                       | Throw e => QT e s'
                                       end) s) ->
    Inv (len done) acc s ->
    wp (for_indexed rest (len done) acc body)
       (fun r s' => match r with
                    | Ok acc' => Inv (len items) acc' s'
                    | Throw e => QT e s'
                    end) s.
Proof.
  intros done rest. revert done.
  induction rest as [|x rest IH]; intros done acc s Hitems Hbody Hinv; cbn [for_indexed].
  - apply wp_ret. rewrite app_nil_r in Hitems. now subst.
  - apply wp_bind. eapply wp_conseq.
    + apply Hbody; [| |exact Hinv].
      * subst items. unfold len. rewrite Nat2Z.id, nth_error_app2, Nat.sub_diag by lia.
        reflexivity.
      * subst items. rewrite len_app. unfold len. cbn [List.length]. lia.
    + intros [acc'|e] s' H; trivial.
      replace (len done + 1) with (len (done ++ [x])) in *
        by (rewrite len_app; reflexivity).
      apply IH; trivial. now rewrite <- app_assoc.
Qed.

Lemma Promise_all_tasks_results {J X A} (name : X -> string) (t : X -> Task A)
    (l : list X) (s : St J) :
  wp (Promise_all (map (fun x => step_do (name x) (run_task (t x))) l))
     (fun r s' => job s' = job s /\ writes s' = writes s /\
                  match r with
                  | Ok rs => Forall2 (fun x r => snd (t x) = Ok r) l rs
                  | Throw _ => True
                  end) s.
Proof.
  revert s. induction l as [|x l IH]; intros s; cbn [map Promise_all].
  - apply wp_ret. repeat split. constructor.
  - apply wp_bind. unfold wp at 1. cbn [step_do run_task fst snd].
    destruct (snd (t x)) as [a|e] eqn:Hx; [|cbn; auto].
    apply wp_bind. eapply wp_conseq; [apply IH|].
    intros [rs|e] s' (Hj & Hw & H); cbn in *; [|auto].
    apply wp_ret. repeat split; trivial. constructor; trivial.
Qed.

Lemma task_all_results {A} (tasks : list (Task A)) (rs : list A) :
  snd (task_all tasks) = Ok rs -> Forall2 (fun t r => snd t = Ok r) tasks rs.
Proof.
  revert rs. induction tasks as [|t tasks IH]; intros rs; cbn [task_all].
  - cbn. intros H. inversion H. constructor.
  - intros H. apply task_bind_Ok_inv in H. destruct H as (a & Ha & H).
    apply task_bind_Ok_inv in H. destruct H as (r & Hr & H).
    cbn in H. inversion H; subst. constructor; auto.
Qed.

Lemma firstn_succ_nth {X} (l : list X) (k : nat) (x : X) :
  nth_error l k = Some x -> firstn (S k) l = firstn k l ++ [x].
Proof.
  revert k. induction l as [|y l IH]; intros [|k] H; cbn in *; try discriminate.
  - now inversion H.
  - now rewrite (IH k H).
Qed.

Lemma sorted_chunk (chunks : list (list Z)) (x : list Z) :
  StronglySorted Z.lt (List.concat chunks) -> In x chunks -> StronglySorted Z.lt x.
Proof.
  induction chunks as [|c chunks IH]; intros Hs Hin; [destruct Hin|].
  cbn [List.concat] in Hs. apply StronglySorted_app in Hs. destruct Hs as (H1 & H2 & _).
  destruct Hin as [->|Hin]; auto.
Qed.

Section ParseStageResult.
Import PdfParserWorkflow.

Lemma parsePageStep_result (w : World) (key language : string) (p : Z) (r : PageResult) :
  snd (parsePageStep w key p language) = Ok r ->
  r = pageResult (extractedBy w key language) p.
Proof.
  unfold parsePageStep, pageResult, extractedBy. intros H.
  apply task_bind_Ok_inv in H. destruct H as (pdf & Hpdf & H).
  apply task_bind_Ok_inv in H. destruct H as (blocks0 & Hblocks & H).
  cbn in H. inversion H; subst. clear H. rewrite Hpdf. f_equal.
  unfold parsePdfPage in Hblocks.
  destruct (falsy (OPENROUTER_API_KEY w)); [discriminate|].
  destruct (generateObject_paragraphs w pdf p language); cbn in Hblocks;
    [now inversion Hblocks|discriminate].
Qed.

(** The blocks of the Parse stage, page by page. *)
Lemma parseStage_result (w : World) (params : PdfParserParams) (language : string)
    (s s' : St Research) (allBlocks : list ContractBlock) :
  parseStage w params language s = (Ok allBlocks, s') ->
  allBlocks
  = flat_map (fun p => tagBlocks p (extractedBy w (contractKey params) language p))
      (pages_of (totalPages params)) /\
  StronglySorted (fun a b => pageNumber a <= pageNumber b) allBlocks.
Proof.
  intros Hrun.
  set (F := fun p => tagBlocks p (extractedBy w (contractKey params) language p)).
  assert (Heq : allBlocks = flat_map F (pages_of (totalPages params))).
  { set (pageBatches := chunks_of (pages_of (totalPages params)) PAGES_PER_BATCH).
    destruct (@chunks_of_spec Z (pages_of (totalPages params)) PAGES_PER_BATCH)
      as (_ & _ & Hcat); [unfold PAGES_PER_BATCH; lia|]. fold pageBatches in Hcat.
    pose proof (pages_of_sorted (totalPages params)) as Hsorted. rewrite <- Hcat in Hsorted.
    assert (Hwp : wp (parseStage w params language)
                    (fun r _ => match r with
                                | Ok acc => acc = flat_map F
                                                    (List.concat
                                                       (firstn (Z.to_nat (len pageBatches))
                                                          pageBatches))
                                | Throw _ => True
                                end) s).
    { unfold parseStage. fold pageBatches.
      apply (@wp_for_indexed_nth Research _ _ _
               (fun k acc _ => acc = flat_map F
                                       (List.concat (firstn (Z.to_nat k) pageBatches)))
               (fun _ _ => True) pageBatches [] pageBatches [] s eq_refl);
        [|reflexivity].
      intros k pageBatch acc s0 Hnth Hk Hacc.
      apply wp_bind. eapply wp_conseq; [apply Promise_all_tasks_results|].
      intros [batchResults|e] s1 (_ & _ & Hres); [|exact I].
      apply wp_bind, wp_step_do, wp_db_update, wp_ret.
      assert (Hbatch : batchResults
                       = map (pageResult (extractedBy w (contractKey params) language))
                           pageBatch).
      { clear - Hres. induction Hres as [|p r l rs Hp _ IH]; [reflexivity|].
        cbn [map]. f_equal; [now apply parsePageStep_result|exact IH]. }
      assert (Hchunk : StronglySorted Z.lt pageBatch).
      { apply (sorted_chunk pageBatches); trivial. eapply nth_error_In; eauto. }
      unfold addBatchResults.
      rewrite (@sort_by_of_perm PageResult pr_pageNumber batchResults batchResults).
      - rewrite Hacc, Hbatch.
        replace (Z.to_nat (k + 1)) with (S (Z.to_nat k)) by lia.
        rewrite (firstn_succ_nth _ _ _ Hnth), concat_app, flat_map_app.
        cbn [List.concat]. rewrite app_nil_r. f_equal.
        rewrite flat_map_concat_map, map_map, <- flat_map_concat_map. reflexivity.
      - rewrite Hbatch, map_map. cbn [pageResult pr_pageNumber]. rewrite map_id.
        now apply StronglySorted_lt_NoDup.
      - rewrite Hbatch. clear - Hchunk.
        induction Hchunk as [|p l Hs IH Hp]; cbn [map]; constructor; trivial.
        apply Forall_forall. intros r Hr. apply in_map_iff in Hr.
        destruct Hr as (q & <- & Hq). rewrite Forall_forall in Hp. specialize (Hp _ Hq).
        cbn. lia.
      - reflexivity. }
    unfold wp in Hwp. rewrite Hrun in Hwp. cbn in Hwp.
    unfold len in Hwp. rewrite Nat2Z.id, firstn_all, Hcat in Hwp. exact Hwp. }
  split; [exact Heq|]. rewrite Heq.
  apply flat_map_pages_sorted, pages_of_sorted.
Qed.

(** X18. When the Parse stage returns, its blocks are those of the pages 1
    to [totalPages] in this order, each page with the blocks of its
    extraction in order, tagged with the page number and the anchor id; the
    page numbers of the blocks ascend. *)
Theorem parseStage_blocks (w : World) (params : PdfParserParams) (language : string)
    (s s' : St Research) (allBlocks : list ContractBlock) :
  parseStage w params language s = (Ok allBlocks, s') ->
  allBlocks
  = flat_map (fun p => tagBlocks p (extractedBy w (contractKey params) language p))
      (pages_of (totalPages params)) /\
  StronglySorted (fun a b => pageNumber a <= pageNumber b) allBlocks.
Proof. exact (@parseStage_result w params language s s' allBlocks). Qed.

Lemma parseStage_blocks_witness :
  exists s',
    parseStage sampleWorld sampleParams "English" (initial pendingResearch)
    = (Ok [sampleBlock], s') /\
    [sampleBlock]
    = flat_map (fun p => tagBlocks p
                           (extractedBy sampleWorld (contractKey sampleParams) "English" p))
        (pages_of (totalPages sampleParams)) /\
    StronglySorted (fun a b => pageNumber a <= pageNumber b) [sampleBlock].
Proof.
  eexists. split; [reflexivity|].
  eapply (parseStage_blocks sampleWorld sampleParams "English" (initial pendingResearch)).
  reflexivity.
Defined.

End ParseStageResult.

Lemma firstn_add_skipn {X} (a b : nat) (l : list X) :
  firstn (a + b) l = firstn a l ++ firstn b (skipn a l).
Proof.
  revert l. induction a as [|a IH]; intros l; [reflexivity|].
  destruct l as [|x l]; cbn [Nat.add firstn skipn app].
  - now rewrite firstn_nil.
  - now rewrite IH.
Qed.

Lemma seq_from (a b : nat) : seq a b = map (fun n => (a + n)%nat) (seq 0 b).
Proof.
  revert a. induction b as [|b IH]; intros a; cbn [seq map]; [reflexivity|].
  rewrite Nat.add_0_r. f_equal. rewrite (IH (S a)), (IH 1%nat), map_map.
  apply map_ext. intros n. lia.
Qed.

Lemma slices_prefix {T} (array : list T) (size : Z) (m : nat) :
  0 < size ->
  forall j : nat,
    (j <= m)%nat ->
    List.concat
      (firstn j (map (fun n => slice array (Z.of_nat n * size) (Z.of_nat n * size + size))
                   (seq 0 m)))
    = firstn (Z.to_nat (Z.of_nat j * size)) array.
Proof.
  intros Hs. induction j as [|j IH]; intros Hj; [reflexivity|].
  assert (Hnth : nth_error
                   (map (fun n => slice array (Z.of_nat n * size) (Z.of_nat n * size + size))
                      (seq 0 m)) j
                 = Some (slice array (Z.of_nat j * size) (Z.of_nat j * size + size))).
  { rewrite nth_error_map, nth_error_seq.
    destruct (Nat.ltb_spec j m); [reflexivity|lia]. }
  rewrite (firstn_succ_nth _ _ _ Hnth), concat_app, IH by lia.
  cbn [List.concat]. rewrite app_nil_r, slice_forward by nia.
  replace (Z.to_nat (Z.of_nat (S j) * size))
    with (Z.to_nat (Z.of_nat j * size) + Z.to_nat size)%nat by nia.
  now rewrite firstn_add_skipn.
Qed.

(** The chunks before the k-th one hold the first [k * size] items. *)
Lemma chunks_of_prefix {T} (array : list T) (size k : Z) :
  0 < size -> 0 <= k < len (chunks_of array size) ->
  List.concat (firstn (Z.to_nat k) (chunks_of array size))
  = firstn (Z.to_nat (k * size)) array /\
  k * size < len array.
Proof.
  intros Hs Hk.
  destruct (@chunks_of_spec T array size Hs) as (Hlen & _ & _).
  pose proof (Math_ceil_div_bounds (len array) size Hs) as Hb.
  rewrite Hlen in Hk. split; [|nia].
  rewrite (@chunks_of_closed T array size Hs), slices_prefix by lia.
  f_equal. lia.
Qed.

Lemma wp_step_task_result {J A} (name : string) (t : Task A) (s : St J) :
  wp (step_do name (run_task t)) (fun r _ => r = snd t) s.
Proof. reflexivity. Qed.

Section ReviewStageResult.
Import PdfParserWorkflow.

Lemma reviewBlock_Ok_blockIndex (w : World) (block : ContractBlock) (idx : Z)
    (language : string) (r : ContractBlockReview) :
  snd (reviewBlock w block idx language) = Ok r -> blockIndex r = idx.
Proof.
  unfold reviewBlock. destruct (falsy (OPENROUTER_API_KEY w)); [discriminate|].
  intros H. apply task_catch_rethrow_Ok_inv in H; [|intros e; eexists; reflexivity].
  apply task_bind_Ok_inv in H. destruct H as (object & _ & H).
  destruct (highlight _ object) as [a b]. cbn in H. inversion H. reflexivity.
Qed.

Lemma review_batch_results (w : World) (language : string) (base : Z)
    (batch : list ContractBlock) :
  forall (i : Z) (rs : list ContractBlockReview),
    Forall2 (fun t r => snd t = Ok r)
      (map_indexed_from i (fun block idx => reviewBlock w block (base + idx) language) batch)
      rs ->
    Forall2 (fun b r => snd (reviewBlock w b (blockIndex r) language) = Ok r) batch rs /\
    map blockIndex rs = map (fun n => base + i + Z.of_nat n) (seq 0 (List.length batch)).
Proof.
  induction batch as [|b batch IH]; intros i rs H; cbn [map_indexed_from] in H;
    inversion H as [|t r ts rs' Hr Hrs]; subst.
  - split; [constructor|reflexivity].
  - destruct (IH _ _ Hrs) as (H1 & H2).
    pose proof (reviewBlock_Ok_blockIndex _ _ _ _ _ Hr) as Hidx. split.
    + constructor; trivial. now rewrite Hidx.
    + cbn [map List.length seq]. rewrite Hidx, H2, (seq_from 1), map_map.
      f_equal; [lia|]. apply map_ext. intros n. lia.
Qed.

(** The reviews of the Review stage, block by block. *)
Lemma reviewStage_result (w : World) (allBlocks : list ContractBlock)
    (language : string) (s s' : St Research) (reviews : list ContractBlockReview) :
  reviewStage w allBlocks language s = (Ok reviews, s') ->
  Forall2 (fun b r => snd (reviewBlock w b (blockIndex r) language) = Ok r)
    allBlocks reviews /\
  map blockIndex reviews = map Z.of_nat (seq 0 (List.length allBlocks)).
Proof.
  intros Hrun.
  set (R := fun b r => snd (reviewBlock w b (blockIndex r) language) = Ok r).
  unfold reviewStage in Hrun. destruct (Z.ltb_spec 0 (len allBlocks)) as [Hpos|Hzero].
  2:{ cbn in Hrun. inversion Hrun; subst. destruct allBlocks; [|unfold len in *; cbn in *; lia].
      split; [constructor|reflexivity]. }
  set (batches := chunks_of allBlocks 30) in *.
  destruct (@chunks_of_spec _ allBlocks 30 ltac:(lia)) as (_ & _ & Hcat).
  fold batches in Hcat.
  match type of Hrun with ?m s = _ =>
    assert (Hwp : wp m
              (fun r _ => match r with
                          | Ok acc =>
                              Forall2 R (List.concat
                                           (firstn (Z.to_nat (len batches)) batches)) acc /\
                              map blockIndex acc = map Z.of_nat (seq 0 (List.length acc))
                          | Throw _ => True
                          end) s)
  end.
  { apply (@wp_for_indexed_nth Research _ _ _
             (fun k acc _ =>
                Forall2 R (List.concat (firstn (Z.to_nat k) batches)) acc /\
                map blockIndex acc = map Z.of_nat (seq 0 (List.length acc)))
             (fun _ _ => True) batches [] batches [] s eq_refl);
      [|split; [constructor|reflexivity]].
    intros k batch acc s0 Hnth Hk (Hacc & Hidx).
    apply wp_bind. eapply wp_conseq; [apply wp_step_task_result|].
    intros [batchReviews|e] s1 Hall; [|exact I]. symmetry in Hall.
    apply task_all_results in Hall. unfold map_indexed in Hall.
    apply review_batch_results in Hall. destruct Hall as (Hres & Hridx).
    apply wp_bind, wp_step_do, wp_db_update, wp_ret.
    destruct (@chunks_of_prefix _ allBlocks 30 k ltac:(lia) Hk) as (Hpre & Hlt).
    fold batches in Hpre.
    replace (Z.to_nat (k + 1)) with (S (Z.to_nat k)) by lia.
    rewrite (firstn_succ_nth _ _ _ Hnth), concat_app. cbn [List.concat].
    rewrite app_nil_r. split; [now apply Forall2_app|].
    rewrite map_app, Hidx, Hridx, length_app, seq_app, map_app. f_equal.
    rewrite (seq_from (0 + _)), map_map.
    rewrite <- (Forall2_length Hres). apply map_ext. intros n.
    rewrite <- (Forall2_length Hacc), Hpre, length_firstn.
    unfold len in Hlt. lia. }
  unfold wp in Hwp. rewrite Hrun in Hwp. cbn in Hwp.
  unfold len in Hwp. rewrite Nat2Z.id, firstn_all, Hcat in Hwp.
  destruct Hwp as (H1 & H2). split; [exact H1|].
  now rewrite H2, (Forall2_length H1).
Qed.

(** X19. When the Review stage returns, it returns one review per block, in
    the order of the blocks: the k-th review is what [reviewBlock] gave for
    the k-th block, and its [blockIndex] is k, counted from 0 over the
    whole document and not within the batch of 30. *)
Theorem reviewStage_reviews (w : World) (allBlocks : list ContractBlock)
    (language : string) (s s' : St Research) (reviews : list ContractBlockReview) :
  reviewStage w allBlocks language s = (Ok reviews, s') ->
  Forall2 (fun b r => snd (reviewBlock w b (blockIndex r) language) = Ok r)
    allBlocks reviews /\
  map blockIndex reviews = map Z.of_nat (seq 0 (List.length allBlocks)).
Proof. exact (@reviewStage_result w allBlocks language s s' reviews). Qed.

Lemma reviewStage_reviews_witness :
  exists reviews s',
    reviewStage sampleWorld [sampleBlock; sampleBlock] "English" (initial pendingResearch)
    = (Ok reviews, s') /\
    Forall2 (fun b r => snd (reviewBlock sampleWorld b (blockIndex r) "English") = Ok r)
      [sampleBlock; sampleBlock] reviews /\
    map blockIndex reviews = [0; 1].
Proof.
  eexists. eexists. split; [lazy; reflexivity|].
  eapply (reviewStage_reviews sampleWorld [sampleBlock; sampleBlock] "English"
            (initial pendingResearch)).
  lazy. reflexivity.
Defined.

End ReviewStageResult.

(** ** The client of the risk service *)

Lemma includes_prefix (t s : string) : String.prefix t s = true -> includes t s = true.
Proof. intros H. destruct s; cbn [includes]; rewrite H; reflexivity. Qed.

Lemma service_error_included (rest : string) :
  includes "Antihal service error" ("Antihal service error (" +++ rest) = true.
Proof. apply includes_prefix. reflexivity. Qed.

Lemma endsWith_char_append (c : ascii) (u : string) :
  endsWith_char c (u +++ String c "") = true.
Proof.
  induction u as [|d u IH]; cbn [append endsWith_char]; [apply Ascii.eqb_refl|].
  destruct (u +++ String c "") eqn:E; [destruct u; discriminate|exact IH].
Qed.

Lemma dropLast_append (c : ascii) (u : string) : dropLast (u +++ String c "") = u.
Proof.
  induction u as [|d u IH]; cbn [append dropLast]; [reflexivity|].
  destruct (u +++ String c "") eqn:E; [destruct u; discriminate|now rewrite IH].
Qed.

Section AntihalClient.
Import Antihal.

(** X20. [estimateHallucinationRisk] returns metrics exactly when the URL is
    not empty, the request is answered, the answer is [ok], its body is
    read, and the three fields are numbers; it returns these three numbers
    unchanged. *)
Theorem estimateHallucinationRisk_returns (fetch : Fetch) (antihalUrl prompt : string)
    (r : AntihalResponse) :
  snd (estimateHallucinationRisk fetch antihalUrl prompt) = Ok r <->
  antihalUrl <> "" /\
  exists response data,
    fetch (baseUrl_of antihalUrl +++ "/api/hallucinations/estimate") prompt 30000
    = Ok response /\
    ok response = true /\
    dataBody response = Ok data /\
    d_hallucination_risk data = Some (hallucination_risk r) /\
    d_isr data = Some (isr r) /\
    d_info_budget data = Some (info_budget r).
Proof.
  unfold estimateHallucinationRisk. split.
  - destruct antihalUrl as [|c u]; cbn [falsy]; [discriminate|].
    intros H. split; [discriminate|].
    destruct (fetch _ prompt 30000) as [response|e] eqn:Hf.
    + cbv beta iota delta [task_call task_bind] in H.
      destruct (ok response) eqn:Hok; cbn [negb] in H.
      * destruct (dataBody response) as [data|e] eqn:Hd; cbn in H.
        -- exists response, data.
           destruct (d_hallucination_risk data), (d_isr data), (d_info_budget data);
             cbn in H; try discriminate.
           inversion H; subst. cbn. repeat split; trivial.
        -- destruct e as [m|]; [destruct (includes _ m)|]; discriminate.
      * cbn in H. discriminate.
    + cbn in H. destruct e as [m|]; [destruct (includes _ m)|]; discriminate.
  - intros (Hurl & response & data & Hf & Hok & Hd & H1 & H2 & H3).
    destruct antihalUrl as [|c u]; [congruence|]. cbn [falsy].
    cbv zeta. rewrite Hf. cbn [task_call task_bind]. rewrite Hok. cbn [negb].
    rewrite Hd. cbn [task_bind]. rewrite H1, H2, H3. cbn. now destruct r.
Qed.

(** X21. Whatever [estimateHallucinationRisk] throws is an [Error], and its
    message is the one of the missing URL, or contains the words of the
    service error, or starts with the words of the failed connection, or is
    the one of the unknown error. *)
Theorem estimateHallucinationRisk_throws (fetch : Fetch) (antihalUrl prompt : string)
    (e : Thrown) :
  snd (estimateHallucinationRisk fetch antihalUrl prompt) = Throw e ->
  exists message,
    e = ErrorObj message /\
    (message = "ANTIHAL_URL is not configured" \/
     includes "Antihal service error" message = true \/
     (exists cause, message = "Failed to connect to antihal service: " +++ cause) \/
     message = "Unknown error occurred while calling antihal service").
Proof.
  unfold estimateHallucinationRisk.
  destruct (falsy (Some antihalUrl)).
  { cbn. intros H. inversion H. eauto. }
  cbv zeta.
  match goal with |- snd (task_catch ?t ?h) = _ -> _ => generalize t end.
  intros [cs [a|e0]]; cbn [task_catch snd]; [discriminate|].
  destruct e0 as [m|].
  - destruct (includes "Antihal service error" m) eqn:Hinc; cbn; intros H; inversion H; eauto 8.
  - cbn. intros H. inversion H. eauto 8.
Qed.

Lemma estimateHallucinationRisk_throws_witness :
  exists message,
    ErrorObj "ANTIHAL_URL is not configured" = ErrorObj message /\
    (message = "ANTIHAL_URL is not configured" \/
     includes "Antihal service error" message = true \/
     (exists cause, message = "Failed to connect to antihal service: " +++ cause) \/
     message = "Unknown error occurred while calling antihal service").
Proof.
  apply (estimateHallucinationRisk_throws (fun _ _ _ => Throw OtherValue) "" "prompt").
  reflexivity.
Defined.

(** X22. An answer that is not [ok] is reported with its status and the
    text of its body, an object as [AntihalError] declares: the field
    [error], else the field [detail], else ['Unknown error'], also when the
    body cannot be read; this error is passed on as it is, not wrapped as a
    failed connection. *)
Theorem estimateHallucinationRisk_http_error (fetch : Fetch) (antihalUrl prompt : string)
    (response : Response) :
  antihalUrl <> "" ->
  fetch (baseUrl_of antihalUrl +++ "/api/hallucinations/estimate") prompt 30000
  = Ok response ->
  ok response = false ->
  snd (estimateHallucinationRisk fetch antihalUrl prompt)
  = Throw (ErrorObj
             ("Antihal service error (" +++ string_of_Z (http_status response) +++ "): "
              +++ match errorBody response with
                  | Ok body => or_else (e_error body) (or_else (e_detail body) "Unknown error")
                  | Throw _ => "Unknown error"
                  end)).
Proof.
  intros Hurl Hf Hok. unfold estimateHallucinationRisk.
  destruct antihalUrl as [|c u]; [congruence|]. cbn [falsy]. cbv zeta.
  rewrite Hf. cbn [task_call task_bind]. rewrite Hok. cbn [negb task_throw task_catch].
  rewrite service_error_included. cbn [task_throw app snd]. do 3 f_equal.
  now destruct (errorBody response).
Qed.

Lemma estimateHallucinationRisk_http_error_witness :
  snd (estimateHallucinationRisk
         (fun _ _ _ => Ok {| ok := false; http_status := 503;
                             errorBody := Ok {| e_error := None;
                                                e_detail := Some "overloaded" |};
                             dataBody := Throw OtherValue |})
         "http://localhost:8000" "prompt")
  = Throw (ErrorObj "Antihal service error (503): overloaded").
Proof.
  exact (estimateHallucinationRisk_http_error
           (fun _ _ _ => Ok {| ok := false; http_status := 503;
                               errorBody := Ok {| e_error := None;
                                                  e_detail := Some "overloaded" |};
                               dataBody := Throw OtherValue |})
           "http://localhost:8000" "prompt"
           {| ok := false; http_status := 503;
              errorBody := Ok {| e_error := None; e_detail := Some "overloaded" |};
              dataBody := Throw OtherValue |}
           ltac:(discriminate) eq_refl eq_refl).
Defined.

(** X23. An [ok] answer whose body is read and lacks one of the three
    numbers is reported as a failed connection: the error of the invalid
    structure is thrown inside the [try] and wrapped by its [catch]. *)
Theorem estimateHallucinationRisk_invalid_structure (fetch : Fetch)
    (antihalUrl prompt : string) (response : Response) (data : AntihalData) :
  antihalUrl <> "" ->
  fetch (baseUrl_of antihalUrl +++ "/api/hallucinations/estimate") prompt 30000
  = Ok response ->
  ok response = true ->
  dataBody response = Ok data ->
  d_hallucination_risk data = None \/ d_isr data = None \/ d_info_budget data = None ->
  snd (estimateHallucinationRisk fetch antihalUrl prompt)
  = Throw (ErrorObj ("Failed to connect to antihal service: "
                     +++ "Invalid response structure from antihal service")).
Proof.
  intros Hurl Hf Hok Hd Hnone. unfold estimateHallucinationRisk.
  destruct antihalUrl as [|c u]; [congruence|]. cbn [falsy]. cbv zeta.
  rewrite Hf. cbn [task_call task_bind]. rewrite Hok. cbn [negb]. rewrite Hd.
  cbn [task_bind].
  destruct (d_hallucination_risk data), (d_isr data), (d_info_budget data);
    try reflexivity.
  destruct Hnone as [H|[H|H]]; discriminate.
Qed.

Lemma estimateHallucinationRisk_invalid_structure_witness :
  snd (estimateHallucinationRisk
         (fun _ _ _ => Ok {| ok := true; http_status := 200;
                             errorBody := Throw OtherValue;
                             dataBody := Ok {| d_hallucination_risk := Some (1 # 2);
                                               d_isr := None;
                                               d_info_budget := Some (3 # 1) |} |})
         "http://localhost:8000/" "prompt")
  = Throw (ErrorObj ("Failed to connect to antihal service: "
                     +++ "Invalid response structure from antihal service")).
Proof.
  apply (estimateHallucinationRisk_invalid_structure
           (fun _ _ _ => Ok {| ok := true; http_status := 200;
                               errorBody := Throw OtherValue;
                               dataBody := Ok {| d_hallucination_risk := Some (1 # 2);
                                                 d_isr := None;
                                                 d_info_budget := Some (3 # 1) |} |})
           "http://localhost:8000/" "prompt"
           {| ok := true; http_status := 200;
              errorBody := Throw OtherValue;
              dataBody := Ok {| d_hallucination_risk := Some (1 # 2);
                                d_isr := None;
                                d_info_budget := Some (3 # 1) |} |}
           {| d_hallucination_risk := Some (1 # 2); d_isr := None;
              d_info_budget := Some (3 # 1) |});
    [discriminate|reflexivity|reflexivity|reflexivity|right; left; reflexivity].
Defined.

(** X24. One slash at the end of the URL makes no difference: for a URL
    that is not empty and does not end in a slash, the call with the slash
    added does what the call without it does. *)
Theorem estimateHallucinationRisk_trailing_slash (fetch : Fetch) (url prompt : string) :
  url <> "" ->
  endsWith_char "/" url = false ->
  estimateHallucinationRisk fetch (url +++ "/") prompt
  = estimateHallucinationRisk fetch url prompt.
Proof.
  intros Hurl Hend. unfold estimateHallucinationRisk, baseUrl_of.
  rewrite endsWith_char_append, dropLast_append, Hend.
  destruct url as [|c u]; [congruence|]. reflexivity.
Qed.

Lemma estimateHallucinationRisk_trailing_slash_witness :
  estimateHallucinationRisk (fun _ _ _ => Throw OtherValue) ("http://localhost:8000" +++ "/")
    "prompt"
  = estimateHallucinationRisk (fun _ _ _ => Throw OtherValue) "http://localhost:8000"
      "prompt".
Proof.
  apply (estimateHallucinationRisk_trailing_slash (fun _ _ _ => Throw OtherValue)
           "http://localhost:8000" "prompt");
    [discriminate|reflexivity].
Defined.

(** X25. [estimateHallucinationRisk] makes no request when the URL is
    empty, and otherwise exactly one, to the route of the estimate under
    the base URL with a time-out of 30 seconds: a failed request is not
    repeated. *)
Theorem estimateHallucinationRisk_one_request (fetch : Fetch) (antihalUrl prompt : string) :
  fst (estimateHallucinationRisk fetch antihalUrl prompt)
  = match antihalUrl with
    | "" => []
    | _ => [CallFetch (baseUrl_of antihalUrl +++ "/api/hallucinations/estimate") 30000]
    end.
Proof.
  unfold estimateHallucinationRisk.
  destruct antihalUrl as [|c u]; [reflexivity|]. cbn [falsy]. cbv zeta.
  destruct (fetch _ prompt 30000) as [response|e]; cbn [task_call task_bind].
  - destruct (ok response); cbn [negb].
    + destruct (dataBody response) as [data|e]; cbn [task_bind].
      * destruct (d_hallucination_risk data), (d_isr data), (d_info_budget data);
          try reflexivity.
      * destruct e as [m|]; cbn; [destruct (includes _ m)|]; reflexivity.
    + cbn [task_throw task_catch]. rewrite service_error_included. reflexivity.
  - destruct e as [m|]; cbn; [destruct (includes _ m)|]; reflexivity.
Qed.

(** X26. [checkAntihalHealth] never throws; it answers [true] exactly when
    the URL is not empty, the request is answered with [ok], the body is
    read, its [status] is ['healthy'] and its [service] is
    ['research-antihal']. *)
Theorem checkAntihalHealth_spec (fetch : FetchHealth) (antihalUrl : string) :
  exists healthy,
    snd (checkAntihalHealth fetch antihalUrl) = Ok healthy /\
    (healthy = true <->
     antihalUrl <> "" /\
     exists response data,
       fetch (baseUrl_of antihalUrl +++ "/health") 5000 = Ok response /\
       h_ok response = true /\
       healthBody response = Ok data /\
       h_status data = Some "healthy" /\
       h_service data = Some "research-antihal").
Proof.
  unfold checkAntihalHealth.
  destruct antihalUrl as [|c u]; cbn [falsy].
  { exists false. split; [reflexivity|]. split; [discriminate|]. now intros [H _]. }
  cbv zeta. set (endpoint := baseUrl_of (String c u) +++ "/health").
  destruct (fetch endpoint 5000) as [response|e] eqn:Hf; cbn [task_call task_bind].
  2:{ exists false. split; [reflexivity|]. split; [discriminate|].
      intros (_ & r & d & H & _). discriminate. }
  destruct (h_ok response) eqn:Hok; cbn [negb].
  2:{ exists false. split; [reflexivity|]. split; [discriminate|].
      intros (_ & r & d & H & Hok' & _). inversion H; subst. congruence. }
  destruct (healthBody response) as [data|e] eqn:Hd; cbn [task_bind].
  2:{ exists false. split; [reflexivity|]. split; [discriminate|].
      intros (_ & r & d & H & _ & Hd' & _). inversion H; subst. congruence. }
  eexists. split; [reflexivity|]. split.
  - intros H. apply andb_prop in H. destruct H as (H1 & H2).
    split; [discriminate|]. exists response, data. repeat split; trivial.
    + destruct (h_status data) as [x|]; [|discriminate]. cbn in H1.
      apply String.eqb_eq in H1. now subst.
    + destruct (h_service data) as [x|]; [|discriminate]. cbn in H2.
      apply String.eqb_eq in H2. now subst.
  - intros (_ & r & d & H & _ & Hd' & Hs1 & Hs2). inversion H; subst.
    rewrite Hd in Hd'. inversion Hd'; subst. rewrite Hs1, Hs2. reflexivity.
Qed.

End AntihalClient.

(** ** What a run leaves behind *)

Section PdfRunResults.
Import PdfParserWorkflow.

Lemma summaryStage_result (w : World) (allReviews : list ContractBlockReview)
    (allBlocks : list ContractBlock) (language : string) (s s' : St Research)
    (documentSummary : option DocumentSummary) :
  summaryStage w allReviews allBlocks language s = (Ok documentSummary, s') ->
  (documentSummary = None <-> allReviews = []) /\
  progress (job s') = progress (job s) /\ status (job s') = status (job s).
Proof.
  unfold summaryStage. destruct allReviews as [|r l].
  - cbn. intros H. inversion H; subst. repeat split; trivial.
  - change (0 <? len (r :: l)) with (0 <? Z.of_nat (S (List.length l))).
    destruct (Z.ltb_spec 0 (Z.of_nat (S (List.length l)))) as [_|Hneg]; [|lia].
    intros H. apply bind_Ok_inv in H. destruct H as (? & s1 & H1 & H).
    apply bind_Ok_inv in H. destruct H as (d & s2 & H2 & H).
    cbn in H1. inversion H1; subst. clear H1.
    unfold step_do, run_task in H2. inversion H2; subst. clear H2.
    cbn in H. inversion H; subst. cbn.
    split; [split; discriminate|split; reflexivity].
Qed.

(** X27. A run that returns [completed] has stored what it returns: the
    row of the job is [completed] at progress 100 with the returned
    results; these count the pages asked for and the blocks they hold; the
    blocks are those of the pages in order; there is one review per block
    and its [blockIndex] is the position of the block; the summary is
    missing exactly when there is no block, and the title is the one of
    the summary. *)
Theorem run_completed_results (w : World) (params : PdfParserParams)
    (s s' : St Research) (id : string) (res : Results) :
  run w params s = (Ok (RunCompleted id res), s') ->
  id = researchId params /\
  status (job s') = "completed" /\ progress (job s') = 100 /\
  results (job s') = Some res /\
  r_totalPages res = totalPages params /\
  totalBlocks res = len (blocks res) /\
  blocks res
  = flat_map (fun p => tagBlocks p
                         (extractedBy w (contractKey params)
                            (getLanguageName (match locale params with
                                              | Some l => l
                                              | None => "en"
                                              end)) p))
      (pages_of (totalPages params)) /\
  map blockIndex (reviews res) = map Z.of_nat (seq 0 (List.length (blocks res))) /\
  (summary (job s') = None <-> blocks res = []) /\
  title (job s') = extractedTitle (summary (job s')).
Proof.
  unfold run. set (language := getLanguageName _). unfold try_catch.
  destruct (runStages w params language s) as [[r|e] s1] eqn:Hrun.
  2:{ cbn. intros H. inversion H. }
  intros H. inversion H; subst. clear H.
  unfold runStages in Hrun.
  apply bind_Ok_inv in Hrun. destruct Hrun as (? & s2 & _ & H).
  apply bind_Ok_inv in H. destruct H as (allBlocks & s3 & Hparse & H).
  apply bind_Ok_inv in H. destruct H as (? & s4 & _ & H).
  apply bind_Ok_inv in H. destruct H as (allReviews & s5 & Hreview & H).
  apply bind_Ok_inv in H. destruct H as (documentSummary & s6 & Hsummary & H).
  apply parseStage_result in Hparse. destruct Hparse as (Hblocks & _).
  apply reviewStage_result in Hreview. destruct Hreview as (Hall & Hidx).
  apply summaryStage_result in Hsummary. destruct Hsummary as (Hnone & _).
  cbn in H. inversion H; subst id res s'. clear H. cbn.
  repeat split; trivial.
  - intros Hs. apply Hnone in Hs. subst allReviews. now inversion Hall.
  - intros Hb. apply Hnone. rewrite Hb in Hall. now inversion Hall.
Qed.

Lemma run_completed_results_witness :
  exists res s',
    run sampleWorld sampleParams (initial pendingResearch)
    = (Ok (RunCompleted "research-1" res), s') /\
    status (job s') = "completed" /\ progress (job s') = 100 /\
    results (job s') = Some res /\
    totalBlocks res = 1 /\
    map blockIndex (reviews res) = [0] /\
    summary (job s') <> None.
Proof.
  eexists. eexists. split; [lazy; reflexivity|].
  match goal with
  | |- status (job ?s') = _ /\ _ =>
      destruct (run_completed_results sampleWorld sampleParams (initial pendingResearch)
                  s' "research-1" _ ltac:(lazy; reflexivity))
        as (_ & H1 & H2 & H3 & _ & H5 & _ & H7 & H8 & _)
  end.
  split; [exact H1|]. split; [exact H2|]. split; [exact H3|].
  split; [exact H5|]. split; [exact H7|].
  intros Hs. apply H8 in Hs. discriminate Hs.
Defined.

(** X28. A document of no pages is not a failure: the run completes
    with empty results, no summary and no title, and calls neither the
    bucket nor a model. *)
Theorem run_without_pages (w : World) (params : PdfParserParams) (s : St Research) :
  totalPages params <= 0 ->
  exists s',
    run w params s
    = (Ok (RunCompleted (researchId params)
             {| r_totalPages := totalPages params; totalBlocks := 0;
                blocks := []; reviews := [] |}), s') /\
    status (job s') = "completed" /\ progress (job s') = 100 /\
    summary (job s') = None /\ title (job s') = None /\
    calls s' = calls s.
Proof.
  intros Hpages. unfold run, try_catch, runStages, parseStage, pages_of.
  replace (Z.to_nat (totalPages params)) with 0%nat by lia.
  eexists. cbn. repeat split.
Qed.

Lemma run_without_pages_witness :
  exists s',
    run sampleWorld
      {| researchId := "research-1"; contractKey := "contracts/1.pdf";
         totalPages := 0; locale := None |} (initial pendingResearch)
    = (Ok (RunCompleted "research-1"
             {| r_totalPages := 0; totalBlocks := 0; blocks := []; reviews := [] |}), s') /\
    status (job s') = "completed" /\ progress (job s') = 100 /\
    summary (job s') = None /\ title (job s') = None /\
    calls s' = [].
Proof.
  apply (run_without_pages sampleWorld
           {| researchId := "research-1"; contractKey := "contracts/1.pdf";
              totalPages := 0; locale := None |} (initial pendingResearch)).
  cbn. lia.
Defined.

End PdfRunResults.

Section PdfRunWithoutKey.
Import PdfParserWorkflow.

Lemma parsePageStep_without_key (w : World) (key language : string) (pageNumber : Z) :
  falsy (OPENROUTER_API_KEY w) = true ->
  fst (parsePageStep w key pageNumber language) = [CallBucketGet key] /\
  exists message,
    snd (parsePageStep w key pageNumber language) = Throw (ErrorObj message) /\
    (forall pdfBase64, snd (getObject w key) = Ok pdfBase64 ->
                       message = "OPENROUTER_API_KEY not configured").
Proof.
  intros Hkey. unfold parsePageStep, parsePdfPage, getObject. rewrite Hkey.
  destruct (research_assets_get w key) as [[object|]|e]; cbn.
  - destruct (arrayBuffer object) as [bytes|e]; cbn.
    + split; [reflexivity|]. eexists. split; [reflexivity|]. reflexivity.
    + split; [reflexivity|]. eexists. split; [reflexivity|]. discriminate.
  - split; [reflexivity|]. eexists. split; [reflexivity|]. discriminate.
  - split; [reflexivity|]. eexists. split; [reflexivity|]. discriminate.
Qed.

Lemma parseStage_first_page_throws (w : World) (params : PdfParserParams)
    (language : string) (s : St Research) (e : Thrown) :
  1 <= totalPages params ->
  snd (parsePageStep w (contractKey params) 1 language) = Throw e ->
  parseStage w params language s
  = (Throw e,
     mkSt (job s) (writes s) (steps s ++ ["parse-page-1"])
       (calls s ++ fst (parsePageStep w (contractKey params) 1 language))).
Proof.
  intros Hpages He. unfold parseStage, pages_of.
  destruct (Z.to_nat (totalPages params)) as [|n] eqn:Hn; [lia|].
  cbn [seq map]. change (Z.of_nat 0 + 1) with 1.
  destruct (@chunks_of_head Z 1 (map (fun i => Z.of_nat i + 1) (seq 1 n)) PAGES_PER_BATCH)
    as (chunks & ->); [unfold PAGES_PER_BATCH; lia|].
  cbn [for_indexed map Promise_all]. unfold bind at 1. unfold bind at 1.
  unfold step_do at 1. unfold run_task at 1. rewrite He. reflexivity.
Qed.

(** X29. Without the API key of the model a run over one page or more fails
    in the first page: the job is marked [failed] at progress 0 with the
    message of the failure, its results are left as they were, and no
    model is called, only the bucket is read; when the document can be
    read the message is the one of the missing key. *)
Theorem run_without_api_key (w : World) (params : PdfParserParams) (s : St Research) :
  falsy (OPENROUTER_API_KEY w) = true ->
  1 <= totalPages params ->
  exists message s',
    run w params s = (Ok (RunFailed (researchId params) message), s') /\
    status (job s') = "failed" /\
    errorMessage (job s') = Some message /\
    progress (job s') = 0 /\
    results (job s') = results (job s) /\
    (forall c, In c (calls s') ->
               In c (calls s) \/ c = CallBucketGet (contractKey params)) /\
    (forall pdfBase64, snd (getObject w (contractKey params)) = Ok pdfBase64 ->
                       message = "OPENROUTER_API_KEY not configured").
Proof.
  intros Hkey Hpages. unfold run. set (language := getLanguageName _).
  destruct (parsePageStep_without_key w (contractKey params) language 1 Hkey)
    as (Hcalls & message & Hthrow & Hmessage).
  exists message. unfold try_catch, runStages.
  unfold bind at 1. unfold step_do at 1. unfold db_update at 1.
  cbv beta iota. unfold bind at 1.
  rewrite (parseStage_first_page_throws w params language _ _ Hpages Hthrow).
  rewrite Hcalls. eexists. split; [reflexivity|]. cbn.
  repeat split; trivial.
  intros c Hc. apply in_app_or in Hc. destruct Hc as [Hc|[<-|[]]]; auto.
Qed.

Lemma run_without_api_key_witness :
  exists message s',
    run noKeyWorld sampleParams (initial pendingResearch)
    = (Ok (RunFailed (researchId sampleParams) message), s') /\
    status (job s') = "failed" /\
    errorMessage (job s') = Some message /\
    progress (job s') = 0 /\
    results (job s') = None /\
    (forall c, In c (calls s') -> In c [] \/ c = CallBucketGet (contractKey sampleParams)) /\
    (forall pdfBase64, snd (getObject noKeyWorld (contractKey sampleParams)) = Ok pdfBase64 ->
                       message = "OPENROUTER_API_KEY not configured").
Proof.
  apply (run_without_api_key noKeyWorld sampleParams (initial pendingResearch));
    [reflexivity|cbn; lia].
Defined.

End PdfRunWithoutKey.

Section ComplianceWithoutBlocks.
Import LegalComplianceWorkflow.

(** X30. A compliance check of a contract with no block completes: no
    batch is run, so no legal code is loaded and no model is called,
    whatever the configuration, and all the counters of the summary are
    0. *)
Theorem compliance_run_without_blocks (cfg : Config) (w : World)
    (params : LegalComplianceParams) (s : St Compliance) :
  contractBlocks params = [] ->
  exists s',
    run cfg w params s
    = (Ok (RunCompleted (complianceId params) (researchId params)
             {| phase1 := []; phase2 := [];
                summary := {| totalBlocks := 0; blocksWithViolations := 0;
                              criticalViolations := 0; moderateViolations := 0;
                              minorViolations := 0 |} |}), s') /\
    status (job s') = "completed" /\ progress (job s') = 100 /\
    calls s' = calls s.
Proof.
  intros Hblocks. unfold run, try_catch, runStages, phase1Stage, phase2Stage,
    finalizeComplianceResults, summarize.
  rewrite Hblocks. eexists. cbn. repeat split.
Qed.

Lemma compliance_run_without_blocks_witness :
  exists s',
    run bothDisabled sampleWorld noBlocksParams (initial pendingCompliance)
    = (Ok (RunCompleted (complianceId noBlocksParams) (researchId noBlocksParams)
             {| phase1 := []; phase2 := [];
                summary := {| totalBlocks := 0; blocksWithViolations := 0;
                              criticalViolations := 0; moderateViolations := 0;
                              minorViolations := 0 |} |}), s') /\
    status (job s') = "completed" /\ progress (job s') = 100 /\
    calls s' = [].
Proof.
  apply (compliance_run_without_blocks bothDisabled sampleWorld noBlocksParams
           (initial pendingCompliance)).
  reflexivity.
Defined.

End ComplianceWithoutBlocks.

(** ** A failed structuring pass and the stages *)

Lemma Promise_all_outcome {J A} (promises : list (W J A)) (tasks : list (Task A)) :
  Forall2 (fun p t => exists name, p = step_do name (run_task t)) promises tasks ->
  forall s : St J,
    wp (Promise_all promises)
       (fun r s' => job s' = job s /\ writes s' = writes s /\
                    match r with
                    | Ok results => Forall2 (fun t a => snd t = Ok a) tasks results
                    | Throw e => Exists (fun t => snd t = Throw e) tasks
                    end) s.
Proof.
  induction 1 as [|p t ps ts [name ->] _ IH]; intros s; cbn [Promise_all].
  - apply wp_ret. repeat split. constructor.
  - apply wp_bind. unfold wp at 1. cbn [step_do run_task fst snd].
    destruct (snd t) as [a|e] eqn:Ht.
    + apply wp_bind. eapply wp_conseq; [apply IH|].
      intros [rs|e] s' (Hj & Hw & H); cbn in *.
      * apply wp_ret. repeat split; trivial. constructor; trivial.
      * repeat split; trivial. now right.
    + cbn. repeat split. now left.
Qed.

Lemma task_all_throw_inv {A} (tasks : list (Task A)) (e : Thrown) :
  snd (task_all tasks) = Throw e -> Exists (fun t => snd t = Throw e) tasks.
Proof.
  induction tasks as [|t tasks IH]; cbn [task_all]; [discriminate|].
  destruct t as [cs [a|e']]; cbn.
  - destruct (task_all tasks) as [cs' [rs|e'']]; cbn in *; [discriminate|].
    intros H. right. apply IH. exact H.
  - intros H. left. cbn. inversion H. reflexivity.
Qed.

Lemma map_indexed_from_Exists_inv {X Y} (P : Y -> Prop) (f : X -> Z -> Y) (l : list X) :
  forall i,
    Exists P (map_indexed_from i f l) ->
    exists n x, nth_error l n = Some x /\ P (f x (i + Z.of_nat n)).
Proof.
  induction l as [|y l IH]; intros i H; cbn [map_indexed_from] in H; inversion H; subst.
  - exists 0%nat, y. split; [reflexivity|]. now rewrite Z.add_0_r.
  - destruct (IH _ H1) as (n & x & Hn & Hp). exists (S n), x. split; [exact Hn|].
    replace (i + Z.of_nat (S n)) with (i + 1 + Z.of_nat n) by lia. exact Hp.
Qed.

Lemma chunks_of_nth {T} (array : list T) (size k : Z) (chunk : list T) :
  0 < size -> 0 <= k ->
  nth_error (chunks_of array size) (Z.to_nat k) = Some chunk ->
  chunk = firstn (Z.to_nat size) (skipn (Z.to_nat (k * size)) array).
Proof.
  intros Hs Hk. rewrite (@chunks_of_closed T array size Hs), nth_error_map, nth_error_seq.
  destruct (Nat.ltb_spec (Z.to_nat k) (Z.to_nat (Math_ceil_div (len array) size)));
    cbn; [|discriminate].
  intros Heq. inversion Heq. rewrite Z2Nat.id by lia. apply slice_forward; nia.
Qed.

Lemma chunks_of_nth_item {T} (array : list T) (size k : Z) (chunk : list T)
    (n : nat) (x : T) :
  0 < size -> 0 <= k ->
  nth_error (chunks_of array size) (Z.to_nat k) = Some chunk ->
  nth_error chunk n = Some x ->
  nth_error array (Z.to_nat (k * size + Z.of_nat n)) = Some x.
Proof.
  intros Hs Hk Hchunk Hx. apply chunks_of_nth in Hchunk; trivial. subst chunk.
  assert (Hn : (n < Z.to_nat size)%nat).
  { assert (Hsome : nth_error (firstn (Z.to_nat size)
                                (skipn (Z.to_nat (k * size)) array)) n <> None)
      by congruence.
    apply nth_error_Some in Hsome. rewrite length_firstn in Hsome. lia. }
  rewrite nth_error_firstn in Hx.
  destruct (Nat.ltb_spec n (Z.to_nat size)); [|lia].
  rewrite nth_error_skipn in Hx.
  replace (Z.to_nat (k * size + Z.of_nat n)) with (Z.to_nat (k * size) + n)%nat by nia.
  exact Hx.
Qed.
Section ReviewStageFailure.
Import PdfParserWorkflow.

Lemma reviewBlock_throw_inv (w : World) (block : ContractBlock) (idx : Z)
    (language : string) (e : Thrown) :
  falsy (OPENROUTER_API_KEY w) = false ->
  snd (reviewBlock w block idx language) = Throw e ->
  exists error,
    generateObject_review w block language = Throw error /\
    e = ErrorObj ("Failed to review block " +++ string_of_Z idx +++ ": "
                  +++ message_or "Unknown error" error).
Proof.
  intros Hkey. unfold reviewBlock. rewrite Hkey.
  destruct (generateObject_review w block language) as [object|error] eqn:Hobj.
  - cbn. destruct (highlight _ object). cbn. discriminate.
  - cbn. intros H. inversion H. eauto.
Qed.

Lemma reviewBlock_structuring_failure (w : World) (block : ContractBlock) (idx : Z)
    (language : string) (error : Thrown) :
  falsy (OPENROUTER_API_KEY w) = false ->
  generateObject_review w block language = Throw error ->
  snd (reviewBlock w block idx language)
  = Throw (ErrorObj ("Failed to review block " +++ string_of_Z idx +++ ": "
                     +++ message_or "Unknown error" error)).
Proof. intros Hkey Hobj. unfold reviewBlock. rewrite Hkey. cbn. rewrite Hobj. reflexivity. Qed.

(** What the Review stage throws is what [reviewBlock] threw for one of
    the blocks. *)
Lemma reviewStage_throw_inv (w : World) (allBlocks : list ContractBlock)
    (language : string) (s s' : St Research) (e : Thrown) :
  falsy (OPENROUTER_API_KEY w) = false ->
  reviewStage w allBlocks language s = (Throw e, s') ->
  exists k block error,
    0 <= k /\ nth_error allBlocks (Z.to_nat k) = Some block /\
    generateObject_review w block language = Throw error /\
    e = ErrorObj ("Failed to review block " +++ string_of_Z k +++ ": "
                  +++ message_or "Unknown error" error).
Proof.
  intros Hkey Hrun. unfold reviewStage in Hrun.
  destruct (0 <? len allBlocks); [|discriminate].
  set (batches := chunks_of allBlocks 30) in *.
  match type of Hrun with ?m s = _ =>
    assert (Hwp : wp m
              (fun r _ => match r with
                          | Ok _ => True
                          | Throw e =>
                              exists k block error,
                                0 <= k /\ nth_error allBlocks (Z.to_nat k) = Some block /\
                                generateObject_review w block language = Throw error /\
                                e = ErrorObj ("Failed to review block " +++ string_of_Z k
                                              +++ ": " +++ message_or "Unknown error" error)
                          end) s)
  end.
  { apply (@wp_for_indexed_nth Research _ _ _ (fun _ _ _ => True)
             (fun e _ =>
                exists k block error,
                  0 <= k /\ nth_error allBlocks (Z.to_nat k) = Some block /\
                  generateObject_review w block language = Throw error /\
                  e = ErrorObj ("Failed to review block " +++ string_of_Z k
                                +++ ": " +++ message_or "Unknown error" error))
             batches [] batches [] s eq_refl); [|exact I].
    intros k batch acc s0 Hnth Hk _.
    apply wp_bind. eapply wp_conseq; [apply wp_step_task_result|].
    intros [batchReviews|e0] s1 Hall.
    - apply wp_bind, wp_step_do, wp_db_update, wp_ret. exact I.
    - symmetry in Hall. apply task_all_throw_inv in Hall. unfold map_indexed in Hall.
      apply map_indexed_from_Exists_inv in Hall. destruct Hall as (n & block & Hn & Hthrow).
      cbv beta zeta in Hthrow.
      apply reviewBlock_throw_inv in Hthrow; trivial.
      destruct Hthrow as (error & Hobj & ->).
      exists (k * 30 + (0 + Z.of_nat n)), block, error.
      split; [lia|]. split; [|split; [exact Hobj|reflexivity]].
      rewrite Z.add_0_l.
      apply (@chunks_of_nth_item _ allBlocks 30 k batch n block); trivial; lia. }
  unfold wp in Hwp. rewrite Hrun in Hwp. exact Hwp.
Qed.

(** A block whose structuring pass fails makes the Review stage throw. *)
Lemma reviewStage_propagates (w : World) (allBlocks : list ContractBlock)
    (language : string) (s : St Research) (block : ContractBlock) (error : Thrown) :
  falsy (OPENROUTER_API_KEY w) = false ->
  In block allBlocks ->
  generateObject_review w block language = Throw error ->
  exists e s',
    reviewStage w allBlocks language s = (Throw e, s') /\
    exists k block' error',
      0 <= k /\ nth_error allBlocks (Z.to_nat k) = Some block' /\
      generateObject_review w block' language = Throw error' /\
      e = ErrorObj ("Failed to review block " +++ string_of_Z k +++ ": "
                    +++ message_or "Unknown error" error').
Proof.
  intros Hkey Hin Hobj.
  destruct (reviewStage w allBlocks language s) as [[reviews|e] s'] eqn:Hrun.
  - exfalso. apply reviewStage_result in Hrun. destruct Hrun as (Hall & _).
    clear - Hkey Hin Hobj Hall.
    induction Hall as [|b r bs rs Hb _ IH]; [destruct Hin|].
    destruct Hin as [->|Hin]; [|auto].
    rewrite (reviewBlock_structuring_failure _ _ _ _ _ Hkey Hobj) in Hb. discriminate.
  - exists e, s'. split; [reflexivity|].
    eapply reviewStage_throw_inv; eauto.
Qed.

End ReviewStageFailure.
Section ComplianceStageFailure.
Import LegalComplianceWorkflow.

Lemma phase1BatchStep_outcome (cfg : Config) (w : World) (articles : list LegalArticle)
    (language : string) (batch : list ContractBlock) (startBlockIndex : Z) :
  falsy (OPENROUTER_API_KEY w) = false ->
  snd (loadLegalCodes cfg w) = Ok articles ->
  (forall blocksText sourcesText legalContext,
      exists text,
        generateText_identify w blocksText sourcesText legalContext language = Ok text) ->
  snd (phase1BatchStep cfg w batch startBlockIndex language)
  = Ok (phase1BatchOutcome w (batchByTokenLimit articles TOKEN_LIMIT) language batch
          startBlockIndex).
Proof.
  intros Hkey Hload Htext. unfold phase1BatchStep.
  destruct (loadLegalCodes cfg w) as [cs [a|e]]; cbn in Hload; inversion Hload; subst.
  cbn [task_bind].
  unfold identifyRelevantArticlesBatch, phase1BatchOutcome. rewrite Hkey. cbv zeta.
  destruct (Htext (contractBlocksText batch startBlockIndex)
              (sourcesTextOf (selectArticles (batchByTokenLimit articles TOKEN_LIMIT)))
              (legalContextOf (selectArticles (batchByTokenLimit articles TOKEN_LIMIT))))
    as [text Ht].
  rewrite Ht. cbn.
  destruct (generateObject_identify w text (len batch) startBlockIndex); reflexivity.
Qed.

(** With the legal codes loaded and a free text pass that answers, Phase 1
    returns, whatever the structuring passes do: batch by batch, the results
    of the structuring pass, or the all 'no violation' results of the batch
    when the pass failed. *)
Lemma phase1Stage_continues (cfg : Config) (w : World) (params : LegalComplianceParams)
    (language : string) (articles : list LegalArticle) (s : St Compliance) :
  falsy (OPENROUTER_API_KEY w) = false ->
  snd (loadLegalCodes cfg w) = Ok articles ->
  (forall blocksText sourcesText legalContext,
      exists text,
        generateText_identify w blocksText sourcesText legalContext language = Ok text) ->
  exists s',
    phase1Stage cfg w params language s
    = (Ok (flat_map
             (fun item =>
                phase1BatchOutcome w (batchByTokenLimit articles TOKEN_LIMIT) language
                  (fst item) (snd item * CONTRACT_BLOCKS_PER_BATCH))
             (map_indexed (fun batch batchIndex => (batch, batchIndex))
                (chunks_of (contractBlocks params) CONTRACT_BLOCKS_PER_BATCH))),
       s').
Proof.
  intros Hkey Hload Htext.
  set (F := fun item : list ContractBlock * Z =>
              phase1BatchOutcome w (batchByTokenLimit articles TOKEN_LIMIT) language
                (fst item) (snd item * CONTRACT_BLOCKS_PER_BATCH)).
  set (items := map_indexed (fun batch batchIndex => (batch, batchIndex))
                  (chunks_of (contractBlocks params) CONTRACT_BLOCKS_PER_BATCH)).
  set (processingChunks := chunks_of items MAX_PARALLEL_PHASE1).
  destruct (@chunks_of_spec _ items MAX_PARALLEL_PHASE1) as (_ & _ & Hcat);
    [unfold MAX_PARALLEL_PHASE1; lia|]. fold processingChunks in Hcat.
  assert (Hwp : wp (phase1Stage cfg w params language)
                  (fun r _ => match r with
                              | Ok acc =>
                                  acc = flat_map F
                                          (List.concat
                                             (firstn (Z.to_nat (len processingChunks))
                                                processingChunks))
                              | Throw _ => False
                              end) s).
  { unfold phase1Stage. fold items. fold processingChunks.
    apply (@wp_for_indexed_nth Compliance _ _ _
             (fun k acc _ =>
                acc = flat_map F (List.concat (firstn (Z.to_nat k) processingChunks)))
             (fun _ _ => False) processingChunks [] processingChunks [] s eq_refl);
      [|reflexivity].
    intros k chunk acc s0 Hnth Hk Hacc.
    apply wp_bind. eapply wp_conseq.
    { apply (@Promise_all_outcome Compliance _ _
               (map (fun item =>
                       phase1BatchStep cfg w (fst item)
                         (snd item * CONTRACT_BLOCKS_PER_BATCH) language) chunk)).
      clear. induction chunk as [|[batch batchIndex] chunk IH]; cbn [map]; constructor;
        [eexists; reflexivity|exact IH]. }
    intros [chunkResults|e] s1 (_ & _ & Hres).
    - apply wp_bind, wp_step_do, wp_db_update, wp_ret.
      replace (Z.to_nat (k + 1)) with (S (Z.to_nat k)) by lia.
      rewrite (firstn_succ_nth _ _ _ Hnth), concat_app, flat_map_app, Hacc.
      cbn [List.concat]. rewrite app_nil_r. f_equal.
      clear - Hres Hkey Hload Htext. revert chunkResults Hres.
      induction chunk as [|item chunk IH]; intros chunkResults Hres; cbn [map] in Hres;
        inversion Hres as [|t r ts rs Hr Hrs]; subst; [reflexivity|].
      rewrite (phase1BatchStep_outcome cfg w articles language _ _ Hkey Hload Htext) in Hr.
      inversion Hr; subst. cbn [List.concat flat_map]. f_equal. now apply IH.
    - apply Exists_exists in Hres. destruct Hres as (t & Hin & Ht).
      apply in_map_iff in Hin. destruct Hin as (item & <- & _).
      rewrite (phase1BatchStep_outcome cfg w articles language _ _ Hkey Hload Htext) in Ht.
      discriminate. }
  unfold wp in Hwp.
  destruct (phase1Stage cfg w params language s) as [[r|e] s'] eqn:Hrun; cbn in Hwp;
    [|contradiction].
  exists s'. unfold len in Hwp. rewrite Nat2Z.id, firstn_all, Hcat in Hwp. now subst r.
Qed.

Lemma phase2TaskStep_structuring_failure (cfg : Config) (w : World) (task : ReviewTask)
    (articles : list LegalArticle) (fullArticle : LegalArticle)
    (contractBlock : ContractBlock) (language text : string) (parseError : Thrown) :
  falsy (OPENROUTER_API_KEY w) = false ->
  snd (loadLegalCodes cfg w) = Ok articles ->
  t_block task = Some contractBlock ->
  find (fun a => String.eqb (name a) (articleName (t_article task))
                 && Source_eqb (source a) (ra_source (t_article task)))
    articles = Some fullArticle ->
  generateText_analysis w contractBlock (t_article task) (strippedBody fullArticle)
    language = Ok text ->
  generateObject_analysis w text = Throw parseError ->
  snd (phase2TaskStep cfg w task language)
  = Throw (ErrorObj ("Failed deep analysis for block " +++ string_of_Z (t_blockIndex task)
                     +++ ": Failed to structure deep analysis response: "
                     +++ message_or "Unknown error" parseError)).
Proof.
  intros Hkey Hload Hblock Hfind Htext Hobj. unfold phase2TaskStep.
  destruct (loadLegalCodes cfg w) as [cs [a|e]]; cbn in Hload; inversion Hload; subst.
  cbn [task_bind]. rewrite Hblock.
  unfold performDeepAnalysis. rewrite Hkey. cbv zeta. rewrite Hfind, Htext. cbn.
  rewrite Hobj. reflexivity.
Qed.

(** A Phase 2 task whose step throws makes Phase 2 throw, and what Phase 2
    throws is what the step of one of its tasks threw. *)
Lemma phase2Stage_propagates (cfg : Config) (w : World) (params : LegalComplianceParams)
    (phase1Results : list BlockResult) (language : string) (s : St Compliance)
    (task : ReviewTask) (e0 : Thrown) :
  let reviewTasks :=
    fst (deriveReviewTasks cfg (contractBlocks params)
           (filter needsDeepReview phase1Results)) in
  In task reviewTasks ->
  snd (phase2TaskStep cfg w task language) = Throw e0 ->
  exists e s',
    phase2Stage cfg w params phase1Results language s = (Throw e, s') /\
    exists task',
      In task' reviewTasks /\ snd (phase2TaskStep cfg w task' language) = Throw e.
Proof.
  intros reviewTasks Hin Hthrow. unfold phase2Stage.
  destruct (Z.gtb_spec (len (filter needsDeepReview phase1Results)) 0) as [Hpos|Hzero].
  2:{ exfalso. subst reviewTasks.
      destruct (filter needsDeepReview phase1Results); [destruct Hin|].
      unfold len in Hzero. cbn [List.length] in Hzero. lia. }
  subst reviewTasks.
  destruct (deriveReviewTasks cfg (contractBlocks params)
              (filter needsDeepReview phase1Results)) as [reviewTasks skippedArticles].
  cbn [fst] in *.
  set (reviewChunks := chunks_of reviewTasks MAX_PARALLEL_PHASE2).
  destruct (@chunks_of_spec _ reviewTasks MAX_PARALLEL_PHASE2) as (_ & _ & Hcat);
    [unfold MAX_PARALLEL_PHASE2; lia|]. fold reviewChunks in Hcat.
  match goal with |- exists e s', ?m s = _ /\ _ =>
    assert (Hwp : wp m
              (fun r _ => match r with
                          | Ok _ =>
                              Forall (fun t => exists a,
                                          snd (phase2TaskStep cfg w t language) = Ok a)
                                (List.concat (firstn (Z.to_nat (len reviewChunks))
                                                reviewChunks))
                          | Throw e =>
                              exists task',
                                In task' reviewTasks /\
                                snd (phase2TaskStep cfg w task' language) = Throw e
                          end) s)
  end.
  { apply (@wp_for_indexed_nth Compliance _ _ _
             (fun k _ _ =>
                Forall (fun t => exists a, snd (phase2TaskStep cfg w t language) = Ok a)
                  (List.concat (firstn (Z.to_nat k) reviewChunks)))
             (fun e _ => exists task',
                           In task' reviewTasks /\
                           snd (phase2TaskStep cfg w task' language) = Throw e)
             reviewChunks [] reviewChunks [] s eq_refl); [|constructor].
    intros k chunk acc s0 Hnth Hk Hacc.
    apply wp_bind. eapply wp_conseq.
    { apply (@Promise_all_outcome Compliance _ _
               (map (fun t => phase2TaskStep cfg w t language) chunk)).
      unfold map_indexed. generalize 0. clear.
      induction chunk as [|t chunk IH]; intros i; cbn [map map_indexed_from]; constructor;
        [eexists; reflexivity|apply IH]. }
    intros [chunkResults|e] s1 (_ & _ & Hres).
    - apply wp_bind, wp_step_do, wp_db_update, wp_ret.
      replace (Z.to_nat (k + 1)) with (S (Z.to_nat k)) by lia.
      rewrite (firstn_succ_nth _ _ _ Hnth), concat_app. cbn [List.concat].
      rewrite app_nil_r. apply Forall_app. split; [exact Hacc|].
      clear - Hres. revert chunkResults Hres.
      induction chunk as [|t chunk IH]; intros chunkResults Hres; cbn [map] in Hres;
        inversion Hres; subst; constructor; eauto.
    - apply Exists_exists in Hres. destruct Hres as (t & Hin' & Ht).
      apply in_map_iff in Hin'. destruct Hin' as (task' & <- & Hin').
      exists task'. split; [|exact Ht].
      rewrite <- Hcat. apply in_concat. exists chunk. split; [|exact Hin'].
      eapply nth_error_In; eauto. }
  unfold wp in Hwp.
  match type of Hwp with context [fst (?m s)] =>
    destruct (m s) as [[r|e] s'] eqn:Hrun
  end; cbn in Hwp.
  - exfalso. unfold len in Hwp. rewrite Nat2Z.id, firstn_all, Hcat in Hwp.
    rewrite Forall_forall in Hwp. destruct (Hwp _ Hin) as [a Ha]. congruence.
  - exists e, s'. split; [reflexivity|exact Hwp].
Qed.

End ComplianceStageFailure.
(** C5, as the code has it. When the structured output pass fails: the
    Phase 1 batch returns the all 'no violation' result for its blocks, its
    step returns normally and Phase 1 goes on to return the results of all
    its batches; [reviewBlock] has no fallback and throws, so does the step
    of the review wave the block is in, and the Review stage throws the
    error of a block whose pass failed; [performDeepAnalysis] throws, so
    does the step of its task, and Phase 2 throws what the step of one of
    its tasks threw. *)
Theorem structuring_failure_policy :
  (forall (w : LegalComplianceWorkflow.World)
          (contractBlocks : list LegalComplianceWorkflow.ContractBlock)
          (startBlockIndex : Z)
          (legalBatches : list (list LegalComplianceWorkflow.LegalArticle))
          (language text : string) (parseError : Thrown),
      falsy (LegalComplianceWorkflow.OPENROUTER_API_KEY w) = false ->
      LegalComplianceWorkflow.generateText_identify w
        (LegalComplianceWorkflow.contractBlocksText contractBlocks startBlockIndex)
        (LegalComplianceWorkflow.sourcesTextOf
           (LegalComplianceWorkflow.selectArticles legalBatches))
        (LegalComplianceWorkflow.legalContextOf
           (LegalComplianceWorkflow.selectArticles legalBatches))
        language = Ok text ->
      LegalComplianceWorkflow.generateObject_identify w text (len contractBlocks)
        startBlockIndex = Throw parseError ->
      let fallback :=
        LegalComplianceWorkflow.emptyBlockResults contractBlocks startBlockIndex in
      snd (LegalComplianceWorkflow.identifyRelevantArticlesBatch w contractBlocks
             startBlockIndex legalBatches language) = Ok fallback /\
      LegalComplianceWorkflow.phase1BatchOutcome w legalBatches language contractBlocks
        startBlockIndex = fallback /\
      map LegalComplianceWorkflow.contractBlockIndex fallback
      = map (fun n => startBlockIndex + Z.of_nat n)
          (seq 0 (List.length contractBlocks)) /\
      Forall (fun r => LegalComplianceWorkflow.hasViolation r = false /\
                       LegalComplianceWorkflow.relevantArticles r = [] /\
                       LegalComplianceWorkflow.needsDeepReview r = false) fallback) /\
  (forall (cfg : LegalComplianceWorkflow.Config) (w : LegalComplianceWorkflow.World)
          (params : LegalComplianceWorkflow.LegalComplianceParams) (language : string)
          (articles : list LegalComplianceWorkflow.LegalArticle)
          (s : St LegalComplianceWorkflow.Compliance),
      falsy (LegalComplianceWorkflow.OPENROUTER_API_KEY w) = false ->
      snd (LegalComplianceWorkflow.loadLegalCodes cfg w) = Ok articles ->
      (forall blocksText sourcesText legalContext,
          exists text,
            LegalComplianceWorkflow.generateText_identify w blocksText sourcesText
              legalContext language = Ok text) ->
      exists s',
        LegalComplianceWorkflow.phase1Stage cfg w params language s
        = (Ok (flat_map
                 (fun item =>
                    LegalComplianceWorkflow.phase1BatchOutcome w
                      (LegalComplianceWorkflow.batchByTokenLimit articles
                         LegalComplianceWorkflow.TOKEN_LIMIT)
                      language (fst item)
                      (snd item * LegalComplianceWorkflow.CONTRACT_BLOCKS_PER_BATCH))
                 (map_indexed (fun batch batchIndex => (batch, batchIndex))
                    (chunks_of (LegalComplianceWorkflow.contractBlocks params)
                       LegalComplianceWorkflow.CONTRACT_BLOCKS_PER_BATCH))),
           s')) /\
  (forall (w : PdfParserWorkflow.World) (block : PdfParserWorkflow.ContractBlock)
          (blockIndex : Z) (language : string) (error : Thrown),
      falsy (PdfParserWorkflow.OPENROUTER_API_KEY w) = false ->
      PdfParserWorkflow.generateObject_review w block language = Throw error ->
      snd (PdfParserWorkflow.reviewBlock w block blockIndex language)
      = Throw (ErrorObj ("Failed to review block " +++ string_of_Z blockIndex +++ ": "
                         +++ message_or "Unknown error" error))) /\
  (forall (w : PdfParserWorkflow.World) (batch : list PdfParserWorkflow.ContractBlock)
          (block : PdfParserWorkflow.ContractBlock) (batchIndex : Z)
          (language : string) (error : Thrown),
      falsy (PdfParserWorkflow.OPENROUTER_API_KEY w) = false ->
      In block batch ->
      PdfParserWorkflow.generateObject_review w block language = Throw error ->
      exists e,
        snd (task_all
               (map_indexed
                  (fun block idx =>
                     PdfParserWorkflow.reviewBlock w block (batchIndex * 30 + idx) language)
                  batch)) = Throw e) /\
  (forall (w : PdfParserWorkflow.World)
          (allBlocks : list PdfParserWorkflow.ContractBlock) (language : string)
          (s : St PdfParserWorkflow.Research) (block : PdfParserWorkflow.ContractBlock)
          (error : Thrown),
      falsy (PdfParserWorkflow.OPENROUTER_API_KEY w) = false ->
      In block allBlocks ->
      PdfParserWorkflow.generateObject_review w block language = Throw error ->
      exists e s',
        PdfParserWorkflow.reviewStage w allBlocks language s = (Throw e, s') /\
        exists k block' error',
          0 <= k /\ nth_error allBlocks (Z.to_nat k) = Some block' /\
          PdfParserWorkflow.generateObject_review w block' language = Throw error' /\
          e = ErrorObj ("Failed to review block " +++ string_of_Z k +++ ": "
                        +++ message_or "Unknown error" error')) /\
  (forall (w : LegalComplianceWorkflow.World)
          (contractBlock : LegalComplianceWorkflow.ContractBlock) (blockIndex : Z)
          (identifiedArticle : LegalComplianceWorkflow.RelevantArticle)
          (allLegalArticles : list LegalComplianceWorkflow.LegalArticle)
          (fullArticle : LegalComplianceWorkflow.LegalArticle)
          (language text : string) (parseError : Thrown),
      falsy (LegalComplianceWorkflow.OPENROUTER_API_KEY w) = false ->
      find (fun a =>
              String.eqb (LegalComplianceWorkflow.name a)
                (LegalComplianceWorkflow.articleName identifiedArticle)
              && LegalComplianceWorkflow.Source_eqb (LegalComplianceWorkflow.source a)
                   (LegalComplianceWorkflow.ra_source identifiedArticle))
        allLegalArticles = Some fullArticle ->
      LegalComplianceWorkflow.generateText_analysis w contractBlock identifiedArticle
        (LegalComplianceWorkflow.strippedBody fullArticle) language = Ok text ->
      LegalComplianceWorkflow.generateObject_analysis w text = Throw parseError ->
      snd (LegalComplianceWorkflow.performDeepAnalysis w (Some contractBlock) blockIndex
             identifiedArticle allLegalArticles language)
      = Throw (ErrorObj ("Failed deep analysis for block " +++ string_of_Z blockIndex
                         +++ ": Failed to structure deep analysis response: "
                         +++ message_or "Unknown error" parseError))) /\
  (forall (cfg : LegalComplianceWorkflow.Config) (w : LegalComplianceWorkflow.World)
          (params : LegalComplianceWorkflow.LegalComplianceParams)
          (phase1Results : list LegalComplianceWorkflow.BlockResult)
          (language : string) (s : St LegalComplianceWorkflow.Compliance)
          (task : LegalComplianceWorkflow.ReviewTask)
          (articles : list LegalComplianceWorkflow.LegalArticle)
          (fullArticle : LegalComplianceWorkflow.LegalArticle)
          (contractBlock : LegalComplianceWorkflow.ContractBlock)
          (text : string) (parseError : Thrown),
      let reviewTasks :=
        fst (LegalComplianceWorkflow.deriveReviewTasks cfg
               (LegalComplianceWorkflow.contractBlocks params)
               (filter LegalComplianceWorkflow.needsDeepReview phase1Results)) in
      In task reviewTasks ->
      falsy (LegalComplianceWorkflow.OPENROUTER_API_KEY w) = false ->
      snd (LegalComplianceWorkflow.loadLegalCodes cfg w) = Ok articles ->
      LegalComplianceWorkflow.t_block task = Some contractBlock ->
      find (fun a =>
              String.eqb (LegalComplianceWorkflow.name a)
                (LegalComplianceWorkflow.articleName
                   (LegalComplianceWorkflow.t_article task))
              && LegalComplianceWorkflow.Source_eqb (LegalComplianceWorkflow.source a)
                   (LegalComplianceWorkflow.ra_source
                      (LegalComplianceWorkflow.t_article task)))
        articles = Some fullArticle ->
      LegalComplianceWorkflow.generateText_analysis w contractBlock
        (LegalComplianceWorkflow.t_article task)
        (LegalComplianceWorkflow.strippedBody fullArticle) language = Ok text ->
      LegalComplianceWorkflow.generateObject_analysis w text = Throw parseError ->
      snd (LegalComplianceWorkflow.phase2TaskStep cfg w task language)
      = Throw (ErrorObj ("Failed deep analysis for block "
                         +++ string_of_Z (LegalComplianceWorkflow.t_blockIndex task)
                         +++ ": Failed to structure deep analysis response: "
                         +++ message_or "Unknown error" parseError)) /\
      exists e s',
        LegalComplianceWorkflow.phase2Stage cfg w params phase1Results language s
        = (Throw e, s') /\
        exists task',
          In task' reviewTasks /\
          snd (LegalComplianceWorkflow.phase2TaskStep cfg w task' language) = Throw e).
Proof.
  split; [|split; [|split; [|split; [|split; [|split]]]]].
  - intros w contractBlocks startBlockIndex legalBatches language text parseError
      Hkey Htext Hobj fallback.
    split; [|split; [|split]].
    + unfold LegalComplianceWorkflow.identifyRelevantArticlesBatch.
      rewrite Hkey. cbv zeta. rewrite Htext. cbn. rewrite Hobj. reflexivity.
    + unfold LegalComplianceWorkflow.phase1BatchOutcome. rewrite Htext, Hobj. reflexivity.
    + unfold fallback, LegalComplianceWorkflow.emptyBlockResults, map_indexed.
      rewrite map_map_indexed_from. cbn [LegalComplianceWorkflow.contractBlockIndex].
      rewrite (map_indexed_from_seq (fun k => startBlockIndex + k)). reflexivity.
    + unfold fallback, LegalComplianceWorkflow.emptyBlockResults, map_indexed.
      apply map_indexed_from_Forall. intros x i. cbn. auto.
  - intros cfg w params language articles s Hkey Hload Htext.
    now apply phase1Stage_continues.
  - intros w block blockIndex language error Hkey Hobj.
    now apply reviewBlock_structuring_failure.
  - intros w batch block batchIndex language error Hkey Hin Hobj.
    apply task_all_throws. unfold map_indexed.
    apply map_indexed_from_Exists with (x := block); trivial. intros i.
    rewrite (reviewBlock_structuring_failure _ _ _ _ _ Hkey Hobj). eauto.
  - intros w allBlocks language s block error Hkey Hin Hobj.
    eapply reviewStage_propagates; eauto.
  - intros w contractBlock blockIndex identifiedArticle allLegalArticles fullArticle
      language text parseError Hkey Hfind Htext Hobj.
    unfold LegalComplianceWorkflow.performDeepAnalysis.
    rewrite Hkey. cbv zeta. rewrite Hfind. rewrite Htext. cbn. rewrite Hobj. reflexivity.
  - intros cfg w params phase1Results language s task articles fullArticle contractBlock
      text parseError reviewTasks Hin Hkey Hload Hblock Hfind Htext Hobj.
    pose proof (phase2TaskStep_structuring_failure cfg w task articles fullArticle
                  contractBlock language text parseError Hkey Hload Hblock Hfind Htext
                  Hobj) as Hstep.
    split; [exact Hstep|].
    exact (phase2Stage_propagates cfg w params phase1Results language s task _ Hin Hstep).
Qed.

(** The failures at the sample worlds. *)
Lemma structuring_failure_policy_witness :
  snd (LegalComplianceWorkflow.identifyRelevantArticlesBatch
         LegalComplianceWorkflow.failingStructureWorld
         [LegalComplianceWorkflow.sampleBlock] 0
         [[LegalComplianceWorkflow.article1]] "English")
  = Ok (LegalComplianceWorkflow.emptyBlockResults [LegalComplianceWorkflow.sampleBlock] 0)
  /\
  (exists s',
      LegalComplianceWorkflow.phase1Stage LegalComplianceWorkflow.sourceConfig
        LegalComplianceWorkflow.failingStructureWorld LegalComplianceWorkflow.sampleParams
        "English" (initial LegalComplianceWorkflow.pendingCompliance)
      = (Ok (LegalComplianceWorkflow.emptyBlockResults
               [LegalComplianceWorkflow.sampleBlock] 0), s')) /\
  snd (PdfParserWorkflow.reviewBlock PdfParserWorkflow.failingReviewWorld
         PdfParserWorkflow.sampleBlock 0 "English")
  = Throw (ErrorObj ("Failed to review block " +++ string_of_Z 0 +++ ": "
                     +++ message_or "Unknown error" (ErrorObj "No object generated")))
  /\
  (exists e,
      snd (task_all
             (map_indexed
                (fun block idx =>
                   PdfParserWorkflow.reviewBlock PdfParserWorkflow.failingReviewWorld
                     block (0 * 30 + idx) "English")
                [PdfParserWorkflow.sampleBlock])) = Throw e) /\
  (exists e s',
      PdfParserWorkflow.reviewStage PdfParserWorkflow.failingReviewWorld
        [PdfParserWorkflow.sampleBlock] "English"
        (initial PdfParserWorkflow.pendingResearch) = (Throw e, s')) /\
  snd (LegalComplianceWorkflow.performDeepAnalysis
         LegalComplianceWorkflow.failingStructureWorld
         (Some LegalComplianceWorkflow.sampleBlock) 0
         LegalComplianceWorkflow.sampleRelevantArticle
         [LegalComplianceWorkflow.article1] "English")
  = Throw (ErrorObj ("Failed deep analysis for block " +++ string_of_Z 0
                     +++ ": Failed to structure deep analysis response: "
                     +++ message_or "Unknown error" (ErrorObj "No object generated")))
  /\
  (exists e s',
      LegalComplianceWorkflow.phase2Stage LegalComplianceWorkflow.sourceConfig
        LegalComplianceWorkflow.failingStructureWorld LegalComplianceWorkflow.sampleParams
        [ {| LegalComplianceWorkflow.contractBlockIndex := 0;
             LegalComplianceWorkflow.hasViolation := true;
             LegalComplianceWorkflow.relevantArticles :=
               [LegalComplianceWorkflow.sampleRelevantArticle];
             LegalComplianceWorkflow.needsDeepReview := true |} ]
        "English" (initial LegalComplianceWorkflow.pendingCompliance) = (Throw e, s')).
Proof.
  destruct structuring_failure_policy as (H1 & H2 & H3 & H4 & H5 & H6 & H7).
  split; [|split; [|split; [|split; [|split; [|split]]]]].
  - apply (H1 LegalComplianceWorkflow.failingStructureWorld
              [LegalComplianceWorkflow.sampleBlock] 0
              [[LegalComplianceWorkflow.article1]] "English"
              "Block 0 may violate Art 1." (ErrorObj "No object generated"));
      reflexivity.
  - destruct (H2 LegalComplianceWorkflow.sourceConfig
                LegalComplianceWorkflow.failingStructureWorld
                LegalComplianceWorkflow.sampleParams "English" _
                (initial LegalComplianceWorkflow.pendingCompliance)
                eq_refl eq_refl
                (fun _ _ _ => ex_intro _ "Block 0 may violate Art 1." eq_refl))
      as (s' & Hs').
    exists s'. exact Hs'.
  - apply H3; reflexivity.
  - apply (H4 PdfParserWorkflow.failingReviewWorld [PdfParserWorkflow.sampleBlock]
              PdfParserWorkflow.sampleBlock 0 "English" (ErrorObj "No object generated"));
      [reflexivity|now left|reflexivity].
  - destruct (H5 PdfParserWorkflow.failingReviewWorld [PdfParserWorkflow.sampleBlock]
                "English" (initial PdfParserWorkflow.pendingResearch)
                PdfParserWorkflow.sampleBlock (ErrorObj "No object generated")
                eq_refl (or_introl eq_refl) eq_refl) as (e & s' & Hrun & _).
    exists e, s'. exact Hrun.
  - apply (H6 LegalComplianceWorkflow.failingStructureWorld
              LegalComplianceWorkflow.sampleBlock 0
              LegalComplianceWorkflow.sampleRelevantArticle
              [LegalComplianceWorkflow.article1] LegalComplianceWorkflow.article1
              "English" "The clause is void." (ErrorObj "No object generated"));
      reflexivity.
  - destruct (H7 LegalComplianceWorkflow.sourceConfig
                LegalComplianceWorkflow.failingStructureWorld
                LegalComplianceWorkflow.sampleParams
                [ {| LegalComplianceWorkflow.contractBlockIndex := 0;
                     LegalComplianceWorkflow.hasViolation := true;
                     LegalComplianceWorkflow.relevantArticles :=
                       [LegalComplianceWorkflow.sampleRelevantArticle];
                     LegalComplianceWorkflow.needsDeepReview := true |} ]
                "English" (initial LegalComplianceWorkflow.pendingCompliance)
                {| LegalComplianceWorkflow.t_blockIndex := 0;
                   LegalComplianceWorkflow.t_block :=
                     Some LegalComplianceWorkflow.sampleBlock;
                   LegalComplianceWorkflow.t_article :=
                     LegalComplianceWorkflow.sampleRelevantArticle |}
                _ _ LegalComplianceWorkflow.sampleBlock
                "The clause is void." (ErrorObj "No object generated")
                (or_introl eq_refl) eq_refl eq_refl eq_refl eq_refl eq_refl eq_refl)
      as (_ & e & s' & Hrun & _).
    exists e, s'. exact Hrun.
Defined.

(** ** The failure guard on a database that may reject *)

Lemma throws_only_conseq {J A} (E E' : Thrown -> Prop) (m : W J A) :
  (forall e, E e -> E' e) -> throws_only E m -> throws_only E' m.
Proof. intros HE Hm s. specialize (Hm s). destruct (fst (m s)); auto. Qed.

Lemma has_message_named (e : Thrown) : has_message e -> named e.
Proof. destruct e as [m|]; cbn; [|contradiction]. intros Hm H. inversion H. contradiction. Qed.

Lemma message_or_named (dflt : string) (e : Thrown) :
  dflt <> "" -> named e -> message_or dflt e <> "".
Proof.
  unfold named. destruct e as [m|]; cbn; trivial. intros _ Hne Hm. apply Hne. now subst.
Qed.

Lemma throws_only_db_update_on {J} (db : Database J) (set : J -> J) :
  (forall history row e, db_write db history row = Throw e -> named e) ->
  throws_only named (db_update_on db set).
Proof.
  intros Hdb s. unfold db_update_on.
  destruct (db_write db (writes s) (set (job s))) eqn:Hw; cbn; [exact I|eauto].
Qed.

Lemma db_update_on_reliable {J} (set : J -> J) (s : St J) :
  db_update_on reliable set s = db_update set s.
Proof. reflexivity. Qed.

Section PdfGuard.
Import PdfParserWorkflow.
Context (db : Database Research).
Hypothesis Hdb : forall history row e, db_write db history row = Throw e -> named e.

Lemma parseStageOn_throws (w : World) (params : PdfParserParams) (language : string) :
  throws_only named (parseStageOn db w params language).
Proof.
  unfold parseStageOn. apply throws_only_for_indexed. intros k pageBatch acc.
  apply throws_only_bind.
  { eapply throws_only_conseq; [apply has_message_named|].
    apply quiet_throws_only, parseWave_quiet. }
  intros r.
  apply throws_only_bind; [apply throws_only_step_do, throws_only_db_update_on, Hdb|].
  intros _. apply throws_only_ret.
Qed.

Lemma reviewStageOn_throws (w : World) (allBlocks : list ContractBlock)
    (language : string) :
  throws_only named (reviewStageOn db w allBlocks language).
Proof.
  unfold reviewStageOn. destruct (0 <? len allBlocks); [|apply throws_only_ret].
  apply throws_only_for_indexed. intros k batch acc.
  apply throws_only_bind.
  { eapply throws_only_conseq; [apply has_message_named|].
    apply quiet_throws_only, reviewWave_quiet. }
  intros r.
  apply throws_only_bind; [apply throws_only_step_do, throws_only_db_update_on, Hdb|].
  intros _. apply throws_only_ret.
Qed.

Lemma summaryStageOn_throws (w : World) (allReviews : list ContractBlockReview)
    (allBlocks : list ContractBlock) (language : string) :
  throws_only named (summaryStageOn db w allReviews allBlocks language).
Proof.
  unfold summaryStageOn. destruct (0 <? len allReviews); [|apply throws_only_ret].
  apply throws_only_bind; [apply throws_only_step_do, throws_only_db_update_on, Hdb|].
  intros _. apply throws_only_bind.
  { eapply throws_only_conseq; [apply has_message_named|].
    apply quiet_throws_only, quiet_step_task, generateDocumentSummary_fails. }
  intros d. apply throws_only_ret.
Qed.

Lemma finalizeResultsOn_throws (params : PdfParserParams)
    (allBlocks : list ContractBlock) (allReviews : list ContractBlockReview)
    (documentSummary : option DocumentSummary) :
  throws_only named (finalizeResultsOn db params allBlocks allReviews documentSummary).
Proof.
  unfold finalizeResultsOn. apply throws_only_step_do.
  apply throws_only_bind; [apply throws_only_db_update_on, Hdb|].
  intros _. apply throws_only_ret.
Qed.

Lemma runStagesOn_throws (w : World) (params : PdfParserParams) (language : string) :
  throws_only named (runStagesOn db w params language).
Proof.
  unfold runStagesOn.
  apply throws_only_bind; [apply throws_only_step_do, throws_only_db_update_on, Hdb|].
  intros _.
  apply throws_only_bind; [apply parseStageOn_throws|]. intros allBlocks.
  apply throws_only_bind; [apply throws_only_step_do, throws_only_db_update_on, Hdb|].
  intros _.
  apply throws_only_bind; [apply reviewStageOn_throws|]. intros allReviews.
  apply throws_only_bind; [apply summaryStageOn_throws|]. intros documentSummary.
  apply finalizeResultsOn_throws.
Qed.

End PdfGuard.

Section PdfGuardAny.
Import PdfParserWorkflow.

Lemma finalizeResultsOn_Ok (db : Database Research) (params : PdfParserParams)
    (allBlocks : list ContractBlock) (allReviews : list ContractBlockReview)
    (documentSummary : option DocumentSummary) (s s' : St Research) (r : RunResult) :
  finalizeResultsOn db params allBlocks allReviews documentSummary s = (Ok r, s') ->
  status (job s') = "completed" /\ progress (job s') = 100 /\
  exists results0, r = RunCompleted (researchId params) results0 /\
                   results (job s') = Some results0.
Proof.
  unfold finalizeResultsOn, step_do, bind, db_update_on. cbn [job writes steps calls].
  destruct (db_write db _ _); [|discriminate].
  cbn. intros H. inversion H; subst. cbn. eauto.
Qed.

Lemma runStagesOn_completed (db : Database Research) (w : World)
    (params : PdfParserParams) (language : string) (s s' : St Research) (r : RunResult) :
  runStagesOn db w params language s = (Ok r, s') ->
  status (job s') = "completed" /\ progress (job s') = 100 /\
  exists results0, r = RunCompleted (researchId params) results0 /\
                   results (job s') = Some results0.
Proof.
  unfold runStagesOn. intros H.
  apply bind_Ok_inv in H. destruct H as (? & s1 & _ & H).
  apply bind_Ok_inv in H. destruct H as (allBlocks & s2 & _ & H).
  apply bind_Ok_inv in H. destruct H as (? & s3 & _ & H).
  apply bind_Ok_inv in H. destruct H as (allReviews & s4 & _ & H).
  apply bind_Ok_inv in H. destruct H as (documentSummary & s5 & _ & H).
  eapply finalizeResultsOn_Ok; eauto.
Qed.

(** The run of the PDF parser workflow on any database. *)
Lemma pdf_runOn_guard (db : Database Research) (w : World) (params : PdfParserParams)
    (s : St Research) :
  let language := getLanguageName (match locale params with
                                   | Some l => l
                                   | None => "en"
                                   end) in
  (DB db = false -> runOn db w params s = (Throw (ErrorObj "DB not found"), s)) /\
  (DB db = true ->
   (forall r s1,
       runStagesOn db w params language s = (Ok r, s1) ->
       runOn db w params s = (Ok r, s1) /\ status (job s1) = "completed") /\
   (forall e s1,
       runStagesOn db w params language s = (Throw e, s1) ->
       let errorMessage0 := message_or "Unknown error occurred" e in
       let failed := with_errorMessage errorMessage0
                       (with_currentStage "error" (with_status "failed" (job s1))) in
       match db_write db (writes s1) failed with
       | Ok _ =>
           exists s',
             runOn db w params s = (Ok (RunFailed (researchId params) errorMessage0), s') /\
             job s' = failed
       | Throw e' =>
           exists s',
             runOn db w params s = (Throw e', s') /\ job s' = job s1
       end)).
Proof.
  intros language. split.
  - intros Hdb. unfold runOn, getDb, bind. rewrite Hdb. reflexivity.
  - intros Hdb. unfold runOn, getDb. rewrite Hdb. fold language.
    change (bind (ret tt) ?k s) with (k tt s). cbv beta.
    split.
    + intros r s1 Hrun. unfold try_catch. rewrite Hrun. split; [reflexivity|].
      now apply runStagesOn_completed in Hrun.
    + intros e s1 Hrun. unfold try_catch. rewrite Hrun.
      unfold markWorkflowFailedOn, step_do, bind, db_update_on.
      cbn [job writes steps calls].
      destruct (db_write db (writes s1) _); eexists; split; reflexivity.
Qed.

Lemma pdf_runOn_reliable (w : World) (params : PdfParserParams) (s : St Research) :
  runOn reliable w params s = run w params s.
Proof. reflexivity. Qed.

End PdfGuardAny.
Section ComplianceGuard.
Import LegalComplianceWorkflow.
Context (db : Database Compliance).
Hypothesis Hdb : forall history row e, db_write db history row = Throw e -> named e.

Lemma phase1StageOn_throws (cfg : Config) (w : World) (params : LegalComplianceParams)
    (language : string) :
  throws_only named (phase1StageOn db cfg w params language).
Proof.
  unfold phase1StageOn. apply throws_only_for_indexed. intros k chunk acc.
  apply throws_only_bind.
  { eapply throws_only_conseq; [apply has_message_named|].
    apply quiet_throws_only, phase1Wave_quiet. }
  intros r.
  apply throws_only_bind; [apply throws_only_step_do, throws_only_db_update_on, Hdb|].
  intros _. apply throws_only_ret.
Qed.

Lemma phase2StageOn_throws (cfg : Config) (w : World) (params : LegalComplianceParams)
    (phase1Results : list BlockResult) (language : string) :
  throws_only named (phase2StageOn db cfg w params phase1Results language).
Proof.
  unfold phase2StageOn.
  destruct (len (filter needsDeepReview phase1Results) >? 0); [|apply throws_only_ret].
  destruct (deriveReviewTasks cfg (contractBlocks params)
              (filter needsDeepReview phase1Results)) as [reviewTasks skipped].
  apply throws_only_for_indexed. intros k chunk acc.
  apply throws_only_bind.
  { eapply throws_only_conseq; [apply has_message_named|].
    apply quiet_throws_only, phase2Wave_quiet. }
  intros r.
  apply throws_only_bind; [apply throws_only_step_do, throws_only_db_update_on, Hdb|].
  intros _. apply throws_only_ret.
Qed.

Lemma compliance_runStagesOn_throws (cfg : Config) (w : World)
    (params : LegalComplianceParams) (language : string) :
  throws_only named (runStagesOn db cfg w params language).
Proof.
  unfold runStagesOn.
  apply throws_only_bind; [apply throws_only_step_do, throws_only_db_update_on, Hdb|].
  intros _.
  apply throws_only_bind; [apply throws_only_step_do, throws_only_db_update_on, Hdb|].
  intros _.
  apply throws_only_bind; [apply phase1StageOn_throws|]. intros phase1Results.
  apply throws_only_bind; [apply throws_only_step_do, throws_only_db_update_on, Hdb|].
  intros _.
  apply throws_only_bind; [apply phase2StageOn_throws|]. intros phase2Results.
  unfold finalizeComplianceResultsOn. apply throws_only_step_do.
  apply throws_only_bind; [apply throws_only_db_update_on, Hdb|].
  intros _. apply throws_only_ret.
Qed.

End ComplianceGuard.

Section ComplianceGuardAny.
Import LegalComplianceWorkflow.

Lemma compliance_runStagesOn_completed (db : Database Compliance) (cfg : Config)
    (w : World) (params : LegalComplianceParams) (language : string)
    (s s' : St Compliance) (r : RunResult) :
  runStagesOn db cfg w params language s = (Ok r, s') ->
  status (job s') = "completed" /\ progress (job s') = 100 /\
  exists results0,
    r = RunCompleted (complianceId params) (researchId params) results0 /\
    results (job s') = Some results0.
Proof.
  unfold runStagesOn. intros H.
  apply bind_Ok_inv in H. destruct H as (? & s1 & _ & H).
  apply bind_Ok_inv in H. destruct H as (? & s2 & _ & H).
  apply bind_Ok_inv in H. destruct H as (phase1Results & s3 & _ & H).
  apply bind_Ok_inv in H. destruct H as (? & s4 & _ & H).
  apply bind_Ok_inv in H. destruct H as (phase2Results & s5 & _ & H).
  revert H. unfold finalizeComplianceResultsOn, step_do, bind, db_update_on.
  cbn [job writes steps calls].
  destruct (db_write db _ _); [|discriminate].
  cbn. intros H. inversion H; subst. cbn. eauto.
Qed.

(** The run of the legal compliance workflow on any database. *)
Lemma compliance_runOn_guard (db : Database Compliance) (cfg : Config) (w : World)
    (params : LegalComplianceParams) (s : St Compliance) :
  let language := getLanguageName (match locale params with
                                   | Some l => l
                                   | None => "en"
                                   end) in
  (DB db = false -> runOn db cfg w params s = (Throw (ErrorObj "DB not found"), s)) /\
  (DB db = true ->
   (forall r s1,
       runStagesOn db cfg w params language s = (Ok r, s1) ->
       runOn db cfg w params s = (Ok r, s1) /\ status (job s1) = "completed") /\
   (forall e s1,
       runStagesOn db cfg w params language s = (Throw e, s1) ->
       let errorMessage0 := message_or "Unknown error occurred" e in
       let failed := with_errorMessage errorMessage0
                       (with_currentStage "error" (with_status "failed" (job s1))) in
       match db_write db (writes s1) failed with
       | Ok _ =>
           exists s',
             runOn db cfg w params s
             = (Ok (RunFailed (complianceId params) (researchId params) errorMessage0),
                s') /\
             job s' = failed
       | Throw e' =>
           exists s',
             runOn db cfg w params s = (Throw e', s') /\ job s' = job s1
       end)).
Proof.
  intros language. split.
  - intros Hdb. unfold runOn, getDb, bind. rewrite Hdb. reflexivity.
  - intros Hdb. unfold runOn, getDb. rewrite Hdb. fold language.
    change (bind (ret tt) ?k s) with (k tt s). cbv beta.
    split.
    + intros r s1 Hrun. unfold try_catch. rewrite Hrun. split; [reflexivity|].
      now apply compliance_runStagesOn_completed in Hrun.
    + intros e s1 Hrun. unfold try_catch. rewrite Hrun.
      unfold markComplianceFailedOn, step_do, bind, db_update_on.
      cbn [job writes steps calls].
      destruct (db_write db (writes s1) _); eexists; split; reflexivity.
Qed.

Lemma compliance_runOn_reliable (cfg : Config) (w : World)
    (params : LegalComplianceParams) (s : St Compliance) :
  runOn reliable cfg w params s = run cfg w params s.
Proof. reflexivity. Qed.

End ComplianceGuardAny.
(** C6, as the code has it. In both pipelines the guard catches whatever
    the stage sequence throws, also a rejected write of the job row, and
    hands it to the step that marks the job failed.  When the write of that
    step is accepted, the job record has status ['failed'], stage ['error']
    and the message of the error, which is not empty unless the error is an
    [Error] with an empty message, and the run returns the failure result
    with that message.  The run throws past its boundary in two cases: the
    write of the failure is rejected, or the database binding is missing,
    which [getDb] reports before the [try]; the job record is then left as
    it was.  On a database that accepts every write the run never throws
    and leaves the job completed or failed. *)
Theorem failure_guard :
  (forall (db : Database PdfParserWorkflow.Research) (w : PdfParserWorkflow.World)
          (params : PdfParserWorkflow.PdfParserParams)
          (s : St PdfParserWorkflow.Research),
      let language := getLanguageName (match PdfParserWorkflow.locale params with
                                       | Some l => l
                                       | None => "en"
                                       end) in
      (DB db = false ->
       PdfParserWorkflow.runOn db w params s = (Throw (ErrorObj "DB not found"), s)) /\
      (DB db = true ->
       (forall r s1,
           PdfParserWorkflow.runStagesOn db w params language s = (Ok r, s1) ->
           PdfParserWorkflow.runOn db w params s = (Ok r, s1) /\
           PdfParserWorkflow.status (job s1) = "completed") /\
       (forall e s1,
           PdfParserWorkflow.runStagesOn db w params language s = (Throw e, s1) ->
           let message := message_or "Unknown error occurred" e in
           match db_write db (writes s1)
                   (PdfParserWorkflow.with_errorMessage message
                      (PdfParserWorkflow.with_currentStage "error"
                         (PdfParserWorkflow.with_status "failed" (job s1)))) with
           | Ok _ =>
               exists s',
                 PdfParserWorkflow.runOn db w params s
                 = (Ok (PdfParserWorkflow.RunFailed (PdfParserWorkflow.researchId params)
                          message), s') /\
                 PdfParserWorkflow.status (job s') = "failed" /\
                 PdfParserWorkflow.currentStage (job s') = Some "error" /\
                 PdfParserWorkflow.errorMessage (job s') = Some message /\
                 (named e -> message <> "")
           | Throw e' =>
               exists s',
                 PdfParserWorkflow.runOn db w params s = (Throw e', s') /\
                 job s' = job s1
           end) /\
       ((forall history row e, db_write db history row = Throw e -> named e) ->
        throws_only named (PdfParserWorkflow.runStagesOn db w params language))) /\
      PdfParserWorkflow.runOn reliable w params s = PdfParserWorkflow.run w params s /\
      exists r s',
        PdfParserWorkflow.run w params s = (Ok r, s') /\
        (PdfParserWorkflow.status (job s') = "completed" \/
         PdfParserWorkflow.status (job s') = "failed") /\
        (forall e s1,
            PdfParserWorkflow.runStages w params language s = (Throw e, s1) ->
            exists errorMessage,
              errorMessage <> "" /\
              r = PdfParserWorkflow.RunFailed (PdfParserWorkflow.researchId params)
                    errorMessage /\
              PdfParserWorkflow.status (job s') = "failed" /\
              PdfParserWorkflow.currentStage (job s') = Some "error" /\
              PdfParserWorkflow.errorMessage (job s') = Some errorMessage)) /\
  (forall (db : Database LegalComplianceWorkflow.Compliance)
          (cfg : LegalComplianceWorkflow.Config) (w : LegalComplianceWorkflow.World)
          (params : LegalComplianceWorkflow.LegalComplianceParams)
          (s : St LegalComplianceWorkflow.Compliance),
      let language := getLanguageName (match LegalComplianceWorkflow.locale params with
                                       | Some l => l
                                       | None => "en"
                                       end) in
      (DB db = false ->
       LegalComplianceWorkflow.runOn db cfg w params s
       = (Throw (ErrorObj "DB not found"), s)) /\
      (DB db = true ->
       (forall r s1,
           LegalComplianceWorkflow.runStagesOn db cfg w params language s = (Ok r, s1) ->
           LegalComplianceWorkflow.runOn db cfg w params s = (Ok r, s1) /\
           LegalComplianceWorkflow.status (job s1) = "completed") /\
       (forall e s1,
           LegalComplianceWorkflow.runStagesOn db cfg w params language s
           = (Throw e, s1) ->
           let message := message_or "Unknown error occurred" e in
           match db_write db (writes s1)
                   (LegalComplianceWorkflow.with_errorMessage message
                      (LegalComplianceWorkflow.with_currentStage "error"
                         (LegalComplianceWorkflow.with_status "failed" (job s1)))) with
           | Ok _ =>
               exists s',
                 LegalComplianceWorkflow.runOn db cfg w params s
                 = (Ok (LegalComplianceWorkflow.RunFailed
                          (LegalComplianceWorkflow.complianceId params)
                          (LegalComplianceWorkflow.researchId params) message), s') /\
                 LegalComplianceWorkflow.status (job s') = "failed" /\
                 LegalComplianceWorkflow.currentStage (job s') = Some "error" /\
                 LegalComplianceWorkflow.errorMessage (job s') = Some message /\
                 (named e -> message <> "")
           | Throw e' =>
               exists s',
                 LegalComplianceWorkflow.runOn db cfg w params s = (Throw e', s') /\
                 job s' = job s1
           end) /\
       ((forall history row e, db_write db history row = Throw e -> named e) ->
        throws_only named
          (LegalComplianceWorkflow.runStagesOn db cfg w params language))) /\
      LegalComplianceWorkflow.runOn reliable cfg w params s
      = LegalComplianceWorkflow.run cfg w params s /\
      exists r s',
        LegalComplianceWorkflow.run cfg w params s = (Ok r, s') /\
        (LegalComplianceWorkflow.status (job s') = "completed" \/
         LegalComplianceWorkflow.status (job s') = "failed") /\
        (forall e s1,
            LegalComplianceWorkflow.runStages cfg w params language s = (Throw e, s1) ->
            exists errorMessage,
              errorMessage <> "" /\
              r = LegalComplianceWorkflow.RunFailed
                    (LegalComplianceWorkflow.complianceId params)
                    (LegalComplianceWorkflow.researchId params) errorMessage /\
              LegalComplianceWorkflow.status (job s') = "failed" /\
              LegalComplianceWorkflow.currentStage (job s') = Some "error" /\
              LegalComplianceWorkflow.errorMessage (job s') = Some errorMessage)).
Proof.
  split.
  - intros db w params s language.
    destruct (pdf_runOn_guard db w params s) as (Hunbound & Hbound).
    split; [exact Hunbound|]. split; [|split; [reflexivity|]].
    + intros Hdb. destruct (Hbound Hdb) as (Hok & Hthrow).
      split; [exact Hok|]. split; [|intros Hnamed; now apply runStagesOn_throws].
      intros e s1 Hrun message. specialize (Hthrow e s1 Hrun). cbv zeta in Hthrow.
      fold message in Hthrow.
      destruct (db_write db (writes s1) _); [|exact Hthrow].
      destruct Hthrow as (s' & Hr & Hjob). exists s'. split; [exact Hr|].
      rewrite Hjob. cbn. repeat split.
      intros Hnamed. apply message_or_named; [discriminate|exact Hnamed].
    + destruct (pdf_run_guard w params s) as (r & s' & Hrun & Hterm & Hfail).
      exists r, s'. repeat split; trivial. intros e s1 H.
      destruct (Hfail e s1 H) as (m & ? & ? & ? & ? & ? & ? & ?). exists m. auto.
  - intros db cfg w params s language.
    destruct (compliance_runOn_guard db cfg w params s) as (Hunbound & Hbound).
    split; [exact Hunbound|]. split; [|split; [reflexivity|]].
    + intros Hdb. destruct (Hbound Hdb) as (Hok & Hthrow).
      split; [exact Hok|].
      split; [|intros Hnamed; now apply compliance_runStagesOn_throws].
      intros e s1 Hrun message. specialize (Hthrow e s1 Hrun). cbv zeta in Hthrow.
      fold message in Hthrow.
      destruct (db_write db (writes s1) _); [|exact Hthrow].
      destruct Hthrow as (s' & Hr & Hjob). exists s'. split; [exact Hr|].
      rewrite Hjob. cbn. repeat split.
      intros Hnamed. apply message_or_named; [discriminate|exact Hnamed].
    + destruct (compliance_run_guard cfg w params s) as (r & s' & Hrun & Hterm & Hfail).
      exists r, s'. repeat split; trivial. intros e s1 H.
      destruct (Hfail e s1 H) as (m & ? & ? & ? & ? & ? & ? & ?). exists m. auto.
Qed.

(** A run of the document pipeline on a database that rejects the writes
    of the stages and accepts the write of the failure: the error of the
    first write is thrown inside the stage sequence and recorded. *)
Lemma failure_guard_witness :
  let db := {| DB := true;
               db_write := fun _ row =>
                 if String.eqb (PdfParserWorkflow.status row) "failed" then Ok tt
                 else Throw (ErrorObj "D1_ERROR: database is locked") |} in
  exists s',
    PdfParserWorkflow.runOn db PdfParserWorkflow.sampleWorld
      PdfParserWorkflow.sampleParams (initial PdfParserWorkflow.pendingResearch)
    = (Ok (PdfParserWorkflow.RunFailed "research-1" "D1_ERROR: database is locked"), s') /\
    PdfParserWorkflow.status (job s') = "failed" /\
    PdfParserWorkflow.currentStage (job s') = Some "error" /\
    PdfParserWorkflow.errorMessage (job s') = Some "D1_ERROR: database is locked".
Proof.
  intros db.
  destruct (proj1 failure_guard db PdfParserWorkflow.sampleWorld
              PdfParserWorkflow.sampleParams
              (initial PdfParserWorkflow.pendingResearch))
    as (_ & Hbound & _).
  destruct (Hbound eq_refl) as (_ & Hthrow & _).
  destruct (Hthrow (ErrorObj "D1_ERROR: database is locked")
              (mkSt PdfParserWorkflow.pendingResearch [] ["update-status-parsing"] [])
              eq_refl)
    as (s' & Hrun & Hstatus & Hstage & Hmessage & _).
  exists s'. repeat split; assumption.
Defined.

(** C6 as stated fails when the database rejects the write of the failure
    too, or when its binding is missing: an error is thrown inside the
    stage sequence, here by the first write, the run throws it past its
    boundary, and the job record is left [pending], with no error message. *)
Lemma run_throws_when_the_database_rejects :
  fst (PdfParserWorkflow.runStagesOn rejecting PdfParserWorkflow.sampleWorld
         PdfParserWorkflow.sampleParams "English"
         (initial PdfParserWorkflow.pendingResearch))
  = Throw (ErrorObj "D1_ERROR: database is locked") /\
  fst (PdfParserWorkflow.runOn rejecting PdfParserWorkflow.sampleWorld
         PdfParserWorkflow.sampleParams (initial PdfParserWorkflow.pendingResearch))
  = Throw (ErrorObj "D1_ERROR: database is locked") /\
  job (snd (PdfParserWorkflow.runOn rejecting PdfParserWorkflow.sampleWorld
              PdfParserWorkflow.sampleParams (initial PdfParserWorkflow.pendingResearch)))
  = PdfParserWorkflow.pendingResearch /\
  fst (PdfParserWorkflow.runOn unbound PdfParserWorkflow.sampleWorld
         PdfParserWorkflow.sampleParams (initial PdfParserWorkflow.pendingResearch))
  = Throw (ErrorObj "DB not found") /\
  fst (LegalComplianceWorkflow.runOn rejecting LegalComplianceWorkflow.sourceConfig
         LegalComplianceWorkflow.sampleWorld LegalComplianceWorkflow.sampleParams
         (initial LegalComplianceWorkflow.pendingCompliance))
  = Throw (ErrorObj "D1_ERROR: database is locked") /\
  job (snd (LegalComplianceWorkflow.runOn rejecting LegalComplianceWorkflow.sourceConfig
              LegalComplianceWorkflow.sampleWorld LegalComplianceWorkflow.sampleParams
              (initial LegalComplianceWorkflow.pendingCompliance)))
  = LegalComplianceWorkflow.pendingCompliance.
Proof. repeat split. Qed.
